(** * ori: the tabular index over FITS headers (src/ori/index.py)

    A shallow embedding of the [Index] class: the one-row-per-file table,
    the row mask, faceted attribute values, calibration-frame resolution
    (exact and fuzzy), the reorganize planner and the sync engine; with it
    the steps of the menus that act on the index (src/ori/app.py), the
    header cache as its two tables (src/ori/cache.py) and the merge of the
    user configuration with the defaults (src/ori/config.py).

    Conventions of the embedding.
    - A pandas DataFrame is a list of rows (table order) plus the list of
      its column labels; a row is its index key ([file]) and a finite map
      from column label to cell.  A cell that is NaN / pd.NA / None is an
      absent key of the map.
    - Header triples reach the table as strings ([parse_fits_headers] applies
      [str] to every value, the cache stores varchar), so raw columns hold
      [VStr]; [VNum] cells come from [astype('float')], [VBool] is the
      [_CHANGED] flag.
    - A float is the rational its decimal literal denotes, kept in lowest
      terms, so that equal numbers are equal cells.  Binary rounding at the
      last place of a float64 is not modelled.
    - Python exceptions are the [inl] side of a sum. *)

From Stdlib Require Import ZArith QArith Qround Qabs Qcanon String Ascii List Bool.
From stdpp Require Import base option strings pretty list sorting gmap.


Open Scope Z_scope.

(** ** Cells, rows and frames *)

Inductive value : Type :=
| VStr (s : string)
| VNum (q : Q)
| VBool (b : bool).

#[global] Instance Q_eq_dec : EqDecision Q.
Proof. solve_decision. Defined.

#[global] Instance value_eq_dec : EqDecision value.
Proof. solve_decision. Defined.

Record row : Type := Row { file : string; cells : gmap string value }.

#[global] Instance row_eq_dec : EqDecision row.
Proof. solve_decision. Defined.

Record frame : Type := Frame { columns : list string; rows : list row }.

Inductive error : Type :=
| KeyError (what : string)
| AssertionError
| ValueError (what : string)
| AttributeError (what : string)
| TypeError (what : string)
| MergeError
| FileExistsError (path : string)
| FileNotFoundError (path : string).

#[global] Instance error_eq_dec : EqDecision error.
Proof. solve_decision. Defined.

(** Computations that may raise: the first exception ends them. *)
#[global] Instance error_ret : MRet (sum error) := λ A x, inr x.

#[global] Instance error_bind : MBind (sum error) :=
  λ A B f m, match m with inl e => inl e | inr x => f x end.

(** A fallible function applied row by row, in table order. *)
Fixpoint map_err {A B : Type} (f : A → error + B) (l : list A)
  : error + list B :=
  match l with
  | [] => inr []
  | x :: l' => y ← f x; ys ← map_err f l'; mret (y :: ys)
  end.

(** [row[attr]] on a row of a frame whose columns include [attr]. *)
Definition cell (r : row) (attr : string) : option value := cells r !! attr.

(** [pd.isna] on a cell. *)
Definition isna (c : option value) : bool :=
  match c with None => true | Some _ => false end.

(** [df[cols]] restricted to one row: the cells in column order. *)
Definition project (attrs : list string) (r : row) : list (option value) :=
  map (cell r) attrs.

(** [.dropna()] keeps a row when none of its cells is missing. *)
Definition complete (c : list (option value)) : bool := forallb (negb ∘ isna) c.

(** [df.loc[mask]] with a boolean list as long as the table. *)
Fixpoint select {A : Type} (mask : list bool) (l : list A) : list A :=
  match mask, l with
  | b :: mask', x :: l' => if b then x :: select mask' l' else select mask' l'
  | _, _ => []
  end.

(** [.drop_duplicates()] / [.unique()]: first occurrences, in order. *)
Fixpoint unique {A : Type} `{EqDecision A} (l : list A) : list A :=
  match l with
  | [] => []
  | x :: l' => x :: filter (λ y, y ≠ x) (unique l')
  end.

(** ** Python string helpers *)

Definition lower_ascii (c : ascii) : ascii :=
  let n := nat_of_ascii c in
  if (65 <=? n)%nat && (n <=? 90)%nat then ascii_of_nat (n + 32) else c.

(** [str.lower] on ASCII text. *)
Fixpoint lower (s : string) : string :=
  match s with
  | EmptyString => EmptyString
  | String c s' => String (lower_ascii c) (lower s')
  end.

(** [s.replace(old, new)] for a non-empty [old]: non-overlapping
    occurrences, left to right.  [skip] counts the characters of a match
    still to be dropped. *)
Fixpoint replace_go (old new : string) (skip : nat) (s : string) : string :=
  match s with
  | EmptyString => EmptyString
  | String c s' =>
      match skip with
      | S k => replace_go old new k s'
      | O =>
          if String.prefix old s
          then new +:+ replace_go old new (String.length old - 1) s'
          else String c (replace_go old new 0 s')
      end
  end.

Definition replace (old new s : string) : string := replace_go old new 0 s.

(** [s.strip('_')]. *)
Fixpoint lstrip_us (s : string) : string :=
  match s with
  | String "_" s' => lstrip_us s'
  | _ => s
  end.

Definition strip_us (s : string) : string :=
  String.rev (lstrip_us (String.rev (lstrip_us s))).

(** [sep.join(parts)]. *)
Fixpoint join (sep : string) (parts : list string) : string :=
  match parts with
  | [] => ""
  | [p] => p
  | p :: ps => p +:+ sep +:+ join sep ps
  end.

(** ["0" * k]. *)
Fixpoint zeros (k : nat) : string :=
  match k with
  | O => ""
  | S k' => String "0" (zeros k')
  end.

(** [s.zfill(width)] on a string without sign. *)
Definition zfill (width : nat) (s : string) : string :=
  zeros (width - String.length s) +:+ s.

(** ** Numbers *)

(** Python's [round(t)] and numpy's [rint]: nearest integer, ties to even. *)
Definition round_half_even (q : Q) : Z :=
  let n := Qnum q in
  let d := Zpos (Qden q) in
  let f := n `div` d in
  let r := 2 * (n `mod` d) in
  if r <? d then f
  else if d <? r then f + 1
  else if Z.even f then f else f + 1.

(** [Series.round(decimals)]: round at [decimals] places; a negative count
    rounds to a power of ten. *)
Definition pow10 (k : Z) : Q := (10 # 1) ^ k.

Definition round_decimals (decimals : Z) (q : Q) : Q :=
  Qred (inject_Z (round_half_even (q * pow10 decimals)) / pow10 decimals).

Definition digit_of (c : ascii) : option Z :=
  let n := nat_of_ascii c in
  if (48 <=? n)%nat && (n <=? 57)%nat then Some (Z.of_nat (n - 48)) else None.

(** Digits at the front of a string: their value, how many, and the rest. *)
Fixpoint digits_go (acc : Z) (count : nat) (s : string) : Z * nat * string :=
  match s with
  | EmptyString => (acc, count, s)
  | String c s' =>
      match digit_of c with
      | Some d => digits_go (10 * acc + d) (S count) s'
      | None => (acc, count, s)
      end
  end.

Definition sign_of (s : string) : bool * string :=
  match s with
  | String "-" s' => (true, s')
  | String "+" s' => (false, s')
  | _ => (false, s)
  end.

(** [float(s)] on a decimal literal: sign, digits, optional fraction,
    optional exponent.  [None] is Python's ValueError.  (Python also takes
    surrounding blanks, digit-group underscores and the inf/nan spellings;
    [str] of a FITS header number produces none of them.) *)
Definition float_of_string (s : string) : option Q :=
  let '(neg, s1) := sign_of s in
  let '(ip, ni, s2) := digits_go 0 0 s1 in
  let '(mant, nf, s3) :=
    match s2 with
    | String "." s2' => digits_go ip 0 s2'
    | _ => (ip, 0%nat, s2)
    end in
  if (ni + nf =? 0)%nat then None else
  let signed := if neg then - mant else mant in
  let mk (e : Z) := Some (Qred (inject_Z signed * pow10 (e - Z.of_nat nf))) in
  match s3 with
  | EmptyString => mk 0
  | String c s4 =>
      if bool_decide (c = "e"%char ∨ c = "E"%char) then
        let '(eneg, s5) := sign_of s4 in
        match digits_go 0 0 s5 with
        | (e, S _, EmptyString) => mk (if eneg then - e else e)
        | _ => None
        end
      else None
  end.


(** [floor(log10 a)] for a positive rational [a]: the decimal exponent of
    its leading digit. *)
Definition ndigits (n : Z) : nat := String.length (pretty (Z.abs n)).

Fixpoint scale_up (fuel : nat) (a : Q) (j : Z) : Z :=
  match fuel with
  | O => j
  | S fuel' => if Qle_bool 1 (a * pow10 j) then j else scale_up fuel' a (j + 1)
  end.

Definition exponent10 (a : Q) : Z :=
  if Qle_bool 1 a then Z.of_nat (ndigits (Qfloor a)) - 1
  else - scale_up (ndigits (Zpos (Qden a))) a 1.

Fixpoint lstrip_zeros (s : string) : string :=
  match s with
  | String "0" s' => lstrip_zeros s'
  | _ => s
  end.

Definition rstrip_zeros (s : string) : string :=
  String.rev (lstrip_zeros (String.rev s)).

Definition with_point (ip fp : string) : string :=
  if bool_decide (fp = "") then ip else ip +:+ "." +:+ fp.

(** The [p] significant digits of a positive rational, as an integer, and
    the decimal exponent of the first of them; rounding up to the next
    power of ten moves the exponent. *)
Definition significand (p : nat) (a : Q) : Z * Z :=
  let e0 := exponent10 a in
  let m0 := round_half_even (a * pow10 (Z.of_nat p - 1 - e0)) in
  if m0 =? 10 ^ Z.of_nat p then (10 ^ Z.of_nat p `div` 10, e0 + 1)
  else (m0, e0).

(** Digits [ds] with the point after the digit of exponent 0; [dot0]
    keeps a [.0] on a whole number (as [repr] does). *)
Definition fixed_notation (p : nat) (dot0 : bool) (ds : string) (e : Z)
  : string :=
  if 0 <=? e then
    let k := Z.to_nat (e + 1) in
    let ip := String.substring 0 k ds
                +:+ zeros (k - p) in
    let fp := rstrip_zeros (String.substring k (p - k) ds) in
    if bool_decide (fp = "") then (if dot0 then ip +:+ ".0" else ip)
    else ip +:+ "." +:+ fp
  else
    "0." +:+ zeros (Z.to_nat (- e - 1))
         +:+ rstrip_zeros ds.

Definition exponent_notation (p : nat) (ds : string) (e : Z) : string :=
  with_point (String.substring 0 1 ds)
             (rstrip_zeros (String.substring 1 (p - 1) ds))
    +:+ "e" +:+ (if e <? 0 then "-" else "+")
    +:+ zfill 2 (pretty (Z.abs e)).

(** Python's float formatting with [p] significant digits: trailing zeros
    removed, exponent notation when the decimal exponent is below -4 or at
    least [limit]. *)
Definition format_general (p : nat) (limit : Z) (dot0 : bool) (q : Q) : string :=
  if Qeq_bool q 0 then (if dot0 then "0.0" else "0") else
  let '(m, e) := significand p (Qabs q) in
  (if Qle_bool 0 q then "" else "-")
  +:+ (if (-4 <=? e) && (e <? limit)
       then fixed_notation p dot0 (pretty m) e
       else exponent_notation p (pretty m) e).

(** ["{:g}".format(x)]: six significant digits. *)
Definition format_g (q : Q) : string := format_general 6 6 false q.

(** The least number of significant digits, from [p] up to [p + fuel], at
    which the decimal expansion of [a] is exact. *)
Fixpoint exact_digits (fuel p : nat) (a : Q) (e : Z) : nat :=
  match fuel with
  | O => p
  | S fuel' =>
      if (Zpos (Qden (Qred (a * pow10 (Z.of_nat p - 1 - e)))) =? 1)
      then p else exact_digits fuel' (S p) a e
  end.

(** [str(x)] / [repr(x)] of a float: the shortest digits that denote it,
    at most seventeen, exponent notation from 1e16 on. *)
Definition float_repr (q : Q) : string :=
  let a := Qabs q in
  format_general (exact_digits 16 1 a (exponent10 a)) 16 true q.

(** ** Frame primitives *)

(** Store a cell: a missing value removes the key. *)
Definition put (col : string) (v : option value) (m : gmap string value)
  : gmap string value := partial_alter (λ _, v) col m.

Definition set_cell (col : string) (v : option value) (r : row) : row :=
  Row (file r) (put col v (cells r)).

Definition set_cells (cols : list string) (v : string → option value) (r : row)
  : row := foldr (λ c r', set_cell c (v c) r') r cols.

(** Columns after an assignment that may enlarge the frame: labels not
    present yet are appended. *)
Definition add_columns (cols : list string) (old : list string) : list string :=
  old ++ filter (λ c, c ∉ old) (unique cols).

(** Apply [f] to the rows a boolean mask selects. *)
Fixpoint map_mask {A : Type} (f : A → A) (mask : list bool) (l : list A)
  : list A :=
  match mask, l with
  | b :: mask', x :: l' => (if b then f x else x) :: map_mask f mask' l'
  | _, _ => l
  end.

(** [df.loc[mask, cols] = v] with a scalar [v]. *)
Definition loc_set_scalar (mask : list bool) (cols : list string)
    (v : option value) (df : frame) : frame :=
  Frame (add_columns cols (columns df))
        (map_mask (set_cells cols (λ _, v)) mask (rows df)).

(** The row of [val] carrying index label [key]. *)
Definition row_at (val : frame) (key : string) : option row :=
  List.find (λ r, bool_decide (file r = key)) (rows val).

(** [df.loc[mask, cols] = val] with a DataFrame [val].  pandas aligns the
    value on both axes before storing it: a target row takes the row of
    [val] with its index label, and a target column takes the column of
    [val] with the SAME label; a target column that [val] does not have
    receives NaN (pandas.core.indexing, [_setitem_with_indexer_frame_value]
    and [_align_frame]). *)
Definition aligned (val : frame) (key col : string) : option value :=
  if bool_decide (col ∈ columns val)
  then r ← row_at val key; cell r col
  else None.

Definition loc_set_frame (mask : list bool) (cols : list string)
    (val : frame) (df : frame) : frame :=
  Frame (add_columns cols (columns df))
        (map_mask (λ r, set_cells cols (aligned val (file r)) r)
                  mask (rows df)).

(** [df[col] = series] given row by row. *)
Definition assign (col : string) (f : row → option value) (df : frame) : frame :=
  Frame (add_columns [col] (columns df))
        (map (λ r, set_cell col (f r) r) (rows df)).

(** [df.loc[mask, cols]] as a frame of its own. *)
Definition loc_get (mask : list bool) (cols : list string) (df : frame) : frame :=
  Frame cols
        (map (λ r, Row (file r) (filter (λ kv, kv.1 ∈ cols) (cells r)))
             (select mask (rows df))).

(** ** Configuration (config.yaml, read by [get_config]) *)

Record calib : Type := Calib { attrs : list string; targets : list string }.

(** One image type of a reorganize structure; a missing ['path'] or
    ['name'] key reads as the empty list ([.get(key, [])]). *)
Record layout : Type := Layout { path : list string; name : list string }.

Record structure : Type :=
  Structure { base_path : list string;
              base_name : list string;
              layouts : gmap string layout }.

Record Config : Type :=
  MkConfig { calibration : gmap string calib;
             structures : gmap string structure;
             mutable : list string }.

(** ** The index object *)

Record Index : Type :=
  MkIndex { config : Config;
            df : frame;
            missing_label : string;
            rowmask : list bool;
            selected_attrs : list string;
            prev_rowmasks : list (list bool);
            cache_valid : bool }.

Definition with_df (d : frame) (i : Index) : Index :=
  MkIndex (config i) d (missing_label i) (rowmask i) (selected_attrs i)
          (prev_rowmasks i) (cache_valid i).

Definition with_rowmask (m : list bool) (i : Index) : Index :=
  MkIndex (config i) (df i) (missing_label i) m (selected_attrs i)
          (prev_rowmasks i) (cache_valid i).

Definition with_cache_valid (b : bool) (i : Index) : Index :=
  MkIndex (config i) (df i) (missing_label i) (rowmask i) (selected_attrs i)
          (prev_rowmasks i) b.

(** ** Row mask (the [rowmask] property setter) *)

Inductive warning : Type := NoRowsSelected.

(** [any(new_mask)]. *)
Definition any (mask : list bool) : bool := existsb id mask.

(** The setter: the assertion on the length comes first, then the
    warning, then the assignment. *)
Definition set_rowmask (new_mask : list bool) (i : Index)
  : error + (Index * list warning) :=
  if bool_decide (length new_mask = length (rows (df i))) then
    inr (with_rowmask new_mask i,
         if any new_mask then [] else [NoRowsSelected])
  else inl AssertionError.

(** The object after the call: an exception leaves it as it was. *)
Definition after_set_rowmask (new_mask : list bool) (i : Index) : Index :=
  match set_rowmask new_mask i with
  | inr (i', _) => i'
  | inl _ => i
  end.

Definition reset_rowmask (i : Index) : Index :=
  with_rowmask (map (λ _, true) (rows (df i))) i.

(** ** Derived attributes ([Index.__init__]) *)

Definition normal_temps : list Z := [0; -10; -15; -20].

(** [normalize_temps] on a number; NaN is passed through by the caller. *)
Definition normalize_temps (t : Q) : Z :=
  let r := round_half_even t in
  if bool_decide (r + 1 ∈ normal_temps) then r + 1
  else if bool_decide (r - 1 ∈ normal_temps) then r - 1
  else r.

(** [Series.astype('float')] on one cell: NaN stays NaN, a string is
    parsed, a boolean becomes 0 or 1. *)
Definition astype_float (c : option value) : error + option Q :=
  match c with
  | None => inr None
  | Some (VNum q) => inr (Some q)
  | Some (VBool b) => inr (Some (if b then 1%Q else 0%Q))
  | Some (VStr s) =>
      match float_of_string s with
      | Some q => inr (Some q)
      | None => inl (ValueError s)
      end
  end.

(** [.map(normalize_temps).map("{:g}C".format)] on a float cell. *)
Definition format_ccdtemp (t : option Q) : string :=
  match t with
  | None => "nanC"
  | Some q => format_g (inject_Z (normalize_temps q)) +:+ "C"
  end.

(** The ['_CCDTEMP'] cell of a row with raw cell [c] in ['CCD-TEMP'].
    ([round] on a numpy float is taken to return an integer, as numpy does
    since 1.19; an older numpy keeps a float and prints a negative zero.) *)
Definition ccdtemp_of (c : option value) : error + string :=
  t ← astype_float c; mret (format_ccdtemp t).

(** [df[dst] = df[src].astype('float').map(f)], cell by cell. *)
Definition derive_float (src dst : string) (f : option Q → option value)
    (d : frame) : error + frame :=
  rs ← map_err (λ r, t ← astype_float (cell r src);
                     mret (set_cell dst (f t) r)) (rows d);
  mret (Frame (add_columns [dst] (columns d)) rs).

(** [df['_CCDTEMP'] = df['CCD-TEMP'].astype('float')
       .map(normalize_temps).map("{:g}C".format)]. *)
Definition derive_ccdtemp (d : frame) : error + frame :=
  derive_float "CCD-TEMP" "_CCDTEMP" (λ t, Some (VStr (format_ccdtemp t))) d.

(** [df[['XBINNING','YBINNING']].astype('str').agg('x'.join, axis=1)]. *)
Definition str_of_cell (c : option value) : string :=
  match c with
  | None => "nan"
  | Some (VStr s) => s
  | Some (VBool b) => if b then "True" else "False"
  | Some (VNum q) => float_repr q
  end.

Definition binning_of (r : row) : string :=
  str_of_cell (cell r "XBINNING") +:+ "x" +:+ str_of_cell (cell r "YBINNING").

(** [df['IMAGETYP'].str.replace(' Frame', '').str.lower()]; the [.str]
    accessor yields NaN on a cell that is not a string. *)
Definition imagetyp_of (c : option value) : option value :=
  match c with
  | Some (VStr s) => Some (VStr (lower (replace " Frame" "" s)))
  | _ => None
  end.

(** ** Calibration frames ([calibration_frames], [calibration_frames2]) *)

Inductive status : Type := Available | Missing.

#[global] Instance status_eq_dec : EqDecision status.
Proof. solve_decision. Defined.

(** A row of the result: the match attributes, the index (the candidate
    file, NaN on a left-only row) and ['_STATUS']. *)
Record calib_row : Type :=
  CalibRow { combo : list (option value);
             cfile : option string;
             cstatus : status }.

(** [c_type.replace(' Frame', '').lower()]. *)
Definition normalize_type (c_type : string) : string :=
  lower (replace " Frame" "" c_type).

(** [df._IMAGETYP == c_type] and [df._IMAGETYP.isin(c_targets)]. *)
Definition has_type (t : string) (r : row) : bool :=
  bool_decide (cell r "_IMAGETYP" = Some (VStr t)).

Definition type_in (ts : list string) (r : row) : bool :=
  existsb (λ t, has_type t r) ts.

(** [pd.merge(target_files, calib_files, how='outer', indicator=True)]
    followed by the query that keeps ['both'] and ['left_only'], and the
    renaming of the indicator.  The join is on the columns the two frames
    share, the match attributes.  Every target combination yields one row
    per candidate that equals it, or a single left-only row.  (pandas
    orders an outer join by key; the rows are listed here in target order,
    and nothing below depends on the order.) *)
Definition merge_block (c_attrs : list string) (calib_files : list row)
    (t : list (option value)) : list calib_row :=
  match filter (λ c, project c_attrs c = t) calib_files with
  | [] => [CalibRow t None Missing]
  | matches => map (λ c, CalibRow t (Some (file c)) Available) matches
  end.

Definition merge_left (c_attrs : list string)
    (target_files : list (list (option value))) (calib_files : list row)
  : list calib_row :=
  flat_map (merge_block c_attrs calib_files) target_files.

(** The columns a selection [df[cols]] needs. *)
Definition missing_column (cols : list string) (d : frame) : option string :=
  List.find (λ c, bool_decide (c ∉ columns d)) cols.

(** The join of [calibration_frames] and [calibration_frames2], on a frame
    [d] that is [self.df] or its rounded copy. *)
Definition resolve (c_type : string) (c_data : calib) (mask : list bool)
    (d : frame) : error + list calib_row :=
  let c_attrs := attrs c_data in
  let c_targets := targets c_data in
  if bool_decide ("_IMAGETYP" ∉ columns d) then inl (AttributeError "_IMAGETYP")
  else match missing_column c_attrs d with
  | Some c => inl (KeyError c)
  | None =>
      let calib_files := filter (λ r, has_type c_type r) (rows d) in
      let target_files :=
        filter (λ c, complete c)
          (unique (map (project c_attrs)
             (filter (λ r, type_in c_targets r) (select mask (rows d))))) in
      if bool_decide (c_attrs = []) then inl MergeError
      else inr (merge_left c_attrs target_files calib_files)
  end.

Definition calibration_frames (c_type : string) (i : Index)
  : error + list calib_row :=
  let c_type := normalize_type c_type in
  match calibration (config i) !! c_type with
  | None => inl (KeyError c_type)
  | Some c_data => resolve c_type c_data (rowmask i) (df i)
  end.

(** What a caller reads off the result: combination and status. *)
Definition statuses (res : list calib_row)
  : list (list (option value) * status) :=
  map (λ r, (combo r, cstatus r)) res.

(** The target and candidate combinations the specification speaks of. *)
Definition target_combos (c_data : calib) (i : Index)
  : list (list (option value)) :=
  map (project (attrs c_data))
      (filter (λ r, type_in (targets c_data) r) (select (rowmask i) (rows (df i)))).

Definition candidate_combos (c_type : string) (c_data : calib) (i : Index)
  : list (list (option value)) :=
  map (project (attrs c_data))
      (filter (λ r, has_type (normalize_type c_type) r) (rows (df i))).

Definition gets (st : status) (c : list (option value))
    (res : list calib_row) : Prop :=
  (c, st) ∈ statuses res ∧ ∀ st', (c, st') ∈ statuses res → st' = st.

Definition absent (c : list (option value)) (res : list calib_row) : Prop :=
  ∀ st, (c, st) ∉ statuses res.

(** The classification as the specification words it. *)
Definition classified (T C : list (list (option value)))
    (res : list calib_row) : Prop :=
  ∀ c, (c ∈ T → c ∈ C → gets Available c res)
     ∧ (c ∈ T → c ∉ C → gets Missing c res)
     ∧ (c ∉ T → absent c res).

(** The classification the code computes: [dropna] removes a target
    combination with a missing value before the join. *)
Definition classified_complete (T C : list (list (option value)))
    (res : list calib_row) : Prop :=
  ∀ c, (complete c = true → c ∈ T → c ∈ C → gets Available c res)
     ∧ (complete c = true → c ∈ T → c ∉ C → gets Missing c res)
     ∧ (complete c = false ∨ c ∉ T → absent c res).

(** The scenario of the specification: one light frame and two darks. *)
Definition frame_row (f typ temp binning : string) : row :=
  Row f {[ "_IMAGETYP" := VStr typ; "_CCDTEMP" := VStr temp;
           "_BINNING" := VStr binning ]}.

Definition dark_config : Config :=
  MkConfig {[ "dark" := Calib ["_CCDTEMP"; "_BINNING"] ["light"] ]} ∅ [].

Definition light_and_darks : Index :=
  MkIndex dark_config
    (Frame ["_IMAGETYP"; "_CCDTEMP"; "_BINNING"]
       [ frame_row "light1.fits" "light" "0C" "1x1";
         frame_row "dark1.fits" "dark" "0C" "1x1";
         frame_row "dark2.fits" "dark" "-10C" "2x2" ])
    "(Unknown)" [true; true; true] [] [] true.


(** A light frame whose header has no exposure time, and no dark at all. *)
Definition light_without_exptime : Index :=
  MkIndex (MkConfig {[ "dark" := Calib ["EXPTIME"] ["light"] ]} ∅ [])
    (Frame ["_IMAGETYP"; "EXPTIME"]
       [ Row "light1.fits" {[ "_IMAGETYP" := VStr "light" ]} ])
    "(Unknown)" [true] [] [] true.


(** [calibration_frames2]: the same join on a copy of the table in which
    ['EXPTIME'] and ['_CCDTEMP'] are replaced by the raw exposure time and
    the raw ['CCD-TEMP'] as floats, rounded to the given numbers of
    decimals. *)
Definition round_to (decimals : Z) (t : option Q) : option value :=
  (λ q, VNum (round_decimals decimals q)) <$> t.

Definition rounded_copy (exp_tolerance temp_tolerance : Z) (d : frame)
  : error + frame :=
  if bool_decide ("EXPTIME" ∉ columns d) then inl (AttributeError "EXPTIME")
  else
    d1 ← derive_float "EXPTIME" "EXPTIME" (round_to exp_tolerance) d;
    if bool_decide ("CCD-TEMP" ∉ columns d) then inl (KeyError "CCD-TEMP")
    else derive_float "CCD-TEMP" "_CCDTEMP" (round_to temp_tolerance) d1.

Definition calibration_frames2 (c_type : string)
    (exp_tolerance temp_tolerance : Z) (i : Index) : error + list calib_row :=
  let c_type := normalize_type c_type in
  match calibration (config i) !! c_type with
  | None => inl (KeyError c_type)
  | Some c_data =>
      d ← rounded_copy exp_tolerance temp_tolerance (df i);
      resolve c_type c_data (rowmask i) d
  end.

(** What the rounding does to one row, when its two cells are numbers. *)
Definition rounded_row (exp_tolerance temp_tolerance : Z) (r : row)
  : error + row :=
  e ← astype_float (cell r "EXPTIME");
  t ← astype_float (cell r "CCD-TEMP");
  mret (set_cell "_CCDTEMP" (round_to temp_tolerance t)
          (set_cell "EXPTIME" (round_to exp_tolerance e) r)).

(** A table built by the constructor: ['_IMAGETYP'] and ['_CCDTEMP'] are
    derived from the raw image type and CCD temperature. *)
Definition raw_row (f typ temp exptime : string) : row :=
  Row f {[ "IMAGETYP" := VStr typ; "CCD-TEMP" := VStr temp;
           "EXPTIME" := VStr exptime ]}.

Definition with_imagetyp (r : row) : row :=
  set_cell "_IMAGETYP" (imagetyp_of (cell r "IMAGETYP")) r.

Definition built (rs : list row) : frame :=
  match derive_ccdtemp
          (Frame ["IMAGETYP"; "CCD-TEMP"; "EXPTIME"; "_IMAGETYP"]
                 (map with_imagetyp rs)) with
  | inr d => d
  | inl _ => Frame [] []
  end.

Definition temp_config : Config :=
  MkConfig {[ "dark" := Calib ["_CCDTEMP"] ["light"] ]} ∅ [].

(** A light frame taken at -9 degrees and a dark taken at -10: both derive
    the temperature label "-10C". *)
Definition light_near_setpoint : Index :=
  MkIndex temp_config
    (built [ raw_row "light1.fits" "Light Frame" "-9" "120";
             raw_row "dark1.fits" "Dark Frame" "-10" "120" ])
    "(Unknown)" [true; true] [] [] true.

(** The same with both frames at -10 degrees. *)
Definition light_on_setpoint : Index :=
  MkIndex temp_config
    (built [ raw_row "light1.fits" "Light Frame" "-10" "120";
             raw_row "dark1.fits" "Dark Frame" "-10" "120" ])
    "(Unknown)" [true; true] [] [] true.


(** The two dark frames of the specification's scenario, as pivoted from
    the header triples. *)
Definition two_darks : frame :=
  Frame ["IMAGETYP"; "CCD-TEMP"]
    [ Row "a.fits" {[ "IMAGETYP" := VStr "Dark Frame"; "CCD-TEMP" := VStr "0.4" ]};
      Row "b.fits" {[ "IMAGETYP" := VStr "Dark Frame"; "CCD-TEMP" := VStr "-0.6" ]} ].

(** The ['_CCDTEMP'] column of a frame, or the exception raised. *)
Definition ccdtemp_column (d : frame) : error + list (option value) :=
  d' ← derive_ccdtemp d; mret (map (λ r, cell r "_CCDTEMP") (rows d')).


(** ** Attribute values ([values_for_attr]) *)

(** One yielded dictionary: ['value'], ['ncombos'], ['nfiles']. *)
Record facet : Type := Facet { fvalue : value; ncombos : nat; nfiles : nat }.

(** [selection[attr].fillna(self._missing_label)] on one row. *)
Definition filled (label : string) (attr : string) (r : row) : value :=
  match cell r attr with
  | Some v => v
  | None => VStr label
  end.

(** The rows grouped under one reported value: the rows whose cell is
    missing when the value equals the missing label, the rows whose cell
    equals the value otherwise. *)
Definition rows_for (label : string) (attr : string) (selection : list row)
    (v : value) : list row :=
  if bool_decide (v = VStr label)
  then filter (λ r, isna (cell r attr) = true) selection
  else filter (λ r, cell r attr = Some v) selection.

(** [_df.file.nunique()] and
    [_df.drop(columns = 'file').drop_duplicates().shape[0]]. *)
Definition facet_of (label : string) (attr : string) (selection : list row)
    (v : value) : facet :=
  let _df := rows_for label attr selection v in
  Facet v (length (unique (map cells _df))) (length (unique (map file _df))).

Definition values_for_attr (attr : string) (i : Index) : error + list facet :=
  let selection := select (rowmask i) (rows (df i)) in
  if bool_decide (attr ∉ columns (df i)) then inl (KeyError attr)
  else
    let values := map (filled (missing_label i) attr) selection in
    inr (map (facet_of (missing_label i) attr selection) (unique values)).

(** The sum of the reported file counts. *)
Definition total_files (fs : list facet) : nat := sum_list (map nfiles fs).

(** A table of one file whose OBJECT header reads "(Unknown)". *)
Definition object_named_unknown : Index :=
  MkIndex (MkConfig ∅ ∅ [])
    (Frame ["OBJECT"]
       [ Row "m31.fits" {[ "OBJECT" := VStr "(Unknown)" ]} ])
    "(Unknown)" [true] [] [] true.

(** ** Session auto-fill at construction ([Index.__init__], lines 58-67) *)

(** [df[col] = values] with one value per row. *)
Definition assign_list (col : string) (vals : list (option value)) (d : frame)
  : frame :=
  Frame (add_columns [col] (columns d))
        (zip_with (λ v r, set_cell col v r) vals (rows d)).

(** [df['_CHANGED'] = False; df['_newname'] = pd.NA; df['_newpath'] = pd.NA]. *)
Definition init_workflow (d : frame) : frame :=
  assign "_newpath" (λ _, None)
    (assign "_newname" (λ _, None)
       (assign "_CHANGED" (λ _, Some (VBool false)) d)).

(** [[
    missing_session_info = df.SESSION.isna()
    if any(missing_session_info):
        df.loc[df.SESSION.isna(), ['SESSION']] = df.loc[df.SESSION.isna(), ['_NIGHT']]
        df['_CHANGED'] = missing_session_info
    ]]
    The right-hand side is a one-column DataFrame labelled ['_NIGHT'];
    the assignment goes through [loc_set_frame]. *)
Definition init_sessions (d : frame) : error + frame :=
  if bool_decide ("SESSION" ∉ columns d) then inl (AttributeError "SESSION")
  else
    let missing_session_info := map (λ r, isna (cell r "SESSION")) (rows d) in
    if any missing_session_info then
      if bool_decide ("_NIGHT" ∉ columns d) then inl (KeyError "_NIGHT")
      else
        let d1 := loc_set_frame missing_session_info ["SESSION"]
                    (loc_get missing_session_info ["_NIGHT"] d) d in
        inr (assign_list "_CHANGED"
               (map (λ b, Some (VBool b)) missing_session_info) d1)
    else inr d.

(** [fill_missing_sessions], the menu action: every SESSION is overwritten
    with the night, the rows that had none are flagged. *)
Definition fill_missing_sessions (d : frame) : frame :=
  let missing := map (λ r, isna (cell r "SESSION")) (rows d) in
  let d1 := assign "SESSION" (λ r, cell r "_NIGHT") d in
  Frame (columns d1)
        (zip_with (λ b r,
           set_cell "_CHANGED"
             (Some (VBool (b || bool_decide (cell r "_CHANGED" = Some (VBool true))))) r)
           missing (rows d1)).

(** Two frames after the derived columns: the first has no SESSION. *)
Definition two_nights : frame :=
  init_workflow
    (Frame ["SESSION"; "_NIGHT"]
       [ Row "a.fits" {[ "_NIGHT" := VStr "2022-03-01" ]};
         Row "b.fits" {[ "SESSION" := VStr "galaxy season";
                         "_NIGHT" := VStr "2022-03-02" ]} ]).

(** The cells a caller reads after construction. *)
Definition session_and_flag (r : row) : option value * option value :=
  (cell r "SESSION", cell r "_CHANGED").

(** What [init_sessions] does to each row, when some session is missing. *)
Definition init_sessions_row (r : row) : row :=
  set_cell "_CHANGED" (Some (VBool (isna (cell r "SESSION"))))
    (if isna (cell r "SESSION") then set_cell "SESSION" None r else r).


(** ** Reorganize planning ([organize]) *)

(** Order of observation dates: ['DATE-OBS'] holds the header string, and
    strings are ranked as Python compares them, character by character. *)
Definition date_lt (x y : string) : Prop := String.le x y ∧ x ≠ y.

#[global] Instance date_lt_dec : RelDecision date_lt.
Proof. unfold date_lt. solve_decision. Defined.

(** [Series.rank('dense')] of the value [d] among [dates]: equal values
    share a rank and ranks have no gaps, so the rank is one more than the
    number of distinct smaller values. *)
Definition dense_rank (dates : list string) (d : string) : nat :=
  S (length (unique (filter (λ x, date_lt x d) dates))).

(** The key of a row in [df.groupby(group_attrs)]: a row with a missing
    value in a grouping column belongs to no group. *)
Definition group_key (group_attrs : list string) (r : row)
  : option (list value) :=
  mapM (cell r) group_attrs.

Definition date_of (r : row) : option string :=
  match cell r "DATE-OBS" with
  | Some (VStr d) => Some d
  | _ => None
  end.

(** The dates of the rows of [rs] that share the group key [k]. *)
Definition group_dates (group_attrs : list string) (rs : list row)
    (k : list value) : list string :=
  omap date_of (filter (λ r, group_key group_attrs r = Some k) rs).

(** [df.groupby(group_attrs)['DATE-OBS'].rank('dense')] at row [r]: NaN
    without a group or without a date. *)
Definition seq_rank (group_attrs : list string) (rs : list row) (r : row)
  : option nat :=
  k ← group_key group_attrs r;
  d ← date_of r;
  Some (dense_rank (group_dates group_attrs rs k) d).

(** [df._SEQ.map('{:1.0f}'.format).str.zfill(3)]. *)
Definition seqno (rank : option nat) : string :=
  zfill 3 (match rank with Some n => pretty n | None => "nan" end).

(** [attr_structure[imgtype]]: the shared prefix followed by the lists of
    the type. *)
Definition attr_structure (s : structure) (imgtype : string) : option layout :=
  l ← layouts s !! imgtype;
  Some (Layout (base_path s ++ path l) (base_name s ++ name l)).

(** [_required_attrs]. *)
Definition required_attrs (l : layout) : list string :=
  unique (path l ++ name l ++ ["DATE-OBS"; "_IMAGETYP"]).

(** [str(row[attr])]. *)
Definition namepart (r : row) (attr : string) : string :=
  let part :=
    replace "_" "-" (replace ":" "-" (replace " " "" (str_of_cell (cell r attr)))) in
  if bool_decide (attr ∈ ["_GAIN"; "_OFFSET"])
  then lower (strip_us attr) +:+ part
  else part.

(** [_get_new_name]: no name for a type whose name list is empty. *)
Definition get_new_name (name_attrs : list string) (r : row) : option value :=
  if bool_decide (name_attrs = []) then None
  else Some (VStr (join "_" (map (namepart r) (name_attrs ++ ["_SEQNO"]))
                   +:+ ".fits")).

(** [subdir] of [_get_new_path]; a cell that is neither missing nor a
    string has no [replace] and cannot be a path segment. *)
Definition subdir (label : string) (r : row) (attr : string) : error + string :=
  let key := strip_us (lower attr) in
  v ← match cell r attr with
      | None => inr ("unknown " +:+ key)
      | Some (VStr s) =>
          inr (if bool_decide (s = "nan" ∨ s = label)
               then "unknown " +:+ key else s)
      | Some _ => inl (TypeError attr)
      end;
  mret (if bool_decide (key ∈ ["binning"; "gain"; "offset"])
        then key +:+ "-" +:+ replace " " "" v
        else v).

(** [Path(a, b)]: an empty or ['.'] segment is dropped, an absolute
    segment replaces what precedes it.  (pathlib also collapses repeated
    separators inside a segment; that is not modelled.) *)
Definition path_join (a b : string) : string :=
  if bool_decide (b = "" ∨ b = ".") then a
  else if String.prefix "/" b then b
  else if bool_decide (a = "") then b
  else a +:+ "/" +:+ b.

(** [_get_new_path]: [str(Path(root_dir, Path( *segments)))]. *)
Definition get_new_path (root_dir label : string) (path_attrs : list string)
    (r : row) : error + option value :=
  segments ← map_err (subdir label r) path_attrs;
  mret (Some (VStr (fold_left path_join segments root_dir))).

(** The local frame of one image type: the required columns of its rows,
    the exposure time reprinted, the sequence number added. *)
Definition reprint_exptime (r : row) : error + row :=
  t ← astype_float (cell r "EXPTIME");
  mret (set_cell "EXPTIME"
          (Some (VStr (match t with
                       | Some q => format_g q +:+ "s"
                       | None => "nans"
                       end))) r).

Definition keep_columns (cols : list string) (r : row) : row :=
  Row (file r) (filter (λ kv, kv.1 ∈ cols) (cells r)).

Definition with_seqno (group_attrs : list string) (rs : list row) (r : row)
  : row :=
  let rank := seq_rank group_attrs rs r in
  set_cell "_SEQNO" (Some (VStr (seqno rank)))
    (set_cell "_SEQ" ((λ n, VNum (inject_Z (Z.of_nat n))) <$> rank) r).

Definition group_attrs_of (l : layout) : list string :=
  filter (λ a, a ∉ ["DATE-OBS"; "_SEQNO"]) (name l).

Definition local_frame (l : layout) (d : frame) (members : list row)
  : error + list row :=
  let base_attrs := required_attrs l in
  match missing_column base_attrs d with
  | Some c => inl (KeyError c)
  | None =>
      let rs0 := map (keep_columns base_attrs) members in
      rs1 ← (if bool_decide ("EXPTIME" ∈ base_attrs)
             then map_err reprint_exptime rs0 else inr rs0);
      mret (if bool_decide (group_attrs_of l = []) then rs1
            else map (with_seqno (group_attrs_of l) rs1) rs1)
  end.

(** [df['_newname'] = df.apply(_get_new_name, axis=1)] and
    [df['_newpath'] = df.apply(_get_new_path, axis=1)]: the staged name and
    path of every row of the local frame, keyed by file.  A non-empty name
    list reads ['_SEQNO'], which the local frame has only when there was
    something to group by. *)
Definition plan_rows (root_dir label : string) (l : layout) (rs : list row)
  : error + list (string * (option value * option value)) :=
  names ← (if bool_decide (name l ≠ [] ∧ rs ≠ [] ∧ group_attrs_of l = []
                           ∧ "_SEQNO" ∉ required_attrs l)
           then inl (KeyError "_SEQNO")
           else inr (map (get_new_name (name l)) rs));
  paths ← map_err (get_new_path root_dir label (path l)) rs;
  mret (zip (map file rs) (zip names paths)).

(** The image type of a row as a group key of [groupby('_IMAGETYP')]. *)
Definition imagetyp (r : row) : option string :=
  match cell r "_IMAGETYP" with
  | Some (VStr t) => Some t
  | _ => None
  end.

(** Staging: [self.df.loc[isin, ['_newname', '_newpath']] = df[[...]]],
    aligned on the index, and [self.df.loc[isin, ['_CHANGED']] = True]. *)
Definition stage (plan : list (string * (option value * option value)))
    (r : row) : row :=
  match List.find (λ p, bool_decide (p.1 = file r)) plan with
  | Some (_, (n, p)) =>
      set_cell "_CHANGED" (Some (VBool true))
        (set_cell "_newpath" p (set_cell "_newname" n r))
  | None => r
  end.

(** [_df.index] of one group of [self.df[self.rowmask].groupby('_IMAGETYP')]. *)
Definition group_keys (mask : list bool) (d : frame) (imgtype : string)
  : list string :=
  map file (filter (λ r, imagetyp r = Some imgtype) (select mask (rows d))).

(** One turn of the loop over the groups of image types. *)
Definition organize_group (root_dir : string) (s : structure) (label : string)
    (mask : list bool) (d : frame) (imgtype : string) : error + frame :=
  match attr_structure s imgtype with
  | None => inl (KeyError imgtype)
  | Some l =>
      let members :=
        filter (λ r, file r ∈ group_keys mask d imgtype) (rows d) in
      rs ← local_frame l d members;
      plan ← plan_rows root_dir label l rs;
      mret (Frame (add_columns ["_CHANGED"]
                     (add_columns ["_newname"; "_newpath"] (columns d)))
                  (map (stage plan) (rows d)))
  end.

(** The loop body of [organize] as a step on the running result. *)
Definition organize_step (root_dir : string) (s : structure) (label : string)
    (mask : list bool) (acc : error + frame) (imgtype : string)
  : error + frame :=
  d ← acc; organize_group root_dir s label mask d imgtype.

(** [organize]: the groups in the order of their keys.  An exception ends
    the planning (the stagings of earlier groups are not kept here). *)
Definition organize (root_dir structure_key : string) (i : Index)
  : error + Index :=
  match structures (config i) !! structure_key with
  | None => inl (KeyError structure_key)
  | Some s =>
      if bool_decide ("_IMAGETYP" ∉ columns (df i))
      then inl (KeyError "_IMAGETYP")
      else
        let groups :=
          merge_sort String.le
            (unique (omap imagetyp (select (rowmask i) (rows (df i))))) in
        d ← foldl (organize_step root_dir s (missing_label i) (rowmask i))
                  (inr (df i)) groups;
        mret (with_df d i)
  end.


(** A catalog in which light frames are named after object, filter and
    date, and dark frames are only filed by temperature (no name list). *)
Definition sample_catalog : structure :=
  Structure [] []
    {[ "light" := Layout ["OBJECT"; "FILTER"] ["OBJECT"; "FILTER"; "DATE-OBS"];
       "dark" := Layout ["_IMAGETYP"; "_CCDTEMP"] [] ]}.

Definition shot (f typ object filter date temp : string) : row :=
  Row f {[ "_IMAGETYP" := VStr typ; "OBJECT" := VStr object;
           "FILTER" := VStr filter; "DATE-OBS" := VStr date;
           "_CCDTEMP" := VStr temp;
           "_CHANGED" := VBool false ]}.

Definition night_of_m31 : Index :=
  MkIndex (MkConfig ∅ {[ "catalog" := sample_catalog ]} [])
    (Frame ["_IMAGETYP"; "OBJECT"; "FILTER"; "DATE-OBS"; "_CCDTEMP";
            "_CHANGED"; "_newname"; "_newpath"]
       [ shot "/raw/a.fits" "light" "M31" "Ha" "2022-03-01T20:00:00" "-10C";
         shot "/raw/b.fits" "light" "M31" "Ha" "2022-03-01T20:05:00" "-10C";
         shot "/raw/c.fits" "light" "M31" "Ha" "2022-03-01T20:05:00" "-10C";
         shot "/raw/d.fits" "light" "M31" "Ha" "2022-03-01T20:10:00" "-10C";
         shot "/raw/e.fits" "light" "M31" "OIII" "2022-03-01T21:00:00" "-10C";
         shot "/raw/k.fits" "dark" "" "" "2022-03-01T22:00:00" "-10C" ])
    "(Unknown)" [true; true; true; true; true; true] [] [] true.

(** The workflow cells of a row. *)
Definition staged (r : row) : option value * option value * option value :=
  (cell r "_newname", cell r "_newpath", cell r "_CHANGED").




(** Planning keeps the key and the image type of every row. *)
Definition same_keys (r r' : row) : Prop :=
  file r' = file r ∧ imagetyp r' = imagetyp r.






(** ** Sync ([sync], [_sync_row]) *)

(** The operation argument of [sync]: ['copy'], ['move'], ['symlink'], or
    anything else (the default is [True]), which touches no file. *)
Inductive operation : Type := Copy | Move | Symlink | NoOperation.

#[global] Instance operation_eq_dec : EqDecision operation.
Proof. solve_decision. Defined.

(** A FITS file on disk, reduced to what [sync] edits: the header cards as
    strings and the HISTORY lines. *)
Record fits_file : Type :=
  Fits { header : gmap string string; history : list string }.

(** The world [sync] acts on: the index, the regular files and the
    symbolic links of the file system (directories are created on demand
    and not represented), the header cache of the target directory, and
    what was printed.  [today] stands for [datetime.now().date()]. *)
Record world : Type :=
  World { idx : Index;
          disk : gmap string fits_file;
          links : gmap string string;
          cache : list (string * string * string);
          printed : list string }.

Definition with_idx (i : Index) (w : world) : world :=
  World i (disk w) (links w) (cache w) (printed w).

Definition with_disk (d : gmap string fits_file) (w : world) : world :=
  World (idx w) d (links w) (cache w) (printed w).

(** [Path.exists]. *)
Definition file_exists (w : world) (p : string) : bool :=
  bool_decide (is_Some (disk w !! p) ∨ is_Some (links w !! p)).

(** A cell read as text: paths and names are strings or missing. *)
Definition text (r : row) (col : string) : error + option string :=
  match cell r col with
  | None => inr None
  | Some (VStr s) => inr (Some s)
  | Some _ => inl (TypeError col)
  end.

(** [_move_copy_or_symlink]. *)
Definition move_copy_or_symlink (op : operation) (src dst : string) (w : world)
  : error + world :=
  match op with
  | Copy =>
      match disk w !! src with
      | Some f => inr (with_disk (<[dst := f]> (disk w)) w)
      | None => inl (FileNotFoundError src)
      end
  | Move =>
      match disk w !! src with
      | Some f => inr (with_disk (<[dst := f]> (delete src (disk w))) w)
      | None => inl (FileNotFoundError src)
      end
  | Symlink =>
      if file_exists w dst then inl (FileExistsError dst)
      else inr (World (idx w) (disk w) (<[dst := src]> (links w))
                      (cache w) (printed w))
  | NoOperation => inr w
  end.

(** [_add_oldname]. *)
Definition add_oldname (today oldname newname : string) (f : fits_file)
  : fits_file :=
  Fits (header f)
       (history f ++ ["(" +:+ today +:+ ") filename: " +:+ oldname
                          +:+ " -> " +:+ newname]).

(** [_update_header]: the mutable attributes of the row that are not
    missing; a history line for each one whose text differs from the card
    on file ([None] when there is no such card); then the cards are set. *)
Definition new_values (to_update : list string) (r : row)
  : list (string * string) :=
  omap (λ k, v ← cell r k; Some (k, str_of_cell (Some v))) to_update.

Definition update_header (today : string) (to_update : list string) (r : row)
    (f : fits_file) : fits_file :=
  let changes := new_values to_update r in
  Fits (foldl (λ h kv, <[kv.1 := kv.2]> h) (header f) changes)
       (history f ++
        omap (λ kv,
                let old := default "None" (header f !! kv.1) in
                if bool_decide (old = kv.2) then None
                else Some ("(" +:+ today +:+ ") " +:+ kv.1 +:+ ": " +:+ old
                               +:+ " -> " +:+ kv.2))
             changes).

(** [self.df.index == row.file]. *)
Definition index_is (key : string) (d : frame) : list bool :=
  map (λ r, bool_decide (file r = key)) (rows d).

(** [self.df.rename(index = {old: new}, inplace = True)]. *)
Definition rename_index (old new : string) (d : frame) : frame :=
  Frame (columns d)
        (map (λ r, if bool_decide (file r = old) then Row new (cells r) else r)
             (rows d)).

(** The message printed when the destination exists. *)
Definition destination_exists (newfile : string) : string :=
  "Error: desired filename already exists (" +:+ newfile +:+ ")".

(** [_sync_row] on a row of the snapshot [self.changed().reset_index()]. *)
Definition sync_row (today : string) (op : operation)
    (overwrite_existing save_oldname : bool) (r : row) (w : world)
  : error + world :=
  oldpath ← text r "_PATH";
  oldname ← text r "_NAME";
  staged_path ← text r "_newpath";
  staged_name ← text r "_newname";
  match oldpath, oldname with
  | Some oldpath, Some oldname =>
      let newpath := default oldpath staged_path in
      let newname := default oldname staged_name in
      let newfile := path_join newpath newname in
      let do_rename :=
        bool_decide (newpath ≠ oldpath) || bool_decide (newname ≠ oldname) in
      let changed := bool_decide (cell r "_CHANGED" = Some (VBool true)) in
      if do_rename && file_exists w newfile && negb overwrite_existing then
        inr (World (idx w) (disk w) (links w) (cache w)
               (printed w ++ [destination_exists newfile]))
      else
        w1 ← (if do_rename then
                w' ← move_copy_or_symlink op (file r) newfile w;
                mret (with_idx
                        (with_df (loc_set_scalar (index_is (file r) (df (idx w')))
                                    ["_newpath"; "_newname"] None (df (idx w')))
                                 (idx w')) w')
              else inr w);
        if bool_decide (op = Symlink) then inr w1
        else
          w2 ← (if (bool_decide (newname ≠ oldname) && save_oldname) || changed
                then
                  match disk w1 !! newfile with
                  | None => inl (FileNotFoundError newfile)
                  | Some f =>
                      let f1 := if bool_decide (newname ≠ oldname)
                                then add_oldname today oldname newname f
                                else f in
                      let f2 := if changed
                                then update_header today
                                       (mutable (config (idx w1))) r f1
                                else f1 in
                      inr (with_disk (<[newfile := f2]> (disk w1)) w1)
                  end
                else inr w1);
          let d := loc_set_scalar (index_is (file r) (df (idx w2)))
                     ["_CHANGED"] (Some (VBool false)) (df (idx w2)) in
          let d := if bool_decide (op = Move)
                   then rename_index (file r) newfile
                          (loc_set_scalar (index_is (file r) d) ["_path"]
                             (Some (VStr newpath)) d)
                   else d in
          let i := with_df d (idx w2) in
          let i := if changed && negb do_rename
                   then with_cache_valid false i else i in
          inr (with_idx i w2)
  | _, _ => inl (TypeError "_PATH")
  end.

(** The rows of the snapshot are processed in table order; an exception
    ends the run. *)
Definition sync_rows (today : string) (op : operation)
    (overwrite_existing save_oldname : bool) (snapshot : list row) (w : world)
  : error + world :=
  foldl (λ acc r, w' ← acc; sync_row today op overwrite_existing save_oldname r w')
        (inr w) snapshot.

(** [changed()]: the rows with the dirty flag. *)
Definition changed (d : frame) : list row :=
  filter (λ r, cell r "_CHANGED" = Some (VBool true)) (rows d).

(** [sync]: the changed rows, then the cache is reset when some header
    changed in place. *)
Definition sync (today : string) (op : operation)
    (overwrite_existing save_oldname : bool) (w : world) : error + world :=
  w' ← sync_rows today op overwrite_existing save_oldname
         (changed (df (idx w))) w;
  mret (if cache_valid (idx w') then w'
        else World (idx w') (disk w') (links w') [] (printed w')).


(** Two files staged for a move; the destination of the first exists. *)
Definition staged_row (f dir nm newdir newnm : string) : row :=
  Row f {[ "_PATH" := VStr dir; "_NAME" := VStr nm;
           "_newpath" := VStr newdir; "_newname" := VStr newnm;
           "_CHANGED" := VBool true; "OBJECT" := VStr "M31" ]}.

Definition m31_cards : fits_file := Fits {[ "OBJECT" := "M 31" ]} [].

Definition two_staged : world :=
  World
    (MkIndex (MkConfig ∅ ∅ ["OBJECT"])
       (Frame ["OBJECT"; "_PATH"; "_NAME"; "_newpath"; "_newname"; "_CHANGED"]
          [ staged_row "/raw/a.fits" "/raw" "a.fits" "/sorted/M31" "m31_001.fits";
            staged_row "/raw/b.fits" "/raw" "b.fits" "/sorted/M31" "m31_002.fits" ])
       "(Unknown)" [true; true] [] [] true)
    {[ "/raw/a.fits" := m31_cards; "/raw/b.fits" := m31_cards;
       "/sorted/M31/m31_001.fits" := m31_cards ]}
    ∅ [] [].

(** What a caller sees of a row after sync. *)
Definition row_view (r : row)
  : string * (option value * option value * option value * option value
              * option value) :=
  (file r, (cell r "_PATH", cell r "_path", cell r "_newpath",
            cell r "_newname", cell r "_CHANGED")).


(** What a committed move leaves on the row it moved, seen from the row
    [x] as it was: the key is the destination, ['_PATH'] is untouched, the
    directory went into ['_path'], the staging is cleared, the row is
    clean. *)
Definition moved_to (newpath newfile : string) (x x' : row) : Prop :=
  file x' = newfile
  ∧ cell x' "_PATH" = cell x "_PATH"
  ∧ cell x' "_path" = Some (VStr newpath)
  ∧ cell x' "_newpath" = None
  ∧ cell x' "_newname" = None
  ∧ cell x' "_CHANGED" = Some (VBool false).


(** A committed move on the row it moves: the staging is cleared, the
    flag is reset, the new directory is stored under ['_path'], the key
    becomes the destination. *)
Definition commit_move (newpath newfile : string) (x : row) : row :=
  Row newfile
      (cells (set_cells ["_path"] (λ _, Some (VStr newpath))
                (set_cells ["_CHANGED"] (λ _, Some (VBool false))
                   (set_cells ["_newpath"; "_newname"] (λ _, None) x)))).


(** ** Exact against fuzzy resolution *)

(** The tolerant attributes hold whole numbers in every row. *)
Definition whole_numbers (d : frame) : Prop :=
  ∀ r, r ∈ rows d →
    ∃ n m, astype_float (cell r "EXPTIME") = inr (Some (inject_Z n))
           ∧ astype_float (cell r "CCD-TEMP") = inr (Some (inject_Z m)).

(** The table is as the constructor builds it: ['_CCDTEMP'] is the label
    derived from ['CCD-TEMP']. *)
Definition ccdtemp_derived (d : frame) : Prop :=
  ∀ r, r ∈ rows d →
    ∃ s, ccdtemp_of (cell r "CCD-TEMP") = inr s
         ∧ cell r "_CCDTEMP" = Some (VStr s).

(** No CCD temperature is one degree away from a normal setpoint (where
    the derived label moves onto the setpoint), and all are below a million
    in size (where the label has all their digits). *)
Definition off_setpoints (d : frame) : Prop :=
  ∀ r m, r ∈ rows d →
    astype_float (cell r "CCD-TEMP") = inr (Some (inject_Z m)) →
    ((m + 1) ∉ normal_temps) ∧ ((m - 1) ∉ normal_temps)
    ∧ (-1000000 < m < 1000000).

(** Equal exposure times are written with the same header string. *)
Definition exptime_written_once (d : frame) : Prop :=
  ∀ r1 r2, r1 ∈ rows d → r2 ∈ rows d →
    astype_float (cell r1 "EXPTIME") = astype_float (cell r2 "EXPTIME") →
    cell r1 "EXPTIME" = cell r2 "EXPTIME".

(** Exact resolution and fuzzy resolution at tolerance 0 give every masked
    target frame, through its combination of match attributes, the same
    status. *)
Definition same_classification (i : Index) (c_type : string) (c_data : calib)
  : Prop :=
  ∀ res res2,
    calibration_frames c_type i = inr res →
    calibration_frames2 c_type 0 0 i = inr res2 →
    ∀ r r2 st,
      r ∈ select (rowmask i) (rows (df i)) →
      type_in (targets c_data) r = true →
      rounded_row 0 0 r = inr r2 →
      (project (attrs c_data) r, st) ∈ statuses res
      ↔ (project (attrs c_data) r2, st) ∈ statuses res2.


(** Executable forms of the four conditions, to check them on a given
    table by evaluation. *)
Definition whole_of (c : option value) : option Z :=
  match astype_float c with
  | inr (Some q) =>
      if bool_decide (q = inject_Z (Qnum q)) then Some (Qnum q) else None
  | _ => None
  end.

Definition check_whole_numbers (d : frame) : bool :=
  forallb (λ r, bool_decide (is_Some (whole_of (cell r "EXPTIME"))
                             ∧ is_Some (whole_of (cell r "CCD-TEMP"))))
          (rows d).

Definition check_ccdtemp_derived (d : frame) : bool :=
  forallb (λ r, match ccdtemp_of (cell r "CCD-TEMP") with
                | inr s => bool_decide (cell r "_CCDTEMP" = Some (VStr s))
                | inl _ => false
                end) (rows d).

Definition check_off_setpoints (d : frame) : bool :=
  forallb (λ r, match astype_float (cell r "CCD-TEMP") with
                | inr (Some q) =>
                    bool_decide (((Qnum q + 1) ∉ normal_temps)
                                 ∧ ((Qnum q - 1) ∉ normal_temps)
                                 ∧ (-1000000 < Qnum q < 1000000))
                | _ => true
                end) (rows d).

Definition check_exptime_written_once (d : frame) : bool :=
  forallb (λ r1,
    forallb (λ r2,
      bool_decide (astype_float (cell r1 "EXPTIME")
                   = astype_float (cell r2 "EXPTIME") →
                   cell r1 "EXPTIME" = cell r2 "EXPTIME"))
      (rows d)) (rows d).

(** ** Header triples to table ([headers_to_df]) *)

(** One header card as the scanner and the cache hold it: file, keyword,
    value, all strings. *)
Definition card : Type := string * string * string.

Definition card_file (h : card) : string := h.1.1.
Definition card_attr (h : card) : string := h.1.2.
Definition card_value (h : card) : string := h.2.

(** The keywords left out of the table. *)
Definition free_text_attrs : list string := ["COMMENT"; "HISTORY"; "NOTE"].

(** The row [pivot] builds for the file [f]: one cell per card of the file. *)
Definition pivot_row (kept : list card) (f : string) : row :=
  Row f (list_to_map
           (omap (λ h, if bool_decide (card_file h = f)
                       then Some (card_attr h, VStr (card_value h))
                       else None) kept)).

(** [[
    df = pd.DataFrame(headers, columns = ['file', 'attr', 'value'])
    df = df[~df.attr.isin(['COMMENT','HISTORY','NOTE'])]
    df = df.pivot(index='file', columns='attr', values = 'value').reset_index()
    ]]
    [pivot] refuses two cards with the same file and keyword; its result
    has the files and the keywords in sorted order.  The ['file'] column
    that [reset_index] restores is the key of the row.  (With no card left
    the result is taken to be the empty table.) *)
Definition headers_to_df (headers : list card) : error + frame :=
  let kept := filter (λ h, card_attr h ∉ free_text_attrs) headers in
  if bool_decide (NoDup (map fst kept))
  then inr (Frame (merge_sort String.le (unique (map card_attr kept)))
                  (map (pivot_row kept)
                       (merge_sort String.le (unique (map card_file kept)))))
  else inl (ValueError "Index contains duplicate entries, cannot reshape").

(** ** Attribute selection ([selected_attrs], [all_attrs]) *)

Inductive attrs_warning : Type :=
| AttrsSkipped (skipped : list string)
| NoAttrsSelected.

Definition with_selected_attrs (a : list string) (i : Index) : Index :=
  MkIndex (config i) (df i) (missing_label i) (rowmask i) a
          (prev_rowmasks i) (cache_valid i).

(** The [selected_attrs] setter: the requested attributes without
    repetition ([dict.fromkeys] keeps first occurrences) that are columns of
    the table; a warning when some were dropped, another when none is left. *)
Definition set_selected_attrs (new_attrs : list string) (i : Index)
  : Index * list attrs_warning :=
  let selected := filter (λ a, a ∈ columns (df i)) (unique new_attrs) in
  (with_selected_attrs selected i,
   (if bool_decide (length selected < length (unique new_attrs))%nat
    then [AttrsSkipped (filter (λ a, a ∉ selected) new_attrs)] else [])
   ++ (if bool_decide (length selected = 0%nat) then [NoAttrsSelected] else [])).

(** [all_attrs]: the defaults that are columns, in the order given, then
    the other columns in sorted order. *)
Definition all_attrs (defaults : list string) (i : Index) : list string :=
  let all := merge_sort String.le (columns (df i)) in
  let present := filter (λ a, a ∈ all) defaults in
  present ++ filter (λ a, a ∉ present) all.

(** ** The stack of earlier row masks *)

Definition with_prev_rowmasks (p : list (list bool)) (i : Index) : Index :=
  MkIndex (config i) (df i) (missing_label i) (rowmask i) (selected_attrs i)
          p (cache_valid i).

(** [stash_rowmask]: the current mask is appended to the stack. *)
Definition stash_rowmask (i : Index) : Index :=
  with_prev_rowmasks (prev_rowmasks i ++ [rowmask i]) i.

(** [iuse_prev_rowmask] with the answer to its question: the last stashed
    mask is read first ([None] stands for the IndexError on an empty
    stack); on a yes it is popped and installed, without the check of the
    setter. *)
Definition iuse_prev_rowmask (confirm : bool) (i : Index) : option Index :=
  m ← last (prev_rowmasks i);
  Some (if confirm
        then with_rowmask m
               (with_prev_rowmasks (removelast (prev_rowmasks i)) i)
        else i).

(** Every mask the index holds has one entry per row. *)
Definition masks_fit (i : Index) : Prop :=
  length (rowmask i) = length (rows (df i))
  ∧ Forall (λ m, length m = length (rows (df i))) (prev_rowmasks i).

(** ** Selection ([selection] and its setter, the refinement step of
    [iselect_values]) *)

(** [self.df.loc[self._rowmask, self._selected_attrs]]. *)
Definition selection (i : Index) : frame :=
  loc_get (rowmask i) (selected_attrs i) (df i).

(** [self.df.index.isin(keys)]. *)
Definition isin (keys : list string) (d : frame) : list bool :=
  map (λ r, bool_decide (file r ∈ keys)) (rows d).

(** The [selection] setter: the mask of the rows whose key is in the new
    selection goes through the mask setter, its columns through the
    attribute setter. *)
Definition set_selection (new_selection : frame) (i : Index)
  : error + (Index * (list warning * list attrs_warning)) :=
  '(i1, w1) ← set_rowmask (isin (map file (rows new_selection)) (df i)) i;
  let '(i2, w2) := set_selected_attrs (columns new_selection) i1 in
  mret (i2, (w1, w2)).

(** [[
    value_mask = [value in selected_values for value in self.selection[attr]]
    if self._missing_label in selected_values:
        value_mask = value_mask | self.selection[attr].isna()
    ]]
    on one row: a missing cell is in no list of values. *)
Definition value_mask (attr : string) (selected_values : list value)
    (label : string) (r : row) : bool :=
  let listed := match cell r attr with
                | Some v => bool_decide (v ∈ selected_values)
                | None => false
                end in
  if bool_decide (VStr label ∈ selected_values)
  then listed || isna (cell r attr)
  else listed.

(** One turn of the loop of [iselect_values], with the values the user
    ticked: [self.selection = self.selection[value_mask]].

    [value in selected_values] compares the cell with the listed values one
    after the other.  NaN and None are unequal to every value; pd.NA, the
    missing marker of the columns that [__init__] fills with pd.NA or
    turns into pandas strings (['_newname'], ['_newpath'], ['_NIGHT']),
    compares to pd.NA, whose truth value raises TypeError.  The table has
    one missing cell for the three, so [pd_na] says for which files the
    missing cell of the attribute is pd.NA. *)
Definition refine_selection (pd_na : string → bool) (attr : string)
    (selected_values : list value) (i : Index)
  : error + (Index * (list warning * list attrs_warning)) :=
  let sel := selection i in
  if bool_decide (attr ∉ columns sel) then inl (KeyError attr)
  else if bool_decide
            (selected_values ≠ []
             ∧ Exists (λ r, cell r attr = None ∧ pd_na (file r) = true)
                      (rows sel))
  then inl (TypeError "boolean value of NA is ambiguous")
  else
    let mask := map (value_mask attr selected_values (missing_label i))
                    (rows sel) in
    set_selection (Frame (columns sel) (select mask (rows sel))) i.

(** ** Dirty flags and attribute edits ([_update_changed_vec],
    [_change_attr]) *)

(** The ['_CHANGED'] cell read as a truth value. *)
Definition dirty (r : row) : bool :=
  bool_decide (cell r "_CHANGED" = Some (VBool true)).

(** [_update_changed_vec]: a mask is checked for its length, a list of
    files is turned into a mask, one of them is required; the flags are
    or-ed with the mask. *)
Definition update_changed_vec (mask : option (list bool))
    (files : option (list string)) (d : frame) : error + frame :=
  m ← match mask, files with
      | Some m, _ =>
          if bool_decide (length m = length (rows d)) then inr m
          else inl AssertionError
      | None, Some fs => inr (isin fs d)
      | None, None =>
          inl (ValueError "At least one of mask or files needs to be specified")
      end;
  if bool_decide ("_CHANGED" ∉ columns d) then inl (KeyError "_CHANGED")
  else inr (assign_list "_CHANGED"
              (zip_with (λ b r, Some (VBool (b || dirty r))) m (rows d)) d).

(** [self.df[attr] != value] on one cell of a column of Python objects, as
    pivot builds them: a missing cell differs from every value, and every
    cell differs from pd.NA. *)
Definition differs (c : option value) (v : option value) : bool :=
  match v with
  | None => true
  | Some _ => bool_decide (c ≠ v)
  end.

(** [_change_attr].  The row mask has one entry per row (the setter
    asserts it); with another length pandas raises in the comparison or in
    the indexing, which is one error here. *)
Definition change_attr (attr : string) (v : option value) (i : Index)
  : error + Index :=
  if bool_decide (length (rowmask i) ≠ length (rows (df i)))
  then inl (ValueError "Lengths must match")
  else
    let '(d0, changed_values) :=
      if bool_decide (attr ∈ columns (df i))
      then (df i,
            zip_with (λ r b, differs (cell r attr) v && b)
                     (rows (df i)) (rowmask i))
      else (assign attr (λ _, None) (df i), rowmask i) in
    let d1 := loc_set_scalar (rowmask i) [attr] v d0 in
    d2 ← update_changed_vec (Some changed_values) None d1;
    let i2 := with_df d2 i in
    mret (if bool_decide (attr ∉ selected_attrs i2)
          then (set_selected_attrs (selected_attrs i2 ++ [attr]) i2).1
          else i2).

(** What [_change_attr] does to the row [r] with mask bit [b]; [incol]
    says whether the attribute was a column. *)
Definition change_row (attr : string) (v : option value) (incol b : bool)
    (r : row) : row :=
  let r0 := if incol then r else set_cell attr None r in
  let r1 := if b then set_cell attr v r0 else r0 in
  let flag := if incol then differs (cell r attr) v && b else b in
  set_cell "_CHANGED" (Some (VBool (flag || dirty r1))) r1.

(** ** What one row of [sync] does, step by step *)

(** The destination of a row and whether it differs from where the file is:
    [newpath], [newname], [newfile] and [do_rename] of [_sync_row]. *)
Record target : Type :=
  Target { oldpath : string; oldname : string;
           newpath : string; newname : string }.

Definition newfile (t : target) : string := path_join (newpath t) (newname t).

Definition do_rename (t : target) : bool :=
  bool_decide (newpath t ≠ oldpath t) || bool_decide (newname t ≠ oldname t).

Definition target_of (r : row) : option target :=
  match text r "_PATH", text r "_NAME", text r "_newpath", text r "_newname"
  with
  | inr (Some oldpath), inr (Some oldname), inr staged_path, inr staged_name =>
      Some (Target oldpath oldname (default oldpath staged_path)
                   (default oldname staged_name))
  | _, _, _, _ => None
  end.

(** The header edit of [_sync_row] on the file at the destination. *)
Definition edit_fits (today : string) (to_update : list string) (r : row)
    (t : target) (f : fits_file) : fits_file :=
  let f1 := if bool_decide (newname t ≠ oldname t)
            then add_oldname today (oldname t) (newname t) f else f in
  if dirty r then update_header today to_update r f1 else f1.

(** The index after a row was committed. *)
Definition commit_index (op : operation) (r : row) (t : target) (i : Index)
  : Index :=
  let d := loc_set_scalar (index_is (file r) (df i))
             ["_CHANGED"] (Some (VBool false)) (df i) in
  let d := if bool_decide (op = Move)
           then rename_index (file r) (newfile t)
                  (loc_set_scalar (index_is (file r) d) ["_path"]
                     (Some (VStr (newpath t))) d)
           else d in
  let i' := with_df d i in
  if dirty r && negb (do_rename t) then with_cache_valid false i' else i'.

(** The index after the staging of a row was cleared. *)
Definition clear_staging (r : row) (i : Index) : Index :=
  with_df (loc_set_scalar (index_is (file r) (df i))
             ["_newpath"; "_newname"] None (df i)) i.

(** The path a dirty row is edited at when nothing is staged for it. *)
Definition edits_in_place (r : row) : option string :=
  t ← target_of r;
  if do_rename t then None else Some (newfile t).

(** What committing does to an index row under the key of the synced row:
    the flag is reset, and on a move the directory goes into ['_path'] and
    the key becomes the destination. *)
Definition commit_row (op : operation) (t : target) (x : row) : row :=
  let x1 := set_cells ["_CHANGED"] (λ _, Some (VBool false)) x in
  if bool_decide (op = Move)
  then Row (newfile t)
           (cells (set_cells ["_path"] (λ _, Some (VStr (newpath t))) x1))
  else x1.

(** ** Calibration frames into the selection ([ifind_calibration_frames]) *)





(** ** The header cache and the start of the program (cache.py, [run_app]) *)

(** The two tables of the cache file. *)
Record cache_db : Type :=
  CacheDb { headers_tbl : list card; skipped_tbl : list string }.

(** [Cache.get], [Cache.set] and [Cache.reset]; [set] drops and recreates
    the tables before it inserts.  (The rows of [skipped] are one-element
    tuples, which [run_app] unpacks.) *)
Definition cache_get (c : cache_db) : list card * list string :=
  (headers_tbl c, skipped_tbl c).

Definition cache_reset (c : cache_db) : cache_db := CacheDb [] [].

Definition cache_set (headers : list card) (skipped : list string)
    (c : cache_db) : cache_db :=
  let c0 := cache_reset c in
  CacheDb (headers_tbl c0 ++ headers) (skipped_tbl c0 ++ skipped).

(** [Cache(target_dir, reset = ...)]. *)
Definition cache_open (reset : bool) (c : cache_db) : cache_db :=
  if reset then cache_reset c else c.

(** [parse_fits_headers]: [getheader f] stands for [fits.getheader(f)] and
    is [None] when it raises OSError. *)
Definition parse_fits_headers (getheader : string → option (list (string * string)))
    (files : list string) : list card * list string :=
  (flat_map (λ f, match getheader f with
                  | Some cards => map (λ kv, (f, kv.1, kv.2)) cards
                  | None => []
                  end) files,
   filter (λ f, getheader f = None) files).

(** The header loading of [run_app]: the cache is used when every file
    found is in one of its tables, otherwise all files are read and the
    cache is rewritten.  The result is the header list and the cache
    file. *)
Definition load_headers (reset_cache : bool)
    (getheader : string → option (list (string * string)))
    (files : list string) (c : cache_db) : list card * cache_db :=
  let cache := cache_open reset_cache c in
  let '(_headers, _skipped) := cache_get cache in
  let cached_files := map card_file _headers ++ _skipped in
  let files_not_in_cache := filter (λ f, f ∉ cached_files) files in
  if bool_decide (length files_not_in_cache = 0%nat)
  then (filter (λ h, card_file h ∈ files) _headers, cache)
  else
    let '(headers, skipped) := parse_fits_headers getheader files in
    (headers, cache_set headers skipped cache).

(** ** Configuration merge (config.py, [_update]) *)

(** A YAML value as the loader builds it: a scalar, a sequence of
    scalars, or a mapping with string keys, in insertion order. *)
#[warnings="-register-all"] Inductive yaml : Type :=
| YScalar (s : string)
| YSeq (l : list string)
| YMap (m : list (string * yaml)).

Definition is_mapping (v : yaml) : bool :=
  match v with YMap _ => true | _ => false end.

(** [d.get(k)] and [d[k] = v] on a dict: an existing key keeps its place,
    a new key goes to the end. *)
Fixpoint dict_get (k : string) (m : list (string * yaml)) : option yaml :=
  match m with
  | [] => None
  | (k', v) :: m' => if decide (k' = k) then Some v else dict_get k m'
  end.

Fixpoint dict_set (k : string) (v : yaml) (m : list (string * yaml))
  : list (string * yaml) :=
  match m with
  | [] => [(k, v)]
  | (k', v') :: m' =>
      if decide (k' = k) then (k, v) :: m' else (k', v') :: dict_set k v m'
  end.

(** [[
    def _update(target, source):
        for k, v in source.items():
            if isinstance(v, collections.abc.Mapping):
                target[k] = _update(target.get(k, {}), v)
            else:
                target[k] = v
        return target
    ]]
    A target that is not a dict has neither [get] nor item assignment. *)
Fixpoint update (target : yaml) (source : yaml) {struct source}
  : error + yaml :=
  match source with
  | YMap items =>
      (fix loop (target : yaml) (items : list (string * yaml))
         : error + yaml :=
         match items with
         | [] => inr target
         | (k, v) :: rest =>
             match target with
             | YMap tm =>
                 if is_mapping v then
                   match update (default (YMap []) (dict_get k tm)) v with
                   | inr sub => loop (YMap (dict_set k sub tm)) rest
                   | inl e => inl e
                   end
                 else loop (YMap (dict_set k v tm)) rest
             | _ =>
                 inl (if is_mapping v then AttributeError "get"
                      else TypeError "item assignment")
             end
         end) target items
  | _ => inl (AttributeError "items")
  end.

(** [get_config] on the parsed user file and the packaged defaults. *)
Definition get_config (user_config default_config : yaml) : error + yaml :=
  update user_config default_config.

(** The value at a path of keys. *)
Fixpoint path_get (path : list string) (v : yaml) : option yaml :=
  match path with
  | [] => Some v
  | k :: path' =>
      match v with
      | YMap m => v' ← dict_get k m; path_get path' v'
      | _ => None
      end
  end.

(** A value whose dicts have no key twice. *)
Fixpoint well_formed (v : yaml) : bool :=
  match v with
  | YMap m =>
      bool_decide (NoDup (map fst m))
      && forallb (λ kv, well_formed kv.2) m
  | _ => true
  end.

(** The loop of [_update] over the items of the source, as a function of
    its own. *)
Fixpoint update_loop (target : yaml) (items : list (string * yaml))
  : error + yaml :=
  match items with
  | [] => inr target
  | (k, v) :: rest =>
      match target with
      | YMap tm =>
          if is_mapping v then
            match update (default (YMap []) (dict_get k tm)) v with
            | inr sub => update_loop (YMap (dict_set k sub tm)) rest
            | inl e => inl e
            end
          else update_loop (YMap (dict_set k v tm)) rest
      | _ =>
          inl (if is_mapping v then AttributeError "get"
               else TypeError "item assignment")
      end
  end.

(** A path that the source does not reach: at some dict on the way the
    source has no such key. *)
Fixpoint leaves (path : list string) (source : yaml) : bool :=
  match path with
  | [] => false
  | k :: path' =>
      match source with
      | YMap sm =>
          match dict_get k sm with
          | None => true
          | Some v => is_mapping v && leaves path' v
          end
      | _ => false
      end
  end.

(** The characters of a string. *)
Definition chars (s : string) : list ascii := list_ascii_of_string s.

(** A part of a planned file name holds no blank, no colon and no
    underscore. *)
Definition plain_part (p : string) : Prop :=
  (" "%char ∉ chars p) ∧ (":"%char ∉ chars p) ∧ ("_"%char ∉ chars p).

(** ** Moving a subtree ([change_subtree]) *)

(** [s.split('/')]. *)
Fixpoint split_slash (s : string) : list string :=
  match s with
  | EmptyString => [EmptyString]
  | String c s' =>
      if bool_decide (c = "/"%char) then EmptyString :: split_slash s'
      else match split_slash s' with
           | [] => [String c EmptyString]
           | p :: ps => String c p :: ps
           end
  end.

(** The parts of a POSIX path after the root: empty and ['.'] components
    are dropped by pathlib, ['..'] is kept.  (A path that starts with
    exactly two slashes has a root of its own in pathlib; such paths do not
    come out of a resolved directory.) *)
Definition path_parts (s : string) : list string :=
  filter (λ p, p ≠ "" ∧ p ≠ ".") (split_slash s).

Definition is_absolute (s : string) : bool := String.prefix "/" s.

(** [str] of a path given by its root and parts. *)
Definition path_str (absolute : bool) (parts : list string) : string :=
  if absolute then "/" +:+ join "/" parts
  else if bool_decide (parts = []) then "." else join "/" parts.

(** [l] without the prefix [p], when it has it. *)
Fixpoint strip_prefix (p l : list string) : option (list string) :=
  match p, l with
  | [], _ => Some l
  | x :: p', y :: l' => if bool_decide (x = y) then strip_prefix p' l' else None
  | _ :: _, [] => None
  end.

(** [Path(file).relative_to(root)]: [None] is the ValueError. *)
Definition relative_to (file root : string) : option (list string) :=
  if bool_decide (is_absolute file = is_absolute root)
  then strip_prefix (path_parts root) (path_parts file)
  else None.

(** [_new_subtree]: the directory of the file below the root, re-rooted
    at the destination; pd.NA for a file that is not below the root. *)
Definition new_subtree (destination root_dir file : string) : option value :=
  rel ← relative_to file root_dir;
  Some (VStr (path_str (is_absolute destination)
                (path_parts destination ++ removelast rel))).

(** The [df] setter, [newdf.reset_index().set_index(self._index)], on a
    frame that came out of [reset_index] and so has a range index:
    [reset_index] turns that index into a column, named ['index'], or
    ['level_0'] when there is an ['index'] column already, and refuses to
    insert a column that exists. *)
Definition index_column (cols : list string) : string :=
  if bool_decide ("index" ∈ cols) then "level_0" else "index".

Definition set_df (newdf : frame) : error + frame :=
  let name := index_column (columns newdf) in
  if bool_decide (name ∈ columns newdf)
  then inl (ValueError ("cannot insert " +:+ name +:+ ", already exists"))
  else inr (Frame (name :: columns newdf)
                  (imap (λ k r, set_cell name
                                  (Some (VNum (inject_Z (Z.of_nat k)))) r)
                        (rows newdf))).

(** [change_subtree]; [root_dir] is [self._root_dir]. *)
Definition change_subtree (destination root_dir : string) (i : Index)
  : error + Index :=
  let d1 :=
    Frame (add_columns ["_newpath"] (columns (df i)))
          (map_mask (λ r, set_cell "_newpath"
                            (new_subtree destination root_dir (file r)) r)
                    (rowmask i) (rows (df i))) in
  let d2 := loc_set_scalar (rowmask i) ["_CHANGED"] (Some (VBool true)) d1 in
  d3 ← set_df d2;
  mret (with_df d3 i).

(** * Verified properties *)

(** Membership of a literal in a literal list, and inclusion of one literal
    list in another. *)
Ltac in_list :=
  lazymatch goal with
  | |- _ ∈ _ :: _ => first [apply list_elem_of_here | apply list_elem_of_further; in_list]
  end.

Ltac sub_list :=
  let a := fresh "a" in
  let Ha := fresh "Ha" in
  intros a Ha; simpl in Ha;
  repeat (apply elem_of_cons in Ha as [Ha | Ha]; [subst a; simpl; in_list|]);
  by apply not_elem_of_nil in Ha.

(** ** Lists: [map], [select], [unique] *)

Lemma elem_of_map {A B : Type} (f : A → B) (l : list A) (y : B) :
  y ∈ map f l ↔ ∃ x, y = f x ∧ x ∈ l.
Proof. apply (list_elem_of_fmap f l y). Qed.

Lemma elem_of_unique {A : Type} `{EqDecision A} (x : A) (l : list A) :
  x ∈ unique l ↔ x ∈ l.
Proof.
  induction l as [|y l IH]; simpl; [done|].
  rewrite !elem_of_cons, list_elem_of_filter, IH.
  destruct (decide (x = y)); tauto.
Qed.

Lemma NoDup_unique {A : Type} `{EqDecision A} (l : list A) : NoDup (unique l).
Proof.
  induction l as [|y l IH]; simpl; constructor.
  - rewrite list_elem_of_filter. tauto.
  - by apply NoDup_filter.
Qed.

(** ** Calibration frames *)

Section Merge.
Variables (c_attrs : list string) (calib_files : list row).

Lemma block_statuses t c st :
  (c, st) ∈ statuses (merge_block c_attrs calib_files t) ↔
  c = t ∧ (if bool_decide (t ∈ map (project c_attrs) calib_files)
           then st = Available else st = Missing).
Proof.
  unfold merge_block.
  destruct (filter _ calib_files) as [|m ms] eqn:Hf.
  - rewrite bool_decide_eq_false_2.
    + unfold statuses; simpl. rewrite list_elem_of_singleton.
      split; [intros [= -> ->]; done | intros [-> ->]; done].
    + rewrite elem_of_map. intros (x & Hx & Hin).
      assert (x ∈ filter (λ c, project c_attrs c = t) calib_files) as Hm
        by (apply list_elem_of_filter; done).
      rewrite Hf in Hm. by apply not_elem_of_nil in Hm.
  - assert (∀ x, x ∈ m :: ms → project c_attrs x = t ∧ x ∈ calib_files) as Hall.
    { intros x Hx. rewrite <- Hf in Hx. by apply list_elem_of_filter in Hx. }
    rewrite bool_decide_eq_true_2.
    + unfold statuses. rewrite elem_of_map. setoid_rewrite elem_of_map.
      split.
      * intros (r & [= -> ->] & (x & -> & _)). done.
      * intros [-> ->]. exists (CalibRow t (Some (file m)) Available).
        split; [done|]. exists m. split; [done | left].
    + rewrite elem_of_map. exists m.
      destruct (Hall m) as [Hp Hin]; [left|]. done.
Qed.

Lemma elem_of_merge_left (ts : list (list (option value))) c st :
  (c, st) ∈ statuses (merge_left c_attrs ts calib_files) ↔
  c ∈ ts ∧ (if bool_decide (c ∈ map (project c_attrs) calib_files)
            then st = Available else st = Missing).
Proof.
  induction ts as [|t ts IH].
  - simpl. split; [intros H | intros [H _]]; by apply not_elem_of_nil in H.
  - unfold merge_left; simpl. fold (merge_left c_attrs ts calib_files).
    unfold statuses at 1. rewrite map_app.
    fold (statuses (merge_block c_attrs calib_files t)).
    fold (statuses (merge_left c_attrs ts calib_files)).
    rewrite elem_of_app, block_statuses, IH, elem_of_cons.
    split.
    + intros [[-> H] | [H1 H2]]; auto.
    + intros [[-> | H1] H2]; auto.
Qed.
End Merge.

Lemma missing_column_None cols d :
  missing_column cols d = None ↔ ∀ c, c ∈ cols → c ∈ columns d.
Proof.
  unfold missing_column. induction cols as [|a cols IH]; simpl.
  - split; [intros _ c Hc; by apply not_elem_of_nil in Hc | done].
  - case_bool_decide as Ha.
    + split; [done|]. intros Hall. destruct Ha. apply Hall. left.
    + rewrite IH. split.
      * intros Hall c [Heq|Hc]%elem_of_cons; [|by apply Hall].
        subst c. by destruct (decide (a ∈ columns d)).
      * intros Hall c Hc. apply Hall. by right.
Qed.

(** Membership in the result of the join, for both resolutions. *)
Lemma resolve_statuses c_type c_data mask d res c st :
  resolve c_type c_data mask d = inr res →
  (c, st) ∈ statuses res ↔
  complete c = true
  ∧ c ∈ map (project (attrs c_data))
        (filter (λ r, type_in (targets c_data) r) (select mask (rows d)))
  ∧ (if bool_decide (c ∈ map (project (attrs c_data))
                       (filter (λ r, has_type c_type r) (rows d)))
     then st = Available else st = Missing).
Proof.
  unfold resolve. case_bool_decide; [done|].
  destruct (missing_column _ _); [done|].
  case_bool_decide; [done|]. intros [= <-].
  rewrite elem_of_merge_left, list_elem_of_filter, elem_of_unique.
  destruct (complete c); simpl; intuition (try done).
Qed.

Lemma resolve_succeeds c_type c_data mask d :
  "_IMAGETYP" ∈ columns d →
  (∀ a, a ∈ attrs c_data → a ∈ columns d) →
  attrs c_data ≠ [] →
  ∃ res, resolve c_type c_data mask d = inr res.
Proof.
  intros Hty Hcols Hne. unfold resolve.
  rewrite bool_decide_eq_false_2 by (intros Hn; by apply Hn).
  apply missing_column_None in Hcols. rewrite Hcols.
  rewrite bool_decide_eq_false_2 by done. eauto.
Qed.

(** C1 (as the code has it).  Exact resolution, on a table that has the
    columns of the requirement, returns a result in which every distinct
    combination of the match attributes WITHOUT A MISSING VALUE is
    classified: found among the masked targets and among the candidates
    (every row of the calibration type, masked or not), it is Available and
    nothing else; found among the targets only, it is Missing and nothing
    else; a combination that no masked target has does not appear; neither
    does a target combination with a missing value, which [dropna] removes
    before the join.  On the table of one light frame at ("0C","1x1"), one
    dark at ("0C","1x1") and one dark at ("-10C","2x2") the result is the
    single Available row for ("0C","1x1"), which points at the first dark. *)
Theorem calibration_frames_classification
    (i : Index) (c_type : string) (c_data : calib)
    (Hcfg : calibration (config i) !! normalize_type c_type = Some c_data)
    (Hty : "_IMAGETYP" ∈ columns (df i))
    (Hcols : ∀ a, a ∈ attrs c_data → a ∈ columns (df i))
    (Hne : attrs c_data ≠ []) :
  (∃ res, calibration_frames c_type i = inr res
          ∧ classified_complete (target_combos c_data i)
              (candidate_combos c_type c_data i) res)
  ∧ calibration_frames "dark" light_and_darks
    = inr [CalibRow [Some (VStr "0C"); Some (VStr "1x1")]
             (Some "dark1.fits") Available].
Proof.
  split; [|by vm_compute].
  unfold calibration_frames. rewrite Hcfg.
  destruct (resolve_succeeds (normalize_type c_type) c_data (rowmask i) (df i))
    as [res Hres]; [done..|].
  exists res. split; [done|].
  pose proof (λ c st, resolve_statuses _ _ _ _ _ c st Hres) as Hst.
  unfold target_combos, candidate_combos. intros c.
  repeat split.
  - apply Hst. rewrite bool_decide_eq_true_2 by done. done.
  - intros st' [_ [_ Hs]]%Hst. by rewrite bool_decide_eq_true_2 in Hs.
  - apply Hst. rewrite bool_decide_eq_false_2 by done. done.
  - intros st' [_ [_ Hs]]%Hst. by rewrite bool_decide_eq_false_2 in Hs.
  - intros [Hc | Hc] st [Hcomp [HT _]]%Hst; [congruence | done].
Qed.

Lemma calibration_frames_classification_witness :
  (∃ res, calibration_frames "Dark Frame" light_and_darks = inr res
          ∧ classified_complete
              (target_combos (Calib ["_CCDTEMP"; "_BINNING"] ["light"])
                 light_and_darks)
              (candidate_combos "Dark Frame"
                 (Calib ["_CCDTEMP"; "_BINNING"] ["light"]) light_and_darks)
              res)
  ∧ calibration_frames "dark" light_and_darks
    = inr [CalibRow [Some (VStr "0C"); Some (VStr "1x1")]
             (Some "dark1.fits") Available].
Proof.
  apply (calibration_frames_classification light_and_darks "Dark Frame"
           (Calib ["_CCDTEMP"; "_BINNING"] ["light"])).
  - reflexivity.
  - simpl. in_list.
  - sub_list.
  - discriminate.
Defined.

(** C1 as the specification states it fails on a target whose match
    attribute is missing: the combination occurs among the targets only,
    yet the result has no Missing row for it. *)
Lemma calibration_frames_drops_incomplete_target :
  ¬ (∀ res, calibration_frames "dark" light_without_exptime = inr res →
            classified
              (target_combos (Calib ["EXPTIME"] ["light"]) light_without_exptime)
              (candidate_combos "dark" (Calib ["EXPTIME"] ["light"])
                 light_without_exptime)
              res).
Proof.
  intros Hall.
  destruct (Hall [] eq_refl [None]) as (_ & Hmiss & _).
  destruct Hmiss as [Hin _].
  - vm_compute. left.
  - vm_compute. intros Hin. by apply not_elem_of_nil in Hin.
  - by apply not_elem_of_nil in Hin.
Qed.

(** ** Strings *)

#[local] Arguments String.append !_ _ / : simpl nomatch.

Lemma string_app_assoc (s1 s2 s3 : string) :
  (s1 +:+ s2) +:+ s3 = s1 +:+ (s2 +:+ s3).
Proof. induction s1 as [|c s1 IH]; simpl; [done | by f_equal]. Qed.

Lemma string_app_nil_r (s : string) : s +:+ "" = s.
Proof. induction s as [|c s IH]; simpl; [done | by f_equal]. Qed.

Lemma substring_app_prefix (s1 s2 : string) :
  String.substring 0 (String.length s1) (s1 +:+ s2) = s1.
Proof.
  induction s1 as [|c s1 IH]; simpl; [by destruct s2 | by f_equal].
Qed.

Lemma substring_app_suffix (n : nat) (s1 s2 : string) :
  String.substring (String.length s1) n (s1 +:+ s2) = String.substring 0 n s2.
Proof. induction s1 as [|c s1 IH]; simpl; done. Qed.

(** ** Decimal rendering of integers *)

Lemma pretty_N_go_app (x : N) (s : string) :
  pretty_N_go x s = pretty_N_go x "" +:+ s.
Proof.
  revert s. induction (N.lt_wf_0 x) as [x _ IH]. intros s.
  destruct (decide (x = 0)%N) as [->|Hx].
  - by rewrite !pretty_N_go_0.
  - rewrite !(pretty_N_go_step x) by lia.
    assert (x `div` 10 < x)%N as Hlt by (apply N.div_lt; lia).
    rewrite (IH _ Hlt (String _ s)), (IH _ Hlt (String _ "")).
    by rewrite string_app_assoc.
Qed.

Lemma pretty_N_go_length (d : nat) (x : N) (s : string) :
  (10 ^ N.of_nat d ≤ x < 10 ^ N.of_nat (S d))%N →
  String.length (pretty_N_go x s) = (S d + String.length s)%nat.
Proof.
  revert x s. induction d as [|d IH]; intros x s Hx.
  - change (10 ^ N.of_nat 0)%N with 1%N in Hx.
    change (10 ^ N.of_nat 1)%N with 10%N in Hx.
    rewrite pretty_N_go_step by lia.
    rewrite (N.div_small x 10) by lia. by rewrite pretty_N_go_0.
  - rewrite pretty_N_go_step.
    2:{ pose proof (N.pow_nonzero 10 (N.of_nat (S d))). lia. }
    rewrite IH; [simpl; lia|].
    rewrite !Nat2N.inj_succ, !N.pow_succ_r' in *.
    split.
    + apply N.div_le_lower_bound; lia.
    + apply N.Div0.div_lt_upper_bound; lia.
Qed.

Lemma pretty_pos_times_10 (a : Z) :
  0 < a → pretty (10 * a) = pretty a +:+ "0".
Proof.
  intros Ha. destruct a as [|p|p]; try lia.
  change (10 * Z.pos p) with (Z.pos (10 * p)).
  unfold pretty, pretty_Z, pretty_positive, pretty, pretty_N.
  rewrite !decide_False by done.
  rewrite pretty_N_go_step by lia.
  replace (N.pos (10 * p) `div` 10)%N with (N.pos p)
    by (change (N.pos (10 * p)) with (10 * N.pos p)%N;
        rewrite N.mul_comm, N.div_mul; lia).
  replace (N.pos (10 * p) `mod` 10)%N with 0%N
    by (change (N.pos (10 * p)) with (10 * N.pos p)%N;
        rewrite N.mul_comm, N.Div0.mod_mul; lia).
  apply pretty_N_go_app.
Qed.

Lemma pretty_pos_length (d : nat) (a : Z) :
  10 ^ Z.of_nat d ≤ a < 10 ^ Z.of_nat (S d) →
  String.length (pretty a) = S d.
Proof.
  intros Ha.
  assert (0 < a) by (pose proof (Z.pow_pos_nonneg 10 (Z.of_nat d)); lia).
  destruct a as [|p|p]; try lia.
  unfold pretty, pretty_Z, pretty_positive, pretty, pretty_N.
  rewrite decide_False by done.
  rewrite (pretty_N_go_length d); [simpl; lia|].
  rewrite N2Z.inj_le, N2Z.inj_lt, !N2Z.inj_pow, !nat_N_Z. simpl Z.of_N. lia.
Qed.

(** ** Rounding and formatting of whole numbers *)

Lemma round_half_even_inject_mul (a b : Z) :
  round_half_even (inject_Z a * inject_Z b) = a * b.
Proof.
  unfold round_half_even; simpl.
  rewrite Z.div_1_r, Z.mod_1_r. done.
Qed.

Lemma round_half_even_inject (a : Z) : round_half_even (inject_Z a) = a.
Proof.
  unfold round_half_even; simpl.
  rewrite Z.div_1_r, Z.mod_1_r. done.
Qed.

Lemma exponent10_inject (d : nat) (a : Z) :
  10 ^ Z.of_nat d ≤ a < 10 ^ Z.of_nat (S d) →
  exponent10 (inject_Z a) = Z.of_nat d.
Proof.
  intros Ha.
  assert (0 < a) by (pose proof (Z.pow_pos_nonneg 10 (Z.of_nat d)); lia).
  unfold exponent10.
  replace (Qle_bool 1 (inject_Z a)) with true
    by (symmetry; unfold Qle_bool; simpl; apply Z.leb_le; lia).
  rewrite Qfloor_Z. unfold ndigits.
  rewrite Z.abs_eq by lia. rewrite (pretty_pos_length d) by done. lia.
Qed.

Lemma significand_inject (d : nat) (a : Z) :
  (d < 6)%nat →
  10 ^ Z.of_nat d ≤ a < 10 ^ Z.of_nat (S d) →
  significand 6 (inject_Z a) = (a * 10 ^ (5 - Z.of_nat d), Z.of_nat d).
Proof.
  intros Hd Ha. unfold significand.
  rewrite (exponent10_inject d a Ha).
  assert (pow10 (Z.of_nat 6 - 1 - Z.of_nat d)
          = inject_Z (10 ^ (5 - Z.of_nat d))) as ->.
  { do 6 (destruct d as [|d]; [reflexivity|]). lia. }
  rewrite round_half_even_inject_mul.
  rewrite (proj2 (Z.eqb_neq _ _)); [done|].
  do 6 (destruct d as [|d];
        [simpl Z.of_nat in *; simpl Z.sub; simpl Z.pow in *; lia|]).
  lia.
Qed.

Lemma pretty_pos_times_pow10 (k : nat) (a : Z) :
  0 < a →
  pretty (a * 10 ^ Z.of_nat k) = pretty a +:+ zeros k.
Proof.
  intros Ha. induction k as [|k IH].
  - simpl. by rewrite Z.mul_1_r, string_app_nil_r.
  - rewrite Nat2Z.inj_succ, Z.pow_succ_r by lia.
    replace (a * (10 * 10 ^ Z.of_nat k)) with (10 * (a * 10 ^ Z.of_nat k)) by lia.
    rewrite pretty_pos_times_10.
    2:{ pose proof (Z.pow_pos_nonneg 10 (Z.of_nat k)). nia. }
    rewrite IH, string_app_assoc. f_equal.
    clear. induction k as [|k IH]; [done|].
    simpl in *. by rewrite <- IH.
Qed.

Lemma fixed_notation_whole (d : nat) (s : string) :
  (d < 6)%nat →
  String.length s = S d →
  fixed_notation 6 false (s +:+ zeros (5 - d))
    (Z.of_nat d) = s.
Proof.
  intros Hd Hlen. unfold fixed_notation.
  rewrite (proj2 (Z.leb_le _ _)) by lia.
  replace (Z.to_nat (Z.of_nat d + 1)) with (String.length s) by lia.
  rewrite substring_app_prefix, substring_app_suffix.
  rewrite Hlen.
  do 6 (destruct d as [|d]; [simpl; by rewrite string_app_nil_r|]). lia.
Qed.

(** ["{:g}".format(n)] of a whole number of at most six digits is its
    decimal rendering. *)
Lemma format_g_whole (n : Z) :
  -1000000 < n < 1000000 → format_g (inject_Z n) = pretty n.
Proof.
  intros Hn.
  destruct (decide (n = 0)) as [->|Hn0]; [done|].
  set (a := Z.abs n).
  assert (∃ d, (d < 6)%nat ∧ 10 ^ Z.of_nat d ≤ a < 10 ^ Z.of_nat (S d))
    as (d & Hd & Ha).
  { assert (1 ≤ a < 1000000) as Hr by lia. clearbody a.
    destruct (decide (a < 10)); [exists 0%nat; simpl; lia|].
    destruct (decide (a < 100)); [exists 1%nat; simpl; lia|].
    destruct (decide (a < 1000)); [exists 2%nat; simpl; lia|].
    destruct (decide (a < 10000)); [exists 3%nat; simpl; lia|].
    destruct (decide (a < 100000)); [exists 4%nat; simpl; lia|].
    exists 5%nat; simpl; lia. }
  assert (0 < a) as Hpos by lia.
  unfold format_g, format_general.
  assert (Qabs (inject_Z n) = inject_Z a) as -> by done.
  assert (Qeq_bool (inject_Z n) 0 = false) as ->.
  { unfold Qeq_bool; simpl. destruct n; done. }
  rewrite (significand_inject d a Hd Ha).
  rewrite (proj2 (Z.leb_le (-4) _)), (proj2 (Z.ltb_lt _ 6)) by lia. simpl andb.
  replace (5 - Z.of_nat d) with (Z.of_nat (5 - d)) by lia.
  rewrite pretty_pos_times_pow10 by done.
  rewrite fixed_notation_whole by (done || by apply pretty_pos_length).
  subst a. destruct n as [|p|p]; done.
Qed.

(** ** Normalized CCD temperature *)

(** The rounded value is within half a unit of the number. *)
Lemma round_half_even_near (t : Q) :
  let r := round_half_even t in
  2 * Z.abs (Qnum t - r * Zpos (Qden t)) ≤ Zpos (Qden t).
Proof.
  destruct t as [n d]. unfold round_half_even; simpl.
  pose proof (Z.div_mod n (Z.pos d) ltac:(lia)) as Hdm.
  pose proof (Z.mod_pos_bound n (Z.pos d) ltac:(lia)) as Hb.
  repeat case_match;
    repeat match goal with
           | H : (_ <? _) = true |- _ => apply Z.ltb_lt in H
           | H : (_ <? _) = false |- _ => apply Z.ltb_ge in H
           end; nia.
Qed.

Lemma normalize_temps_setpoint (t : Q) (s : Z) :
  s ∈ normal_temps → Z.abs (round_half_even t - s) ≤ 1 →
  normalize_temps t = s.
Proof.
  intros Hs Hnear. unfold normalize_temps.
  set (r := round_half_even t) in *. clearbody r.
  assert (r = s - 1 ∨ r = s ∨ r = s + 1) as Hr by lia.
  unfold normal_temps in *.
  repeat (apply elem_of_cons in Hs as [-> | Hs]);
    [ | | | | by apply not_elem_of_nil in Hs];
    destruct Hr as [-> | [-> | ->]]; reflexivity.
Qed.

Lemma normalize_temps_elsewhere (t : Q) :
  (∀ s, s ∈ normal_temps → 1 < Z.abs (round_half_even t - s)) →
  normalize_temps t = round_half_even t.
Proof.
  intros Hfar. unfold normalize_temps.
  set (r := round_half_even t) in *. clearbody r.
  rewrite !bool_decide_eq_false_2; [done|..].
  - intros Hin. specialize (Hfar _ Hin). lia.
  - intros Hin. specialize (Hfar _ Hin). lia.
Qed.

(** C7.  The derived CCD temperature of a raw value [t] is the rounded
    value (nearest integer, ties to even) moved onto a normal setpoint
    (0, -10, -15, -20) when it is at most one degree away from it, and the
    rounded value itself otherwise, printed with "{:g}" and followed by the
    unit marker "C"; below a million in size the print is the plain decimal
    rendering.  Every raw value strictly between -1.5 and 1.5 therefore
    derives "0C"; so do the header strings "0.4" and "-0.6", and the two
    dark frames of the scenario both carry "0C" after construction. *)
Theorem ccdtemp_setpoint_rule (t : Q) :
  (∀ s, s ∈ normal_temps → Z.abs (round_half_even t - s) ≤ 1 →
        normalize_temps t = s)
  ∧ ((∀ s, s ∈ normal_temps → 1 < Z.abs (round_half_even t - s)) →
     normalize_temps t = round_half_even t)
  ∧ (-1000000 < normalize_temps t < 1000000 →
     format_ccdtemp (Some t) = pretty (normalize_temps t) +:+ "C")
  ∧ ((-3 # 2 < t)%Q ∧ (t < 3 # 2)%Q → format_ccdtemp (Some t) = "0C")
  ∧ ccdtemp_of (Some (VStr "0.4")) = inr "0C"
  ∧ ccdtemp_of (Some (VStr "-0.6")) = inr "0C"
  ∧ ccdtemp_column two_darks = inr [Some (VStr "0C"); Some (VStr "0C")].
Proof.
  split; [intros s; apply normalize_temps_setpoint|].
  split; [apply normalize_temps_elsewhere|].
  split; [intros Hr; unfold format_ccdtemp; by rewrite format_g_whole|].
  split; [|by vm_compute].
  intros [Hlo Hhi].
  assert (normalize_temps t = 0) as Hz.
  { apply normalize_temps_setpoint; [unfold normal_temps; in_list|].
    pose proof (round_half_even_near t) as Hnear. simpl in Hnear.
    destruct t as [n d]. unfold Qlt in Hlo, Hhi; simpl in *.
    set (r := round_half_even (n # d)) in *. clearbody r. nia. }
  unfold format_ccdtemp. by rewrite Hz.
Qed.

Lemma ccdtemp_setpoint_rule_witness :
  normalize_temps (-6 # 10) = 0
  ∧ format_ccdtemp (Some (4 # 10)) = "0C"
  ∧ format_ccdtemp (Some (-6 # 10)) = "0C".
Proof.
  split; [|split].
  - apply (proj1 (ccdtemp_setpoint_rule (-6 # 10)) 0).
    + unfold normal_temps. in_list.
    + vm_compute. discriminate.
  - apply (proj1 (proj2 (proj2 (proj2 (ccdtemp_setpoint_rule (4 # 10)))))).
    split; reflexivity.
  - apply (proj1 (proj2 (proj2 (proj2 (ccdtemp_setpoint_rule (-6 # 10)))))).
    split; reflexivity.
Defined.

(** ** Row mask *)

(** C5.  A mask whose length differs from the row count is refused by the
    assertion (the specification's ValidationError) and the index, its
    mask included, is what it was; a mask of the right length that selects
    no row is installed, and the only effect besides is the warning. *)
Theorem set_rowmask_validates (i : Index) (new_mask : list bool) :
  (length new_mask ≠ length (rows (df i)) →
   set_rowmask new_mask i = inl AssertionError
   ∧ after_set_rowmask new_mask i = i)
  ∧ (length new_mask = length (rows (df i)) → any new_mask = false →
     set_rowmask new_mask i = inr (with_rowmask new_mask i, [NoRowsSelected])
     ∧ rowmask (after_set_rowmask new_mask i) = new_mask
     ∧ df (after_set_rowmask new_mask i) = df i).
Proof.
  unfold after_set_rowmask, set_rowmask. split.
  - intros Hlen. by rewrite bool_decide_eq_false_2.
  - intros Hlen Hnone. rewrite bool_decide_eq_true_2 by done.
    by rewrite Hnone.
Qed.

Lemma set_rowmask_validates_witness :
  (set_rowmask [true] light_and_darks = inl AssertionError
   ∧ after_set_rowmask [true] light_and_darks = light_and_darks)
  ∧ (set_rowmask [false; false; false] light_and_darks
     = inr (with_rowmask [false; false; false] light_and_darks,
            [NoRowsSelected])
     ∧ rowmask (after_set_rowmask [false; false; false] light_and_darks)
       = [false; false; false]
     ∧ df (after_set_rowmask [false; false; false] light_and_darks)
       = df light_and_darks).
Proof.
  split.
  - apply (proj1 (set_rowmask_validates light_and_darks [true])).
    simpl. lia.
  - apply (proj2 (set_rowmask_validates light_and_darks [false; false; false]));
      reflexivity.
Defined.

(** ** Masks *)

Lemma map_mask_map {A : Type} (p : A → bool) (f : A → A) (l : list A) :
  map_mask f (map p l) l = map (λ x, if p x then f x else x) l.
Proof. induction l as [|x l IH]; simpl; [done | by rewrite IH]. Qed.

Lemma zip_with_map_map {A B C D : Type} (h : B → C → D) (p : A → B)
    (k : A → C) (l : list A) :
  zip_with h (map p l) (map k l) = map (λ x, h (p x) (k x)) l.
Proof. induction l as [|x l IH]; simpl; [done | by rewrite IH]. Qed.

Lemma cell_set_cell (col col' : string) (v : option value) (r : row) :
  cell (set_cell col v r) col' = if decide (col = col') then v else cell r col'.
Proof.
  unfold cell, set_cell, put; simpl.
  destruct (decide (col = col')) as [->|Hne].
  - by rewrite lookup_partial_alter_eq.
  - by rewrite lookup_partial_alter_ne.
Qed.

Lemma file_set_cell (col : string) (v : option value) (r : row) :
  file (set_cell col v r) = file r.
Proof. done. Qed.

(** ** Session auto-fill at construction *)

(** The frame value assigned into ['SESSION'] has the single column
    ['_NIGHT'], so the aligned value of every target cell is NaN. *)
Lemma aligned_other_label (mask : list bool) (d : frame) (key : string) :
  aligned (loc_get mask ["_NIGHT"] d) key "SESSION" = None.
Proof. done. Qed.

Lemma init_sessions_rows (d d' : frame) :
  init_sessions d = inr d' →
  rows d' = rows d ∨ rows d' = map init_sessions_row (rows d).
Proof.
  unfold init_sessions. case_bool_decide; [done|].
  destruct (any _); [|intros [= <-]; by left].
  case_bool_decide; [done|]. intros [= <-]. right.
  unfold assign_list, loc_set_frame; simpl.
  rewrite map_mask_map, map_map.
  rewrite (zip_with_map_map (λ v r, set_cell "_CHANGED" v r)
             (λ r, Some (VBool (isna (cell r "SESSION"))))).
  done.
Qed.

(** The step never changes a session identifier: a row without one still
    has none afterwards. *)
Lemma init_sessions_keeps_sessions (d d' : frame) :
  init_sessions d = inr d' →
  map (λ r, cell r "SESSION") (rows d') = map (λ r, cell r "SESSION") (rows d).
Proof.
  intros [-> | ->]%init_sessions_rows; [done|].
  rewrite map_map. apply map_ext. intros r. unfold init_sessions_row.
  rewrite cell_set_cell. simpl.
  destruct (cell r "SESSION") eqn:Hs; simpl; [done|].
  by rewrite cell_set_cell.
Qed.

(** C9 on the code: after the construction step a row that had no session
    identifier is flagged dirty, and only such a row is, but its session is
    still missing although its night bucket is known; the menu action
    [fill_missing_sessions] is the path that does store the night. *)
Theorem init_sessions_does_not_fill :
  (init_sessions two_nights ≫= λ d, mret (map session_and_flag (rows d)))
  = inr [ (None, Some (VBool true));
          (Some (VStr "galaxy season"), Some (VBool false)) ]
  ∧ map (λ r, cell r "_NIGHT") (rows two_nights)
    = [Some (VStr "2022-03-01"); Some (VStr "2022-03-02")]
  ∧ map session_and_flag (rows (fill_missing_sessions two_nights))
    = [ (Some (VStr "2022-03-01"), Some (VBool true));
        (Some (VStr "2022-03-02"), Some (VBool false)) ].
Proof. by vm_compute. Qed.

(** ** Attribute values *)

(** Counting a list through the distinct values of a key. *)
Lemma sum_filter_split {B : Type} `{EqDecision B} (f : B → nat) (k : B)
    (u : list B) :
  NoDup u →
  sum_list (map f u)
  = ((if bool_decide (k ∈ u) then f k else 0)
     + sum_list (map f (filter (λ v, v ≠ k) u)))%nat.
Proof.
  induction 1 as [|v u Hv Hu IH]; [done|]. simpl sum_list; simpl map.
  rewrite IH. destruct (decide (v = k)) as [->|Hne].
  - rewrite filter_cons_False by (intros Hn; by apply Hn).
    rewrite (bool_decide_eq_true_2 (k ∈ k :: u)) by left.
    rewrite (bool_decide_eq_false_2 (k ∈ u)) by done. lia.
  - rewrite filter_cons_True by done. simpl.
    rewrite (bool_decide_ext (k ∈ v :: u) (k ∈ u)); [lia|].
    rewrite elem_of_cons. split; [intros [->|?]; done | by right].
Qed.

Lemma sum_by_key {A B : Type} `{EqDecision B} (key : A → B) (l : list A) :
  sum_list (map (λ v, length (filter (λ x, key x = v) l)) (unique (map key l)))
  = length l.
Proof.
  induction l as [|x l IH]; simpl; [done|].
  rewrite filter_cons_True by done. simpl. f_equal.
  transitivity
    ((if bool_decide (key x ∈ unique (map key l))
      then length (filter (λ y, key y = key x) l) else 0)
     + sum_list (map (λ v, length (filter (λ y, key y = v) l))
                     (filter (λ v, v ≠ key x) (unique (map key l)))))%nat.
  - f_equal.
    + case_bool_decide as Hin; [done|].
      rewrite elem_of_unique, elem_of_map in Hin.
      destruct (filter _ l) as [|y l'] eqn:Hf; [done|].
      assert (y ∈ filter (λ y, key y = key x) l) as Hy by (rewrite Hf; left).
      apply list_elem_of_filter in Hy as [Hk Hy]. destruct Hin. eauto.
    + f_equal. apply map_ext_in.
      intros v [Hv _]%list_elem_of_In%list_elem_of_filter.
      rewrite filter_cons_False; [done|]. intros Heq. by apply Hv.
  - rewrite <- IH.
    symmetry. apply (sum_filter_split (λ v, length (filter (λ y, key y = v) l))).
    apply NoDup_unique.
Qed.

Lemma filter_ext_elem {A : Type} (P Q : A → Prop)
    `{∀ x, Decision (P x)} `{∀ x, Decision (Q x)} (l : list A) :
  (∀ x, x ∈ l → P x ↔ Q x) → filter P l = filter Q l.
Proof.
  induction l as [|x l IH]; intros Hpq; [done|].
  assert (filter P l = filter Q l) as Hl
    by (apply IH; intros y Hy; apply Hpq; by right).
  destruct (decide (P x)) as [Hp|Hp].
  - rewrite !filter_cons_True by (done || by apply (Hpq x); [left|]).
    by rewrite Hl.
  - rewrite !filter_cons_False; [done|..|done].
    intros Hq. apply Hp, (Hpq x); [left | done].
Qed.

Lemma sublist_select {A : Type} (mask : list bool) (l : list A) :
  select mask l `sublist_of` l.
Proof.
  revert l. induction mask as [|b mask IH]; intros [|x l]; simpl;
    try apply sublist_nil_l.
  destruct b; [apply sublist_skip | apply sublist_cons]; apply IH.
Qed.

Lemma elem_of_select {A : Type} (mask : list bool) (l : list A) (x : A) :
  x ∈ select mask l → x ∈ l.
Proof. intros Hx. eapply elem_of_sublist; [done | apply sublist_select]. Qed.

Lemma filter_all {A : Type} (P : A → Prop) `{∀ x, Decision (P x)}
    (l : list A) :
  (∀ x, x ∈ l → P x) → filter P l = l.
Proof.
  induction l as [|x l IH]; intros Hall; [done|].
  rewrite filter_cons_True by (apply Hall; left).
  f_equal. apply IH. intros y Hy. apply Hall. by right.
Qed.

Lemma unique_NoDup {A : Type} `{EqDecision A} (l : list A) :
  NoDup l → unique l = l.
Proof.
  induction 1 as [|x l Hx Hl IH]; simpl; [done|].
  rewrite IH. f_equal. apply filter_all.
  intros y Hy ->. done.
Qed.

(** When no selected row holds the missing label itself as a value of
    the attribute, every selected row is counted under exactly one reported
    value. *)
Lemma values_for_attr_partition (attr : string) (i : Index) :
  attr ∈ columns (df i) →
  NoDup (map file (rows (df i))) →
  (∀ r, r ∈ select (rowmask i) (rows (df i)) →
        cell r attr ≠ Some (VStr (missing_label i))) →
  ∃ fs, values_for_attr attr i = inr fs
        ∧ total_files fs = length (select (rowmask i) (rows (df i))).
Proof.
  intros Hcol Hkeys Hlabel. unfold values_for_attr.
  rewrite bool_decide_eq_false_2 by (intros Hn; by apply Hn).
  eexists; split; [done|].
  set (sel := select (rowmask i) (rows (df i))) in *.
  set (label := missing_label i) in *.
  assert (NoDup (map file sel)) as Hsel.
  { eapply sublist_NoDup; [exact Hkeys|].
    apply (fmap_sublist file), sublist_select. }
  unfold total_files. rewrite map_map.
  etrans; [|apply (sum_by_key (filled label attr) sel)].
  f_equal. apply map_ext. intros v. unfold facet_of; simpl.
  assert (rows_for label attr sel v
          = filter (λ r, filled label attr r = v) sel) as ->.
  { unfold rows_for. case_bool_decide as Hv.
    - apply filter_ext_elem. intros r Hr. specialize (Hlabel r Hr).
      unfold filled. destruct (cell r attr); simpl; [|done].
      split; [done | intros ->; by subst].
    - apply filter_ext_elem. intros r Hr. unfold filled.
      destruct (cell r attr); [split; congruence|].
      split; [done | intros <-; done]. }
  rewrite unique_NoDup, length_map; [done|].
  eapply sublist_NoDup; [exact Hsel|].
  apply (fmap_sublist file), sublist_filter.
Qed.

(** C2 on the code: the one selected file whose OBJECT header reads
    "(Unknown)", the missing label itself, is reported under that value with
    a file count of zero, because the rows taken for the label are the rows
    with a MISSING cell; the counts sum to 0 while one row is selected. *)
Theorem values_for_attr_sentinel_collision :
  values_for_attr "OBJECT" object_named_unknown
  = inr [Facet (VStr "(Unknown)") 0 0]
  ∧ (values_for_attr "OBJECT" object_named_unknown ≫= λ fs, mret (total_files fs))
    = inr 0%nat
  ∧ length (select (rowmask object_named_unknown)
                   (rows (df object_named_unknown))) = 1%nat.
Proof. by vm_compute. Qed.

(** ** Dense ranking of observation dates *)





Lemma filter_none {A : Type} (P : A → Prop) `{∀ x, Decision (P x)}
    (l : list A) :
  (∀ x, x ∈ l → ¬ P x) → filter P l = [].
Proof.
  induction l as [|x l IH]; intros Hall; [done|].
  rewrite filter_cons_False by (apply Hall; left).
  apply IH. intros y Hy. apply Hall. by right.
Qed.









(** Decide a closed, decidable proposition by evaluation. *)
Ltac by_eval :=
  lazymatch goal with
  | |- ?P => apply (bool_decide_unpack P); vm_compute; exact I
  end.


(** ** Reorganize planning *)

(** Unfold the exception monad in a hypothesis. *)
Ltac err_simpl H :=
  unfold mbind, error_bind, mret, error_ret in H; simpl in H.

Lemma map_err_Forall2 {A B : Type} (f : A → error + B) (l : list A)
    (ys : list B) :
  map_err f l = inr ys → Forall2 (λ x y, f x = inr y) l ys.
Proof.
  revert ys. induction l as [|x l IH]; simpl; intros ys Hm.
  - injection Hm as <-. constructor.
  - destruct (f x) as [e|y] eqn:Hx; err_simpl Hm; [done|].
    destruct (map_err f l) as [e|ys'] eqn:Hl; err_simpl Hm; [done|].
    injection Hm as <-. constructor; [done | by apply IH].
Qed.

Lemma foldl_organize_step_error root_dir s label mask e groups :
  foldl (organize_step root_dir s label mask) (inl e) groups = inl e.
Proof. induction groups as [|g groups IH]; simpl; done. Qed.

Lemma file_keep_columns cols r : file (keep_columns cols r) = file r.
Proof. done. Qed.

Lemma file_with_seqno group_attrs rs r :
  file (with_seqno group_attrs rs r) = file r.
Proof. done. Qed.

(** The local frame has the rows of the members, under the same keys. *)
Lemma local_frame_files l d members rs :
  local_frame l d members = inr rs → map file rs = map file members.
Proof.
  unfold local_frame. destruct (missing_column _ _); [done|].
  set (rs0 := map (keep_columns (required_attrs l)) members).
  assert (map file rs0 = map file members) as H0.
  { unfold rs0. rewrite map_map. by apply map_ext. }
  intros Hl. err_simpl Hl.
  destruct (if bool_decide ("EXPTIME" ∈ required_attrs l)
            then map_err reprint_exptime rs0 else inr rs0)
    as [e|rs1] eqn:H1; [done|].
  injection Hl as <-.
  assert (map file rs1 = map file rs0) as Hf1.
  { destruct (bool_decide ("EXPTIME" ∈ required_attrs l));
      [|by injection H1 as <-].
    apply map_err_Forall2 in H1. clear -H1.
    induction H1 as [|x y l1 l2 Hxy _ IH]; [done|]. simpl. f_equal; [|done].
    unfold reprint_exptime in Hxy.
    destruct (astype_float _); err_simpl Hxy; [done|].
    by injection Hxy as <-. }
  rewrite <- H0, <- Hf1.
  destruct (bool_decide (group_attrs_of l = [])); [done|].
  rewrite map_map. by apply map_ext.
Qed.

(** The plan of a type without name attributes: one entry per local row,
    no name, a path. *)
Lemma plan_rows_path_only root_dir label l rs plan :
  name l = [] →
  plan_rows root_dir label l rs = inr plan →
  map fst plan = map file rs
  ∧ ∀ f n p, (f, (n, p)) ∈ plan → n = None ∧ ∃ s, p = Some (VStr s).
Proof.
  intros Hname. unfold plan_rows.
  rewrite bool_decide_eq_false_2 by (intros [Hn _]; done). intros Hplan.
  err_simpl Hplan.
  destruct (map_err _ rs) as [e|paths] eqn:Hp; err_simpl Hplan; [done|].
  injection Hplan as <-. apply map_err_Forall2 in Hp.
  unfold get_new_name. rewrite Hname. simpl.
  clear Hname. induction Hp as [|r p rs paths Hrp _ IH]; simpl.
  - split; [done|]. intros f n p Hin. by apply not_elem_of_nil in Hin.
  - destruct IH as [IH1 IH2]. split; [by f_equal|].
    intros f n p' [Heq|Hin]%elem_of_cons; [|by eapply IH2].
    injection Heq as -> -> ->. split; [done|].
    unfold get_new_path in Hrp.
    destruct (map_err _ _); err_simpl Hrp; [done|].
    injection Hrp as <-. eauto.
Qed.

Lemma stage_not_planned plan r :
  file r ∉ map fst plan → stage plan r = r.
Proof.
  intros Hnot. unfold stage.
  destruct (List.find _ plan) as [[f [n p]]|] eqn:Hfind; [|done].
  apply find_some in Hfind as [Hin Hf].
  apply bool_decide_eq_true in Hf. simpl in Hf. subst f.
  destruct Hnot. apply elem_of_map. exists (file r, (n, p)).
  split; [done | by apply list_elem_of_In].
Qed.


Lemma stage_same_keys plan r : same_keys r (stage plan r).
Proof.
  unfold stage. destruct (List.find _ plan) as [[f [n p]]|]; [|done].
  split; [done|]. unfold imagetyp. by rewrite !cell_set_cell.
Qed.

Lemma plan_rows_files root_dir label l rs plan :
  plan_rows root_dir label l rs = inr plan → map fst plan = map file rs.
Proof.
  unfold plan_rows. intros Hplan.
  destruct (bool_decide _); err_simpl Hplan; [done|].
  destruct (map_err _ rs) as [e|paths] eqn:Hp; err_simpl Hplan; [done|].
  injection Hplan as <-. apply map_err_Forall2 in Hp.
  induction Hp as [|r p rs paths _ _ IH]; simpl; [done | by f_equal].
Qed.

(** One turn of the loop restages the rows of its group and no other. *)
Lemma organize_group_rows root_dir s label mask d imgtype d' :
  organize_group root_dir s label mask d imgtype = inr d' →
  ∃ l plan,
    attr_structure s imgtype = Some l
    ∧ rows d' = map (stage plan) (rows d)
    ∧ (∀ r, r ∈ rows d →
            file r ∈ map fst plan ↔ file r ∈ group_keys mask d imgtype)
    ∧ (name l = [] →
       ∀ f n p, (f, (n, p)) ∈ plan → n = None ∧ ∃ s, p = Some (VStr s)).
Proof.
  unfold organize_group. destruct (attr_structure s imgtype) as [l|]; [|done].
  intros Hg. err_simpl Hg.
  destruct (local_frame l d _) as [e|rs] eqn:Hl; err_simpl Hg; [done|].
  destruct (plan_rows root_dir label l rs) as [e|plan] eqn:Hp;
    err_simpl Hg; [done|].
  injection Hg as <-. exists l, plan. split; [done|]. split; [done|].
  apply local_frame_files in Hl. split.
  - intros r Hr. rewrite (plan_rows_files _ _ _ _ _ Hp), Hl.
    rewrite elem_of_map. split.
    + intros (m & Hf & [Hk _]%list_elem_of_filter). by rewrite Hf.
    + intros Hk. exists r. split; [done|]. by apply list_elem_of_filter.
  - intros Hname. by apply (plan_rows_path_only root_dir label l rs).
Qed.



Lemma Forall2_select {A B : Type} (R : A → B → Prop) (mask : list bool)
    (l : list A) (k : list B) :
  Forall2 R l k → Forall2 R (select mask l) (select mask k).
Proof.
  intros H. revert mask.
  induction H as [|x y l k Hxy _ IH]; intros [|b mask]; simpl;
    try constructor.
  destruct b; [constructor|]; auto.
Qed.

Lemma NoDup_map_inj {A B : Type} (f : A → B) (l : list A) (x y : A) :
  NoDup (map f l) → x ∈ l → y ∈ l → f x = f y → x = y.
Proof.
  induction l as [|z l IH]; simpl; intros Hnd Hx Hy Hf.
  - by apply not_elem_of_nil in Hx.
  - apply NoDup_cons in Hnd as [Hz Hnd].
    apply elem_of_cons in Hx as [->|Hx]; apply elem_of_cons in Hy as [->|Hy].
    + done.
    + destruct Hz. rewrite Hf. apply elem_of_map. eauto.
    + destruct Hz. rewrite <- Hf. apply elem_of_map. eauto.
    + by apply IH.
Qed.

Lemma Forall2_elem_of_l {A B : Type} (R : A → B → Prop) (l : list A)
    (k : list B) (x : A) :
  Forall2 R l k → x ∈ l → ∃ y, y ∈ k ∧ R x y.
Proof.
  induction 1 as [|a b l k Hab _ IH]; intros Hx.
  - by apply not_elem_of_nil in Hx.
  - apply elem_of_cons in Hx as [->|Hx].
    + exists b. split; [left | done].
    + destruct (IH Hx) as (y & Hy & Hxy). exists y. split; [by right | done].
Qed.

Lemma Forall2_elem_of_r {A B : Type} (R : A → B → Prop) (l : list A)
    (k : list B) (y : B) :
  Forall2 R l k → y ∈ k → ∃ x, x ∈ l ∧ R x y.
Proof.
  induction 1 as [|a b l k Hab _ IH]; intros Hy.
  - by apply not_elem_of_nil in Hy.
  - apply elem_of_cons in Hy as [->|Hy].
    + exists a. split; [left | done].
    + destruct (IH Hy) as (x & Hx & Hxy). exists x. split; [by right | done].
Qed.

Section OrganizeWithoutName.
Variables (root_dir : string) (s : structure) (label : string).
Variables (mask : list bool) (d0 : frame) (r0 : row) (t : string) (l : layout).
Hypothesis Hkeys : NoDup (map file (rows d0)).
Hypothesis Hr0 : r0 ∈ select mask (rows d0).
Hypothesis Ht : imagetyp r0 = Some t.
Hypothesis Hl : attr_structure s t = Some l.
Hypothesis Hname : name l = [].



End OrganizeWithoutName.

Lemma elem_of_merge_sort (x : string) (l : list string) :
  x ∈ merge_sort String.le l ↔ x ∈ l.
Proof. by rewrite merge_sort_Permutation. Qed.




(** ** Sync *)

Lemma foldl_sync_error today op ov sv e snapshot :
  foldl (λ acc r, w' ← acc; sync_row today op ov sv r w') (inl e) snapshot
  = inl e.
Proof. induction snapshot as [|r rs IH]; simpl; done. Qed.

(** C6.  For a row whose staged destination differs from where it is, a
    destination that exists while overwriting was not authorized makes the
    row fail with the "already exists" report and nothing else: the file
    system is untouched (no copy, move or link, no header edit), the index,
    hence the row's dirty flag and its staged path and name, is what it
    was, and the rows after it in the snapshot are processed from that
    state. *)
Theorem sync_row_destination_exists
    (today : string) (op : operation) (save_oldname : bool)
    (r : row) (w : world) (oldpath oldname : string)
    (staged_path staged_name : option string)
    (Hpath : text r "_PATH" = inr (Some oldpath))
    (Hname : text r "_NAME" = inr (Some oldname))
    (Hnewpath : text r "_newpath" = inr staged_path)
    (Hnewname : text r "_newname" = inr staged_name)
    (Hdiffers : default oldpath staged_path ≠ oldpath
                ∨ default oldname staged_name ≠ oldname)
    (Hexists : file_exists w (path_join (default oldpath staged_path)
                                        (default oldname staged_name)) = true) :
  let report :=
    destination_exists (path_join (default oldpath staged_path)
                                  (default oldname staged_name)) in
  let w' := World (idx w) (disk w) (links w) (cache w)
                  (printed w ++ [report]) in
  sync_row today op false save_oldname r w = inr w'
  ∧ ∀ rest, sync_rows today op false save_oldname (r :: rest) w
            = sync_rows today op false save_oldname rest w'.
Proof.
  intros report w'.
  assert (sync_row today op false save_oldname r w = inr w') as Hrow.
  { unfold sync_row. rewrite Hpath, Hname, Hnewpath, Hnewname.
    unfold mbind, error_bind. rewrite Hexists.
    replace (bool_decide (default oldpath staged_path ≠ oldpath)
             || bool_decide (default oldname staged_name ≠ oldname))
      with true; [done|].
    symmetry. apply orb_true_iff.
    destruct Hdiffers; [left | right]; by apply bool_decide_eq_true. }
  split; [done|]. intros rest. unfold sync_rows. simpl.
  unfold mbind at 2, error_bind at 2. by rewrite Hrow.
Qed.

Lemma sync_row_destination_exists_witness :
  sync_row "2022-03-02" Move false false
    (staged_row "/raw/a.fits" "/raw" "a.fits" "/sorted/M31" "m31_001.fits")
    two_staged
  = inr (World (idx two_staged) (disk two_staged) (links two_staged)
           (cache two_staged)
           [destination_exists "/sorted/M31/m31_001.fits"])
  ∧ ∀ rest, sync_rows "2022-03-02" Move false false
              (staged_row "/raw/a.fits" "/raw" "a.fits" "/sorted/M31"
                 "m31_001.fits" :: rest) two_staged
            = sync_rows "2022-03-02" Move false false rest
                (World (idx two_staged) (disk two_staged) (links two_staged)
                   (cache two_staged)
                   [destination_exists "/sorted/M31/m31_001.fits"]).
Proof.
  apply (sync_row_destination_exists "2022-03-02" Move false
           (staged_row "/raw/a.fits" "/raw" "a.fits" "/sorted/M31" "m31_001.fits")
           two_staged "/raw" "a.fits" (Some "/sorted/M31") (Some "m31_001.fits")).
  - reflexivity.
  - reflexivity.
  - reflexivity.
  - reflexivity.
  - left. discriminate.
  - reflexivity.
Defined.

Lemma rows_loc_set_index (key : string) (cols : list string)
    (v : option value) (d : frame) :
  rows (loc_set_scalar (index_is key d) cols v d)
  = map (λ x, if bool_decide (file x = key)
              then set_cells cols (λ _, v) x else x) (rows d).
Proof. unfold loc_set_scalar, index_is; simpl. apply map_mask_map. Qed.

Lemma Forall2_map_r {A B : Type} (R : A → B → Prop) (g : A → B) (l : list A) :
  (∀ x, x ∈ l → R x (g x)) → Forall2 R l (map g l).
Proof.
  induction l as [|x l IH]; intros H; simpl; constructor.
  - apply H. left.
  - apply IH. intros y Hy. apply H. by right.
Qed.

Lemma elem_of_add_columns (c : string) (cols old : list string) :
  c ∈ add_columns cols old ↔ c ∈ old ∨ c ∈ cols.
Proof.
  unfold add_columns.
  rewrite elem_of_app, list_elem_of_filter, elem_of_unique.
  destruct (decide (c ∈ old)); tauto.
Qed.

Lemma add_columns_present (cols old : list string) :
  (∀ c, c ∈ cols → c ∈ old) → add_columns cols old = old.
Proof.
  intros H. unfold add_columns. rewrite filter_none, app_nil_r; [done|].
  intros c Hc Hn. apply (proj1 (elem_of_unique _ _)) in Hc. by apply Hn, H.
Qed.

Lemma file_set_cells (cols : list string) (v : string → option value)
    (r : row) :
  file (set_cells cols v r) = file r.
Proof. induction cols as [|c cols IH]; simpl; done. Qed.

Lemma map_if_compose {A : Type} (p : A → bool) (f g : A → A) (l : list A) :
  (∀ x, p (f x) = p x) →
  map (λ x, if p x then g x else x) (map (λ x, if p x then f x else x) l)
  = map (λ x, if p x then g (f x) else x) l.
Proof.
  intros Hp. rewrite map_map. apply map_ext. intros x.
  destruct (p x) eqn:Hx; [by rewrite Hp, Hx | by rewrite Hx].
Qed.

(** The three assignments and the renaming of a committed move, row by
    row. *)
Lemma rows_commit_move (key newpath newfile : string) (d : frame) :
  let d1 := loc_set_scalar (index_is key d) ["_newpath"; "_newname"] None d in
  let d2 := loc_set_scalar (index_is key d1) ["_CHANGED"]
              (Some (VBool false)) d1 in
  let d3 := loc_set_scalar (index_is key d2) ["_path"]
              (Some (VStr newpath)) d2 in
  rows (rename_index key newfile d3)
  = map (λ x, if bool_decide (file x = key)
              then commit_move newpath newfile x else x) (rows d).
Proof.
  intros d1 d2 d3. unfold rename_index; cbn [rows].
  subst d3. rewrite rows_loc_set_index.
  subst d2. rewrite rows_loc_set_index.
  subst d1. rewrite rows_loc_set_index.
  rewrite (map_if_compose (λ x, bool_decide (file x = key)))
    by (intros x; by rewrite file_set_cells).
  rewrite (map_if_compose (λ x, bool_decide (file x = key)))
    by (intros x; by rewrite !file_set_cells).
  rewrite map_map. apply map_ext. intros x.
  destruct (bool_decide (file x = key)) eqn:Hx.
  - by rewrite !file_set_cells, Hx.
  - by rewrite Hx.
Qed.

Lemma moved_to_commit_move (newpath newfile : string) (x : row) :
  moved_to newpath newfile x (commit_move newpath newfile x).
Proof.
  unfold moved_to, commit_move, cell; simpl.
  unfold put. rewrite !lookup_partial_alter_ne by done.
  rewrite lookup_partial_alter_eq.
  repeat split; try done.
  - rewrite !lookup_partial_alter_ne by done.
    by rewrite lookup_partial_alter_eq.
  - rewrite !lookup_partial_alter_ne by done.
    by rewrite lookup_partial_alter_eq.
  - rewrite !lookup_partial_alter_ne by done.
    by rewrite lookup_partial_alter_eq.
Qed.

(** C10.  When sync commits a row with operation 'move' (the staged
    destination differs from where the file is, it is free or overwriting
    was authorized, and the file is on disk), every row of the index under
    the old key is re-keyed to the full destination path, its staging is
    cleared and it is clean; its ['_PATH'] still holds the old directory,
    because the new directory was written to the column ['_path'], which is
    appended to the table when it did not exist.  So when the directory
    changed, ['_PATH'] is no longer the directory of the row key. *)
Theorem sync_row_move_leaves_PATH
    (today : string) (overwrite_existing save_oldname : bool)
    (r : row) (w : world) (oldpath oldname : string)
    (staged_path staged_name : option string) (f : fits_file)
    (Hpath : text r "_PATH" = inr (Some oldpath))
    (Hname : text r "_NAME" = inr (Some oldname))
    (Hnewpath : text r "_newpath" = inr staged_path)
    (Hnewname : text r "_newname" = inr staged_name)
    (Hdiffers : default oldpath staged_path ≠ oldpath
                ∨ default oldname staged_name ≠ oldname)
    (Hfree : file_exists w (path_join (default oldpath staged_path)
                                      (default oldname staged_name)) = false
             ∨ overwrite_existing = true)
    (Hsrc : disk w !! file r = Some f) :
  let newpath := default oldpath staged_path in
  let newfile := path_join newpath (default oldname staged_name) in
  ∃ w', sync_row today Move overwrite_existing save_oldname r w = inr w'
    ∧ Forall2 (λ x x', if bool_decide (file x = file r)
                       then moved_to newpath newfile x x'
                            ∧ (cell x "_PATH" = Some (VStr oldpath) →
                               newpath ≠ oldpath →
                               cell x' "_PATH" ≠ Some (VStr newpath))
                       else x' = x)
        (rows (df (idx w))) (rows (df (idx w')))
    ∧ "_path" ∈ columns (df (idx w'))
    ∧ ("_path" ∉ columns (df (idx w)) →
       (∀ c, c ∈ ["_newpath"; "_newname"; "_CHANGED"] →
             c ∈ columns (df (idx w))) →
       columns (df (idx w')) = columns (df (idx w)) ++ ["_path"]).
Proof.
  intros newpath newfile.
  assert (bool_decide (newpath ≠ oldpath)
          || bool_decide (default oldname staged_name ≠ oldname) = true) as Hdo.
  { apply orb_true_iff.
    destruct Hdiffers; [left | right]; by apply bool_decide_eq_true. }
  assert (file_exists w newfile && negb overwrite_existing = false) as Hgo.
  { unfold newfile, newpath.
    destruct Hfree as [->| ->]; [done | apply andb_false_r]. }
  unfold sync_row. rewrite Hpath, Hname, Hnewpath, Hnewname.
  unfold mbind, error_bind, mret, error_ret.
  fold newpath. fold newfile. rewrite Hdo. simpl andb. rewrite Hgo.
  unfold move_copy_or_symlink. rewrite Hsrc.
  rewrite (bool_decide_eq_false_2 (Move = Symlink)) by done.
  rewrite (bool_decide_eq_true_2 (Move = Move)) by done.
  set (d1 := loc_set_scalar _ ["_newpath"; "_newname"] None _).
  set (w1 := with_idx _ (with_disk _ w)).
  assert (disk w1 !! newfile = Some f) as Hdst by apply lookup_insert_eq.
  rewrite Hdst.
  assert (∀ w2 : world, idx w2 = idx w1 →
    Forall2 (λ x x', if bool_decide (file x = file r)
                     then moved_to newpath newfile x x'
                          ∧ (cell x "_PATH" = Some (VStr oldpath) →
                             newpath ≠ oldpath →
                             cell x' "_PATH" ≠ Some (VStr newpath))
                     else x' = x)
      (rows (df (idx w)))
      (rows (rename_index (file r) newfile
               (loc_set_scalar
                  (index_is (file r)
                     (loc_set_scalar (index_is (file r) (df (idx w2)))
                        ["_CHANGED"] (Some (VBool false)) (df (idx w2))))
                  ["_path"] (Some (VStr newpath))
                  (loc_set_scalar (index_is (file r) (df (idx w2)))
                     ["_CHANGED"] (Some (VBool false)) (df (idx w2))))))
    ∧ ∀ cols, cols = columns (rename_index (file r) newfile
               (loc_set_scalar
                  (index_is (file r)
                     (loc_set_scalar (index_is (file r) (df (idx w2)))
                        ["_CHANGED"] (Some (VBool false)) (df (idx w2))))
                  ["_path"] (Some (VStr newpath))
                  (loc_set_scalar (index_is (file r) (df (idx w2)))
                     ["_CHANGED"] (Some (VBool false)) (df (idx w2))))) →
        "_path" ∈ cols
        ∧ ("_path" ∉ columns (df (idx w)) →
           (∀ c, c ∈ ["_newpath"; "_newname"; "_CHANGED"] →
                 c ∈ columns (df (idx w))) →
           cols = columns (df (idx w)) ++ ["_path"])) as Hcore.
  { intros w2 ->. subst w1 d1. cbn [idx df with_idx with_df with_disk]. split.
    - rewrite rows_commit_move. apply Forall2_map_r. intros x _.
      destruct (bool_decide (file x = file r)); [|done].
      split; [apply moved_to_commit_move|].
      intros Hold Hne. destruct (moved_to_commit_move newpath newfile x)
        as (_ & -> & _). rewrite Hold. intros [= Heq]. by apply Hne.
    - intros cols ->. cbn [columns rename_index loc_set_scalar]. split.
      + apply elem_of_add_columns. right. left.
      + intros Hnew Hold.
        rewrite (add_columns_present ["_newpath"; "_newname"]).
        2:{ intros c Hc. apply Hold.
            apply elem_of_cons in Hc as [->|Hc]; [in_list|].
            apply elem_of_cons in Hc as [->|Hc]; [in_list|].
            by apply not_elem_of_nil in Hc. }
        rewrite (add_columns_present ["_CHANGED"]).
        2:{ intros c Hc. apply Hold.
            apply elem_of_cons in Hc as [->|Hc]; [in_list|].
            by apply not_elem_of_nil in Hc. }
        unfold add_columns. simpl. by rewrite filter_cons_True. }
  rewrite andb_false_r.
  destruct ((bool_decide (default oldname staged_name ≠ oldname)
             && save_oldname)
            || bool_decide (cell r "_CHANGED" = Some (VBool true))).
  - eexists. split; [reflexivity|].
    lazymatch goal with
    | |- context [with_idx _ ?x] => destruct (Hcore x eq_refl) as [HF HC]
    end.
    split; [exact HF | exact (HC _ eq_refl)].
  - eexists. split; [reflexivity|].
    destruct (Hcore w1 eq_refl) as [HF HC].
    split; [exact HF | exact (HC _ eq_refl)].
Qed.

Lemma sync_row_move_leaves_PATH_witness :
  ∃ w', sync_row "2022-03-02" Move false false
          (staged_row "/raw/b.fits" "/raw" "b.fits" "/sorted/M31" "m31_002.fits")
          two_staged = inr w'
    ∧ Forall2 (λ x x', if bool_decide (file x = "/raw/b.fits")
                       then moved_to "/sorted/M31" "/sorted/M31/m31_002.fits" x x'
                            ∧ (cell x "_PATH" = Some (VStr "/raw") →
                               "/sorted/M31" ≠ "/raw" →
                               cell x' "_PATH" ≠ Some (VStr "/sorted/M31"))
                       else x' = x)
        (rows (df (idx two_staged))) (rows (df (idx w')))
    ∧ "_path" ∈ columns (df (idx w'))
    ∧ ("_path" ∉ columns (df (idx two_staged)) →
       (∀ c, c ∈ ["_newpath"; "_newname"; "_CHANGED"] →
             c ∈ columns (df (idx two_staged))) →
       columns (df (idx w')) = columns (df (idx two_staged)) ++ ["_path"]).
Proof.
  apply (sync_row_move_leaves_PATH "2022-03-02" false false
           (staged_row "/raw/b.fits" "/raw" "b.fits" "/sorted/M31" "m31_002.fits")
           two_staged "/raw" "b.fits" (Some "/sorted/M31") (Some "m31_002.fits")
           m31_cards).
  - reflexivity.
  - reflexivity.
  - reflexivity.
  - reflexivity.
  - left. discriminate.
  - left. vm_compute. reflexivity.
  - vm_compute. reflexivity.
Defined.

(** ** Exact against fuzzy resolution *)

Lemma map_err_succeeds {A B : Type} (f : A → error + B) (l : list A) :
  (∀ x, x ∈ l → ∃ y, f x = inr y) → ∃ ys, map_err f l = inr ys.
Proof.
  induction l as [|x l IH]; intros H; simpl; [eauto|].
  destruct (H x) as [y Hy]; [left|]. rewrite Hy.
  destruct IH as [ys Hys]; [intros z Hz; apply H; by right|].
  rewrite Hys. by eexists.
Qed.

Lemma round_decimals_0_inject (n : Z) :
  round_decimals 0 (inject_Z n) = inject_Z n.
Proof.
  unfold round_decimals.
  change (pow10 0) with (inject_Z 1).
  rewrite round_half_even_inject_mul, Z.mul_1_r.
  unfold Qdiv, Qinv, Qmult; simpl. rewrite Z.mul_1_r.
  apply Qred_identity. simpl. apply Z.gcd_1_r.
Qed.

(** The rounded copy is the table with every row rounded. *)
Lemma derive_float_rows src dst f d d' :
  derive_float src dst f d = inr d' →
  columns d' = add_columns [dst] (columns d)
  ∧ Forall2 (λ r r', ∃ t, astype_float (cell r src) = inr t
                          ∧ r' = set_cell dst (f t) r)
      (rows d) (rows d').
Proof.
  unfold derive_float. intros H. err_simpl H.
  destruct (map_err _ (rows d)) as [e|rs] eqn:Hm; err_simpl H; [done|].
  injection H as <-. simpl. split; [done|].
  apply map_err_Forall2 in Hm.
  induction Hm as [|r r' l1 l2 Hr _ IH]; constructor; [|done].
  err_simpl Hr. destruct (astype_float (cell r src)) as [e|t]; [done|].
  injection Hr as <-. eauto.
Qed.

Lemma Forall2_compose {A B C : Type} (R : A → B → Prop) (S : B → C → Prop)
    (l : list A) (k : list B) (m : list C) :
  Forall2 R l k → Forall2 S k m →
  Forall2 (λ x z, ∃ y, R x y ∧ S y z) l m.
Proof.
  intros H. revert m. induction H as [|x y l k Hxy _ IH]; intros m Hm;
    inversion Hm; subst; constructor; eauto.
Qed.

Lemma rounded_copy_rows e t d d' :
  rounded_copy e t d = inr d' →
  Forall2 (λ r r', rounded_row e t r = inr r') (rows d) (rows d').
Proof.
  unfold rounded_copy. case_bool_decide; [done|]. intros Hc. err_simpl Hc.
  destruct (derive_float "EXPTIME" "EXPTIME" _ d) as [e1|d1] eqn:H1;
    err_simpl Hc; [done|].
  case_bool_decide; [done|].
  apply derive_float_rows in H1 as [_ H1].
  apply derive_float_rows in Hc as [_ H2].
  eapply Forall2_impl; [apply (Forall2_compose _ _ _ _ _ H1 H2)|].
  intros r r' (y & (te & Hte & ->) & (tt & Htt & ->)).
  rewrite cell_set_cell in Htt. simpl in Htt.
  unfold rounded_row. rewrite Hte, Htt. done.
Qed.

Lemma rounded_copy_succeeds d :
  "EXPTIME" ∈ columns d → "CCD-TEMP" ∈ columns d →
  whole_numbers d → ∃ d', rounded_copy 0 0 d = inr d'.
Proof.
  intros He Ht Hwhole. unfold rounded_copy.
  rewrite bool_decide_eq_false_2 by (intros Hn; by apply Hn).
  rewrite (bool_decide_eq_false_2 ("CCD-TEMP" ∉ columns d))
    by (intros Hn; by apply Hn).
  unfold derive_float at 2.
  destruct (map_err_succeeds
              (λ r, t ← astype_float (cell r "EXPTIME");
                    mret (set_cell "EXPTIME" (round_to 0 t) r)) (rows d))
    as [rs1 Hrs1].
  { intros r Hr. destruct (Hwhole r Hr) as (n & m & -> & _). by eexists. }
  rewrite Hrs1. err_simpl Hrs1. simpl.
  unfold derive_float. simpl.
  destruct (map_err_succeeds
              (λ r, t ← astype_float (cell r "CCD-TEMP");
                    mret (set_cell "_CCDTEMP" (round_to 0 t) r)) rs1)
    as [rs2 Hrs2].
  { intros r1 Hr1. apply map_err_Forall2 in Hrs1.
    destruct (Forall2_elem_of_r _ _ _ r1 Hrs1 Hr1) as (r & Hr & Hrr).
    destruct (Hwhole r Hr) as (n & m & Hn & Hm).
    rewrite Hn in Hrr. err_simpl Hrr. injection Hrr as <-.
    rewrite cell_set_cell. simpl. rewrite Hm. by eexists. }
  rewrite Hrs2. by eexists.
Qed.

Lemma app_unit_inj (s1 s2 : string) (c : ascii) :
  s1 +:+ String c "" = s2 +:+ String c "" → s1 = s2.
Proof.
  revert s2. induction s1 as [|a s1 IH]; intros [|b s2]; simpl; intros H.
  - done.
  - injection H as _ H. by destruct s2.
  - injection H as _ H. by destruct s1.
  - injection H as -> H. f_equal. by apply IH.
Qed.

Section FuzzyAtZero.
Variable d : frame.
Hypothesis Hwhole : whole_numbers d.
Hypothesis Hderived : ccdtemp_derived d.
Hypothesis Hoff : off_setpoints d.
Hypothesis Honce : exptime_written_once d.

(** A row of such a table: its two numbers, its temperature label, and
    its rounded copy. *)
Lemma regular_row (r : row) :
  r ∈ rows d →
  ∃ n m,
    astype_float (cell r "EXPTIME") = inr (Some (inject_Z n))
    ∧ astype_float (cell r "CCD-TEMP") = inr (Some (inject_Z m))
    ∧ cell r "_CCDTEMP" = Some (VStr (pretty m +:+ "C"))
    ∧ rounded_row 0 0 r
      = inr (set_cell "_CCDTEMP" (Some (VNum (inject_Z m)))
               (set_cell "EXPTIME" (Some (VNum (inject_Z n))) r)).
Proof.
  intros Hr. destruct (Hwhole r Hr) as (n & m & Hn & Hm).
  exists n, m. split; [done|]. split; [done|].
  destruct (Hoff r m Hr Hm) as (Hup & Hdown & Hrange).
  destruct (Hderived r Hr) as (s & Hs & Hcell).
  split.
  - rewrite Hcell. do 2 f_equal.
    unfold ccdtemp_of in Hs. rewrite Hm in Hs. err_simpl Hs.
    injection Hs as <-. f_equal.
    assert (normalize_temps (inject_Z m) = m) as ->.
    { unfold normalize_temps. rewrite round_half_even_inject.
      by rewrite !bool_decide_eq_false_2. }
    by apply format_g_whole.
  - unfold rounded_row. rewrite Hn, Hm. err_simpl Hn.
    unfold mbind, error_bind, mret, error_ret, round_to; simpl.
    by rewrite !round_decimals_0_inject.
Qed.

(** Two rows have the same cell in a column before rounding exactly when
    they have the same cell in it after rounding. *)
Lemma cells_agree (r1 r2 r1' r2' : row) (a : string) :
  r1 ∈ rows d → r2 ∈ rows d →
  rounded_row 0 0 r1 = inr r1' → rounded_row 0 0 r2 = inr r2' →
  cell r1 a = cell r2 a ↔ cell r1' a = cell r2' a.
Proof.
  intros H1 H2 Hr1 Hr2.
  destruct (regular_row r1 H1) as (n1 & m1 & Hn1 & Hm1 & Hc1 & Hf1).
  destruct (regular_row r2 H2) as (n2 & m2 & Hn2 & Hm2 & Hc2 & Hf2).
  rewrite Hf1 in Hr1. rewrite Hf2 in Hr2.
  injection Hr1 as <-. injection Hr2 as <-.
  rewrite !cell_set_cell.
  destruct (decide ("_CCDTEMP" = a)) as [<-|Hne1].
  - rewrite Hc1, Hc2. split.
    + intros [= Heq]. apply app_unit_inj in Heq.
      by apply (inj pretty) in Heq as ->.
    + by intros [= ->].
  - destruct (decide ("EXPTIME" = a)) as [<-|Hne2]; [|done].
    split.
    + intros Heq. rewrite Heq, Hn2 in Hn1. by injection Hn1 as ->.
    + intros [= ->]. apply Honce; [done..|]. by rewrite Hn1, Hn2.
Qed.

Lemma combos_agree (r1 r2 r1' r2' : row) (c_attrs : list string) :
  r1 ∈ rows d → r2 ∈ rows d →
  rounded_row 0 0 r1 = inr r1' → rounded_row 0 0 r2 = inr r2' →
  project c_attrs r1 = project c_attrs r2
  ↔ project c_attrs r1' = project c_attrs r2'.
Proof.
  intros H1 H2 Hr1 Hr2. unfold project.
  induction c_attrs as [|a c_attrs IH]; simpl; [done|].
  pose proof (cells_agree r1 r2 r1' r2' a H1 H2 Hr1 Hr2) as Ha.
  split; intros [= Hc Hrest]; f_equal; tauto.
Qed.

Lemma complete_agree (r r' : row) (c_attrs : list string) :
  r ∈ rows d → rounded_row 0 0 r = inr r' →
  complete (project c_attrs r) = complete (project c_attrs r').
Proof.
  intros Hr Hrr.
  destruct (regular_row r Hr) as (n & m & Hn & Hm & Hc & Hf).
  rewrite Hf in Hrr. injection Hrr as <-.
  unfold complete, project.
  induction c_attrs as [|a c_attrs IH]; simpl; [done|].
  rewrite IH. f_equal. rewrite !cell_set_cell.
  destruct (decide ("_CCDTEMP" = a)) as [<-|]; [by rewrite Hc|].
  destruct (decide ("EXPTIME" = a)) as [<-|]; [|done].
  destruct (cell r "EXPTIME"); [done|]. simpl in Hn. done.
Qed.

Lemma imagetyp_agree (r r' : row) :
  r ∈ rows d → rounded_row 0 0 r = inr r' →
  cell r' "_IMAGETYP" = cell r "_IMAGETYP".
Proof.
  intros Hr Hrr.
  destruct (regular_row r Hr) as (n & m & Hn & Hm & Hc & Hf).
  rewrite Hf in Hrr. injection Hrr as <-. by rewrite !cell_set_cell.
Qed.
End FuzzyAtZero.

Lemma rounded_copy_columns e t d d' c :
  rounded_copy e t d = inr d' → c ∈ columns d → c ∈ columns d'.
Proof.
  unfold rounded_copy. case_bool_decide; [done|]. intros Hc Hin. err_simpl Hc.
  destruct (derive_float "EXPTIME" "EXPTIME" _ d) as [e1|d1] eqn:H1;
    err_simpl Hc; [done|].
  case_bool_decide; [done|].
  apply derive_float_rows in H1 as [H1 _].
  apply derive_float_rows in Hc as [H2 _].
  rewrite H2, H1, !elem_of_add_columns. auto.
Qed.

Lemma type_agree (ts : list string) (t : string) (r r' : row) :
  cell r' "_IMAGETYP" = cell r "_IMAGETYP" →
  has_type t r' = has_type t r ∧ type_in ts r' = type_in ts r.
Proof.
  intros Hc.
  assert (∀ t', has_type t' r' = has_type t' r) as Hty
    by (intros t'; unfold has_type; by rewrite Hc).
  split; [done|]. unfold type_in.
  induction ts as [|t' ts IH]; simpl; [done|]. by rewrite Hty, IH.
Qed.

(** C3 (as the code has it).  On a table built by the constructor in which
    exposure time and CCD temperature hold whole numbers, no temperature is
    exactly one degree away from a normal setpoint (and all are below a
    million in size), and equal exposure times are written with the same
    header string, exact resolution and fuzzy resolution at tolerance 0
    both return a result, and every masked target frame's combination has
    the same status, Available or Missing, in the two results.  (The
    combinations themselves differ in form: the fuzzy result carries the
    rounded numbers where the exact one carries the header string and the
    temperature label.) *)
Theorem fuzzy_at_zero_agrees_off_setpoints
    (i : Index) (c_type : string) (c_data : calib)
    (Hcfg : calibration (config i) !! normalize_type c_type = Some c_data)
    (Hty : "_IMAGETYP" ∈ columns (df i))
    (Hexp : "EXPTIME" ∈ columns (df i))
    (Htemp : "CCD-TEMP" ∈ columns (df i))
    (Hcols : ∀ a, a ∈ attrs c_data → a ∈ columns (df i))
    (Hne : attrs c_data ≠ [])
    (Hwhole : whole_numbers (df i))
    (Hderived : ccdtemp_derived (df i))
    (Hoff : off_setpoints (df i))
    (Honce : exptime_written_once (df i)) :
  (∃ res res2, calibration_frames c_type i = inr res
               ∧ calibration_frames2 c_type 0 0 i = inr res2)
  ∧ same_classification i c_type c_data.
Proof.
  destruct (rounded_copy_succeeds (df i) Hexp Htemp Hwhole) as [d2 Hd2].
  pose proof (rounded_copy_rows 0 0 (df i) d2 Hd2) as Hrows.
  destruct (resolve_succeeds (normalize_type c_type) c_data (rowmask i) (df i))
    as [res Hres]; [done..|].
  destruct (resolve_succeeds (normalize_type c_type) c_data (rowmask i) d2)
    as [res2 Hres2];
    [by eapply rounded_copy_columns
    |intros a Ha; eapply rounded_copy_columns; eauto | done |].
  assert (calibration_frames c_type i = inr res) as Hexact
    by (unfold calibration_frames; by rewrite Hcfg).
  assert (calibration_frames2 c_type 0 0 i = inr res2) as Hfuzzy
    by (unfold calibration_frames2; rewrite Hcfg, Hd2; exact Hres2).
  split; [eauto|].
  intros res' res2' Hres' Hres2' r r2 st Hr Htype Hround.
  rewrite Hexact in Hres'. injection Hres' as <-.
  rewrite Hfuzzy in Hres2'. injection Hres2' as <-.
  rewrite (resolve_statuses _ _ _ _ _ _ _ Hres).
  rewrite (resolve_statuses _ _ _ _ _ _ _ Hres2).
  assert (r ∈ rows (df i)) as Hrin by by eapply elem_of_select.
  rewrite <- (complete_agree (df i) Hwhole Hderived Hoff r r2 _ Hrin Hround).
  assert (project (attrs c_data) r
          ∈ map (project (attrs c_data))
              (filter (λ r, type_in (targets c_data) r)
                 (select (rowmask i) (rows (df i))))) as HT.
  { apply elem_of_map. exists r. split; [done|].
    apply list_elem_of_filter. by rewrite Htype. }
  assert (project (attrs c_data) r2
          ∈ map (project (attrs c_data))
              (filter (λ r, type_in (targets c_data) r)
                 (select (rowmask i) (rows d2)))) as HT2.
  { apply elem_of_map. exists r2. split; [done|].
    apply list_elem_of_filter.
    destruct (Forall2_elem_of_l _ _ _ r
                (Forall2_select _ (rowmask i) _ _ Hrows) Hr) as (y & Hy & Hry).
    assert (y = r2) as -> by congruence. split; [|done].
    destruct (type_agree (targets c_data) "" r r2) as [_ ->]; [|by rewrite Htype].
    by eapply imagetyp_agree. }
  rewrite (bool_decide_ext
             (project (attrs c_data) r2 ∈ map (project (attrs c_data))
                (filter (λ r, has_type (normalize_type c_type) r) (rows d2)))
             (project (attrs c_data) r ∈ map (project (attrs c_data))
                (filter (λ r, has_type (normalize_type c_type) r)
                   (rows (df i))))).
  { tauto. }
  rewrite !elem_of_map. split.
  - intros (x' & Hc & [Hx' Hin']%list_elem_of_filter).
    destruct (Forall2_elem_of_r _ _ _ x' Hrows Hin') as (x & Hx & Hxx).
    exists x. split.
    + by apply (combos_agree (df i) Hwhole Hderived Hoff Honce r x r2 x').
    + apply list_elem_of_filter. split; [|done].
      destruct (type_agree [] (normalize_type c_type) x x') as [<- _]; [|done].
      by eapply imagetyp_agree.
  - intros (x & Hc & [Hxt Hin]%list_elem_of_filter).
    destruct (Forall2_elem_of_l _ _ _ x Hrows Hin) as (x' & Hx' & Hxx).
    exists x'. split.
    + by apply (combos_agree (df i) Hwhole Hderived Hoff Honce r x r2 x').
    + apply list_elem_of_filter. split; [|done].
      destruct (type_agree [] (normalize_type c_type) x x') as [-> _]; [|done].
      by eapply imagetyp_agree.
Qed.

(** The executable checks are sound. *)
Lemma forallb_elem_of {A : Type} (p : A → bool) (l : list A) (x : A) :
  forallb p l = true → x ∈ l → p x = true.
Proof.
  intros H Hx. apply list_elem_of_In in Hx.
  by apply (proj1 (forallb_forall p l) H).
Qed.

Lemma whole_of_Some (c : option value) (n : Z) :
  whole_of c = Some n → astype_float c = inr (Some (inject_Z n)).
Proof.
  unfold whole_of. destruct (astype_float c) as [e|[q|]]; try done.
  case_bool_decide as Hq; [|done]. intros [= <-]. by rewrite <- Hq.
Qed.

Lemma check_whole_numbers_sound (d : frame) :
  check_whole_numbers d = true → whole_numbers d.
Proof.
  intros H r Hr. apply (forallb_elem_of _ _ r H) in Hr.
  apply bool_decide_eq_true in Hr as [[n Hn] [m Hm]].
  exists n, m. split; by apply whole_of_Some.
Qed.

Lemma check_ccdtemp_derived_sound (d : frame) :
  check_ccdtemp_derived d = true → ccdtemp_derived d.
Proof.
  intros H r Hr. apply (forallb_elem_of _ _ r H) in Hr.
  destruct (ccdtemp_of (cell r "CCD-TEMP")) as [e|s]; [done|].
  apply bool_decide_eq_true in Hr. eauto.
Qed.

Lemma check_off_setpoints_sound (d : frame) :
  check_off_setpoints d = true → off_setpoints d.
Proof.
  intros H r m Hr Hm. apply (forallb_elem_of _ _ r H) in Hr.
  rewrite Hm in Hr. by apply bool_decide_eq_true in Hr.
Qed.

Lemma check_exptime_written_once_sound (d : frame) :
  check_exptime_written_once d = true → exptime_written_once d.
Proof.
  intros H r1 r2 H1 H2. apply (forallb_elem_of _ _ r1 H) in H1.
  apply (forallb_elem_of _ _ r2 H1) in H2.
  by apply bool_decide_eq_true in H2.
Qed.

Lemma fuzzy_at_zero_agrees_off_setpoints_witness :
  (∃ res res2, calibration_frames "dark" light_on_setpoint = inr res
               ∧ calibration_frames2 "dark" 0 0 light_on_setpoint = inr res2)
  ∧ same_classification light_on_setpoint "dark" (Calib ["_CCDTEMP"] ["light"]).
Proof.
  apply (fuzzy_at_zero_agrees_off_setpoints light_on_setpoint "dark"
           (Calib ["_CCDTEMP"] ["light"])).
  - reflexivity.
  - by_eval.
  - by_eval.
  - by_eval.
  - change (["_CCDTEMP"] ⊆ columns (df light_on_setpoint)). by_eval.
  - discriminate.
  - apply check_whole_numbers_sound. vm_compute. reflexivity.
  - apply check_ccdtemp_derived_sound. vm_compute. reflexivity.
  - apply check_off_setpoints_sound. vm_compute. reflexivity.
  - apply check_exptime_written_once_sound. vm_compute. reflexivity.
Defined.

(** C3 as the specification states it fails one degree away from a
    setpoint: the light frame at -9 and the dark at -10 hold whole numbers,
    both carry the label "-10C", so the exact resolution finds the dark
    Available, while the fuzzy resolution at tolerance 0 compares -9 with
    -10 and reports the combination Missing. *)
Lemma fuzzy_at_zero_differs_near_setpoint :
  whole_numbers (df light_near_setpoint)
  ∧ ccdtemp_derived (df light_near_setpoint)
  ∧ (calibration_frames "dark" light_near_setpoint ≫= λ res,
       mret (statuses res))
    = inr [([Some (VStr "-10C")], Available)]
  ∧ (calibration_frames2 "dark" 0 0 light_near_setpoint ≫= λ res,
       mret (statuses res))
    = inr [([Some (VNum (-9))], Missing)]
  ∧ ¬ same_classification light_near_setpoint "dark"
        (Calib ["_CCDTEMP"] ["light"]).
Proof.
  split; [apply check_whole_numbers_sound; by vm_compute|].
  split; [apply check_ccdtemp_derived_sound; by vm_compute|].
  split; [by vm_compute|]. split; [by vm_compute|].
  intros Hsame.
  assert (∃ res res2 r r2,
            calibration_frames "dark" light_near_setpoint = inr res
            ∧ calibration_frames2 "dark" 0 0 light_near_setpoint = inr res2
            ∧ rows (df light_near_setpoint) !! 0%nat = Some r
            ∧ rounded_row 0 0 r = inr r2
            ∧ r ∈ select (rowmask light_near_setpoint)
                    (rows (df light_near_setpoint))
            ∧ type_in ["light"] r = true
            ∧ (project ["_CCDTEMP"] r, Available) ∈ statuses res
            ∧ (project ["_CCDTEMP"] r2, Available) ∉ statuses res2)
    as (res & res2 & r & r2 & H1 & H2 & _ & Hr2 & Hr & Ht & Hin & Hnot).
  { do 4 eexists. split; [vm_compute; reflexivity|].
    split; [vm_compute; reflexivity|].
    split; [vm_compute; reflexivity|].
    split; [vm_compute; reflexivity|].
    split; [by_eval|]. split; [by vm_compute|].
    split; by_eval. }
  apply Hnot. by apply (Hsame res res2 H1 H2 r r2 Available Hr Ht Hr2).
Qed.

(** ** Header triples to table *)

Lemma file_pivot_row (kept : list card) (f : string) :
  file (pivot_row kept f) = f.
Proof. done. Qed.

Lemma pivot_cells_NoDup (kept : list card) (f : string) :
  NoDup (map fst kept) →
  NoDup (map fst
           (omap (λ h, if bool_decide (card_file h = f)
                       then Some (card_attr h, VStr (card_value h))
                       else None) kept)).
Proof.
  induction kept as [|h kept IH]; simpl; [constructor|].
  intros [Hh Hk]%NoDup_cons. specialize (IH Hk).
  case_bool_decide as Hf; [|done]. simpl. apply NoDup_cons. split; [|done].
  intros Hin. apply Hh.
  apply list_elem_of_fmap in Hin as [[a v] [Ha Hin]]. simpl in Ha.
  apply list_elem_of_omap in Hin as [h' [Hh' Heq]].
  case_bool_decide as Hf'; [|done]. injection Heq as Ha' _.
  apply list_elem_of_fmap. exists h'. split; [|done].
  destruct h as [[hf ha] hv], h' as [[hf' ha'] hv'].
  unfold card_file, card_attr in *. simpl in *. congruence.
Qed.

Lemma pivot_cell (kept : list card) (f a : string) (v : value) :
  NoDup (map fst kept) →
  cell (pivot_row kept f) a = Some v
  ↔ ∃ s, v = VStr s ∧ (f, a, s) ∈ kept.
Proof.
  intros Hnd. unfold cell, pivot_row. simpl.
  rewrite <- elem_of_list_to_map by by apply pivot_cells_NoDup.
  rewrite list_elem_of_omap. split.
  - intros [[[hf ha] hv] [Hin Heq]].
    unfold card_file, card_attr, card_value in Heq. simpl in Heq.
    case_bool_decide as Hf; [|done]. injection Heq as <- <-. subst hf.
    by exists hv.
  - intros [s [-> Hin]]. exists (f, a, s). split; [done|].
    unfold card_file, card_attr, card_value. simpl.
    by rewrite bool_decide_eq_true_2.
Qed.

(** X1.  When the table is built from header cards, its rows are keyed by
    file without repetition, in sorted order, and a cell holds a value
    exactly when some card of that file with that keyword carries it and
    the keyword is not COMMENT, HISTORY or NOTE; every other cell is
    missing. *)
Theorem headers_to_df_lookup (headers : list card) (d : frame)
    (Hd : headers_to_df headers = inr d) :
  NoDup (map file (rows d))
  ∧ StronglySorted String.le (map file (rows d))
  ∧ ∀ f a v,
      (∃ r, r ∈ rows d ∧ file r = f ∧ cell r a = Some v)
      ↔ (∃ s, v = VStr s ∧ (f, a, s) ∈ headers ∧ a ∉ free_text_attrs).
Proof.
  unfold headers_to_df in Hd.
  set (kept := filter (λ h, card_attr h ∉ free_text_attrs) headers) in *.
  case_bool_decide as Hnd; [|done]. injection Hd as <-. simpl.
  set (files := merge_sort String.le (unique (map card_file kept))).
  assert (map file (map (pivot_row kept) files) = files) as Hfiles.
  { rewrite map_map. apply map_id. }
  rewrite Hfiles. split; [|split].
  - unfold files. rewrite merge_sort_Permutation. apply NoDup_unique.
  - apply StronglySorted_merge_sort; apply _.
  - intros f a v. split.
    + intros (r & Hr & <- & Hc).
      apply elem_of_map in Hr as [f [-> _]]. simpl.
      apply pivot_cell in Hc as [s [-> Hin]]; [|done].
      exists s. split; [done|].
      apply list_elem_of_filter in Hin as [Ha Hin]. done.
    + intros (s & -> & Hin & Ha).
      assert ((f, a, s) ∈ kept) as Hk by by apply list_elem_of_filter.
      exists (pivot_row kept f). split; [|split; [done|]].
      * apply elem_of_map. exists f. split; [done|].
        apply elem_of_merge_sort, elem_of_unique, elem_of_map.
        by exists (f, a, s).
      * apply pivot_cell; [done|]. by exists s.
Qed.

Lemma headers_to_df_lookup_witness :
  ∃ d, headers_to_df
         [ ("/raw/b.fits", "OBJECT", "M31"); ("/raw/b.fits", "COMMENT", "x");
           ("/raw/a.fits", "EXPTIME", "120"); ("/raw/b.fits", "COMMENT", "y") ]
       = inr d
       ∧ NoDup (map file (rows d))
       ∧ map file (rows d) = ["/raw/a.fits"; "/raw/b.fits"].
Proof.
  eexists. split; [vm_compute; reflexivity|]. split; [|reflexivity].
  refine (proj1 (headers_to_df_lookup
    [ ("/raw/b.fits", "OBJECT", "M31"); ("/raw/b.fits", "COMMENT", "x");
      ("/raw/a.fits", "EXPTIME", "120"); ("/raw/b.fits", "COMMENT", "y") ]
    _ _)).
  vm_compute. reflexivity.
Defined.

Lemma filter_free_text_idemp (headers : list card) :
  filter (λ h, card_attr h ∉ free_text_attrs)
         (filter (λ h, card_attr h ∉ free_text_attrs) headers)
  = filter (λ h, card_attr h ∉ free_text_attrs) headers.
Proof.
  apply filter_all. intros h Hh. by apply list_elem_of_filter in Hh as [? _].
Qed.

(** X2.  A keyword that occurs twice for one file makes the construction of
    the table fail with pivot's ValueError, whatever the two values are,
    unless it is COMMENT, HISTORY or NOTE: cards with these keywords play
    no part at all, the table is that of the remaining cards. *)
Theorem headers_to_df_repeated_keyword
    (hs1 hs2 hs3 : list card) (f a v1 v2 : string)
    (Ha : a ∉ free_text_attrs) :
  headers_to_df (hs1 ++ (f, a, v1) :: hs2 ++ (f, a, v2) :: hs3)
  = inl (ValueError "Index contains duplicate entries, cannot reshape")
  ∧ ∀ headers,
      headers_to_df headers
      = headers_to_df (filter (λ h, card_attr h ∉ free_text_attrs) headers).
Proof.
  split.
  - unfold headers_to_df.
    rewrite bool_decide_eq_false_2; [done|].
    rewrite filter_app, filter_cons_True by done.
    rewrite filter_app, filter_cons_True by done.
    rewrite fmap_app, fmap_cons, fmap_app, fmap_cons. simpl.
    intros [_ [_ Hnd]]%NoDup_app.
    apply NoDup_cons in Hnd as [Hin _]. apply Hin.
    apply elem_of_app. right. left.
  - intros headers. unfold headers_to_df.
    by rewrite filter_free_text_idemp.
Qed.

Lemma headers_to_df_repeated_keyword_witness :
  headers_to_df [ ("/raw/a.fits", "OBJECT", "M31");
                  ("/raw/a.fits", "COMMENT", "first light");
                  ("/raw/a.fits", "OBJECT", "M31") ]
  = inl (ValueError "Index contains duplicate entries, cannot reshape").
Proof.
  apply (headers_to_df_repeated_keyword []
           [("/raw/a.fits", "COMMENT", "first light")] []
           "/raw/a.fits" "OBJECT" "M31" "M31").
  unfold free_text_attrs. intros Hin.
  repeat (apply elem_of_cons in Hin as [Hin|Hin]; [discriminate|]).
  by apply not_elem_of_nil in Hin.
Defined.

(** ** Attribute selection *)

Lemma filter_length_lt_iff {A : Type} (P : A → Prop) `{∀ x, Decision (P x)}
    (l : list A) :
  (length (filter P l) < length l)%nat ↔ ∃ x, x ∈ l ∧ ¬ P x.
Proof.
  induction l as [|x l IH]; simpl.
  - split; [lia|]. intros [x [Hx _]]. by apply not_elem_of_nil in Hx.
  - pose proof (length_filter P l) as Hle.
    destruct (decide (P x)) as [Hp|Hp].
    + rewrite filter_cons_True by done. simpl.
      rewrite <- Nat.succ_lt_mono, IH. split.
      * intros [y [Hy Hn]]. exists y. split; [by right | done].
      * intros [y [Hy Hn]]. exists y. split; [|done].
        apply elem_of_cons in Hy as [->|Hy]; done.
    + rewrite filter_cons_False by done. split; [|lia].
      intros _. exists x. split; [left | done].
Qed.

(** X3.  The attribute selection that is installed is the requested list
    without repetitions and without the names that are not columns, in the
    order of first request; the warning about skipped attributes is given
    exactly when some requested name is not a column, the other one
    exactly when nothing is left; the table and the row mask are not
    touched, and installing the installed list again changes nothing. *)
Theorem set_selected_attrs_normalises (new_attrs : list string) (i : Index) :
  let i' := (set_selected_attrs new_attrs i).1 in
  let ws := (set_selected_attrs new_attrs i).2 in
  NoDup (selected_attrs i')
  ∧ (∀ a, a ∈ selected_attrs i' ↔ a ∈ new_attrs ∧ a ∈ columns (df i))
  ∧ selected_attrs i' `sublist_of` unique new_attrs
  ∧ ((∃ skipped, AttrsSkipped skipped ∈ ws)
     ↔ ∃ a, a ∈ new_attrs ∧ a ∉ columns (df i))
  ∧ (NoAttrsSelected ∈ ws ↔ selected_attrs i' = [])
  ∧ df i' = df i ∧ rowmask i' = rowmask i
  ∧ (set_selected_attrs (selected_attrs i') i').1 = i'.
Proof.
  intros i' ws. subst i' ws. unfold set_selected_attrs. simpl.
  set (sel := filter (λ a, a ∈ columns (df i)) (unique new_attrs)).
  assert (NoDup sel) as Hnd by (apply NoDup_filter, NoDup_unique).
  split; [done|]. split; [|split; [apply sublist_filter|]].
  { intros a. unfold sel. rewrite list_elem_of_filter, elem_of_unique. tauto. }
  split; [|split; [|split; [done|split; [done|]]]].
  - assert ((length sel < length (unique new_attrs))%nat
            ↔ ∃ a, a ∈ new_attrs ∧ a ∉ columns (df i)) as Hskip.
    { unfold sel. rewrite filter_length_lt_iff.
      split; intros [a [Ha Hn]]; exists a; (split; [|done]);
        by apply elem_of_unique. }
    rewrite <- Hskip. case_bool_decide as Hlt.
    + split; [done|]. intros _. eexists. apply elem_of_app. left. left.
    + split; [|done]. intros [sk Hin].
      apply elem_of_app in Hin as [Hin|Hin].
      { by apply not_elem_of_nil in Hin. }
      case_bool_decide; [|by apply not_elem_of_nil in Hin].
      apply elem_of_cons in Hin as [?|Hin]; [done|].
      by apply not_elem_of_nil in Hin.
  - assert (NoAttrsSelected
            ∈ (if bool_decide (length sel = 0%nat)
               then [NoAttrsSelected] else [])
            ↔ sel = []) as Hnone.
    { case_bool_decide as Hz.
      - split; [intros _; by apply nil_length_inv | intros _; left].
      - split; [by intros ?%not_elem_of_nil|].
        intros Hnil. by rewrite Hnil in Hz. }
    rewrite elem_of_app, Hnone. split; [|by right].
    intros [Hin|?]; [|done].
    case_bool_decide; [|by apply not_elem_of_nil in Hin].
    apply elem_of_cons in Hin as [?|Hin]; [done|].
    by apply not_elem_of_nil in Hin.
  - unfold with_selected_attrs. simpl. f_equal.
    rewrite unique_NoDup by done. apply filter_all.
    intros a Ha. unfold sel in Ha.
    by apply list_elem_of_filter in Ha as [? _].
Qed.

Lemma StronglySorted_filter {A : Type} (R : relation A) (P : A → Prop)
    `{∀ x, Decision (P x)} (l : list A) :
  StronglySorted R l → StronglySorted R (filter P l).
Proof.
  induction 1 as [|x l Hl IH Hx]; [constructor|].
  destruct (decide (P x)).
  - rewrite filter_cons_True by done. constructor; [done|].
    apply Forall_forall. intros y Hy.
    apply list_elem_of_filter in Hy as [_ Hy].
    by eapply Forall_forall in Hx.
  - by rewrite filter_cons_False.
Qed.

(** X4.  The attribute list offered for choosing holds every column of the
    table and nothing else; when neither the defaults nor the columns
    repeat a name it holds every column exactly once, the defaults that are
    columns first, in the order given, and the other columns after them in
    sorted order. *)
Theorem all_attrs_each_column_once (defaults : list string) (i : Index)
    (Hd : NoDup defaults) (Hc : NoDup (columns (df i))) :
  all_attrs defaults i ≡ₚ columns (df i)
  ∧ ∃ rest,
      all_attrs defaults i
      = filter (λ a, a ∈ columns (df i)) defaults ++ rest
      ∧ StronglySorted String.le rest
      ∧ ∀ a, a ∈ rest ↔ a ∈ columns (df i) ∧ a ∉ defaults.
Proof.
  unfold all_attrs.
  set (all := merge_sort String.le (columns (df i))).
  assert (∀ a, a ∈ all ↔ a ∈ columns (df i)) as Hall
    by (intros a; apply elem_of_merge_sort).
  assert (filter (λ a, a ∈ all) defaults
          = filter (λ a, a ∈ columns (df i)) defaults) as Hp
    by (apply filter_ext_elem; intros a _; apply Hall).
  rewrite Hp. set (present := filter (λ a, a ∈ columns (df i)) defaults).
  assert (∀ a, a ∈ filter (λ a, a ∉ present) all
               ↔ a ∈ columns (df i) ∧ a ∉ defaults) as Hrest.
  { intros a. rewrite list_elem_of_filter, Hall. unfold present.
    rewrite list_elem_of_filter. tauto. }
  split.
  - apply NoDup_Permutation; [|done|].
    + apply NoDup_app. split; [by apply NoDup_filter|]. split.
      * intros a Ha Hin. apply Hrest in Hin as [_ Hn]. apply Hn.
        unfold present in Ha. by apply list_elem_of_filter in Ha as [_ ?].
      * apply NoDup_filter. unfold all. by rewrite merge_sort_Permutation.
    + intros a. rewrite elem_of_app, Hrest. unfold present.
      rewrite list_elem_of_filter.
      destruct (decide (a ∈ defaults)); tauto.
  - eexists. split; [done|]. split; [|done].
    apply StronglySorted_filter, StronglySorted_merge_sort; apply _.
Qed.

Lemma all_attrs_each_column_once_witness :
  all_attrs ["_CCDTEMP"; "OBJECT"] light_and_darks
  ≡ₚ ["_IMAGETYP"; "_CCDTEMP"; "_BINNING"]
  ∧ all_attrs ["_CCDTEMP"; "OBJECT"] light_and_darks
    = ["_CCDTEMP"; "_BINNING"; "_IMAGETYP"].
Proof.
  split; [|vm_compute; reflexivity].
  apply (all_attrs_each_column_once ["_CCDTEMP"; "OBJECT"] light_and_darks).
  - by_eval.
  - by_eval.
Defined.

(** ** The stack of earlier row masks *)

Lemma foldl_after_set_rowmask (masks : list (list bool)) (i : Index) :
  ∃ m, foldl (λ j m, after_set_rowmask m j) i masks = with_rowmask m i.
Proof.
  revert i. induction masks as [|m masks IH]; intros i; simpl.
  - exists (rowmask i). by destruct i.
  - destruct (IH (after_set_rowmask m i)) as [m' ->].
    unfold after_set_rowmask, set_rowmask.
    case_bool_decide; simpl; [|by exists m'].
    by exists m'.
Qed.

(** X5.  A stashed selection comes back whole: after the mask is stashed,
    whatever masks are assigned or refused afterwards, taking the prior
    selection restores the index to what it was before the stash, stack
    included; declining leaves the index as it is; and with nothing
    stashed the action fails. *)
Theorem iuse_prev_rowmask_restores (i : Index) (masks : list (list bool)) :
  let later := foldl (λ j m, after_set_rowmask m j) (stash_rowmask i) masks in
  iuse_prev_rowmask true later = Some i
  ∧ iuse_prev_rowmask false later = Some later
  ∧ ∀ confirm j, prev_rowmasks j = [] → iuse_prev_rowmask confirm j = None.
Proof.
  intros later. subst later.
  destruct (foldl_after_set_rowmask masks (stash_rowmask i)) as [m ->].
  unfold iuse_prev_rowmask, stash_rowmask. simpl.
  rewrite last_snoc. simpl. rewrite removelast_last.
  split; [by destruct i|]. split; [done|].
  intros confirm j ->. done.
Qed.

Lemma length_isin (keys : list string) (d : frame) :
  length (isin keys d) = length (rows d).
Proof. unfold isin. apply length_map. Qed.

Lemma length_map_mask {A : Type} (f : A → A) (mask : list bool) (l : list A) :
  length (map_mask f mask l) = length l.
Proof.
  revert mask. induction l as [|x l IH]; intros [|b mask]; simpl; auto.
Qed.

Lemma rows_update_changed_vec mask files d d' :
  update_changed_vec mask files d = inr d' →
  ∃ m, length m = length (rows d)
       ∧ rows d' = zip_with (λ b r, set_cell "_CHANGED"
                                      (Some (VBool (b || dirty r))) r)
                     m (rows d)
       ∧ (∀ m0, mask = Some m0 → m = m0)
       ∧ (∀ fs, mask = None → files = Some fs → m = isin fs d).
Proof.
  unfold update_changed_vec. intros H.
  destruct (match mask with Some _ => _ | None => _ end) as [e|m] eqn:Hm;
    err_simpl H; [done|].
  case_bool_decide; [done|]. injection H as <-. exists m.
  assert (length m = length (rows d)) as Hlen.
  { destruct mask as [m0|]; [|destruct files as [fs|]]; [| |done].
    - case_bool_decide; [|done]. by injection Hm as <-.
    - injection Hm as <-. apply length_isin. }
  split; [done|]. split; [|split].
  - unfold assign_list. simpl.
    clear Hm. revert m Hlen. induction (rows d) as [|r rs IH];
      intros [|b m] Hlen; simpl in *; try done.
    f_equal. apply IH. lia.
  - intros m0 ->. case_bool_decide; [|done]. by injection Hm.
  - intros fs -> ->. by injection Hm.
Qed.

Lemma length_rows_change_attr attr v i i' :
  change_attr attr v i = inr i' →
  length (rows (df i')) = length (rows (df i))
  ∧ rowmask i' = rowmask i ∧ prev_rowmasks i' = prev_rowmasks i.
Proof.
  unfold change_attr. intros H.
  case_bool_decide as Hlen; [done|].
  destruct (if bool_decide (attr ∈ columns (df i)) then _ else _)
    as [d0 cv] eqn:Hd0.
  assert (length (rows d0) = length (rows (df i))) as Hl0.
  { case_bool_decide; injection Hd0 as <- _; [done|].
    simpl. apply length_map. }
  destruct (update_changed_vec _ _ _) as [e|d2] eqn:Hu; err_simpl H; [done|].
  apply rows_update_changed_vec in Hu as (m & Hm & Hrows & _).
  simpl in Hm. rewrite length_map_mask in Hm.
  assert (length (rows d2) = length (rows (df i))) as Hl2.
  { rewrite Hrows, length_zip_with. simpl. rewrite length_map_mask. lia. }
  injection H as <-.
  destruct (bool_decide (attr ∉ selected_attrs i)); simpl; auto.
Qed.

(** X6.  Every mask the index holds, the current one and the stashed ones,
    keeps one entry per row under the operations that install masks or
    edit attribute values: the mask setter, the reset, the stash, the
    return to a prior selection (which goes round the setter's check), the
    selection setter and the change of an attribute. *)
Theorem masks_fit_preserved (i : Index) (Hfit : masks_fit i) :
  (∀ m i' ws, set_rowmask m i = inr (i', ws) → masks_fit i')
  ∧ masks_fit (reset_rowmask i)
  ∧ masks_fit (stash_rowmask i)
  ∧ (∀ confirm i', iuse_prev_rowmask confirm i = Some i' → masks_fit i')
  ∧ (∀ sel i' ws, set_selection sel i = inr (i', ws) → masks_fit i')
  ∧ (∀ attr v i', change_attr attr v i = inr i' → masks_fit i').
Proof.
  destruct Hfit as [Hm Hp].
  assert (∀ m i' ws, set_rowmask m i = inr (i', ws) → masks_fit i') as Hset.
  { intros m i' ws. unfold set_rowmask. case_bool_decide as Hlen; [|done].
    intros [= <- _]. split; simpl; done. }
  split; [done|]. split; [|split; [|split; [|split]]].
  - split; simpl; [apply length_map | done].
  - split; simpl; [done|]. apply Forall_app. split; [done|].
    by apply Forall_singleton.
  - intros confirm i'. unfold iuse_prev_rowmask.
    destruct (last (prev_rowmasks i)) as [m0|] eqn:Hlast; [|done]. simpl.
    destruct confirm; intros [= <-]; [|by split].
    apply last_Some in Hlast as [ms Hprev].
    rewrite Hprev in Hp |- *. rewrite removelast_last.
    apply Forall_app in Hp as [Hms Hm0]. rewrite Forall_singleton in Hm0.
    by split.
  - intros sel i' ws. unfold set_selection. intros H.
    destruct (set_rowmask _ i) as [e|[i1 w1]] eqn:Hs; err_simpl H; [done|].
    apply Hset in Hs. injection H as <- _. exact Hs.
  - intros attr v i' H.
    apply length_rows_change_attr in H as (Hl & Hr & Hq).
    split; rewrite ?Hl, ?Hr, ?Hq; done.
Qed.

Lemma masks_fit_preserved_witness :
  masks_fit (stash_rowmask light_and_darks)
  ∧ masks_fit (reset_rowmask light_and_darks).
Proof.
  assert (masks_fit light_and_darks) as Hfit
    by (split; [reflexivity | constructor]).
  split.
  - apply (masks_fit_preserved light_and_darks Hfit).
  - apply (masks_fit_preserved light_and_darks Hfit).
Defined.

(** ** Selection and its refinement *)

Lemma select_map_pred {A : Type} (p : A → bool) (l : list A) :
  select (map p l) l = filter (λ x, p x = true) l.
Proof.
  induction l as [|x l IH]; simpl; [done|].
  destruct (p x) eqn:Hp.
  - rewrite filter_cons_True by done. by rewrite IH.
  - rewrite filter_cons_False by (by rewrite Hp). done.
Qed.

Lemma filter_select_mask {A : Type} (p : A → bool) (mask : list bool)
    (l : list A) :
  filter (λ x, p x = true) (select mask l)
  = select (zip_with (λ b x, b && p x) mask l) l.
Proof.
  revert mask. induction l as [|x l IH]; intros [|b mask]; simpl; try done.
  destruct b; simpl; [|apply IH].
  destruct (p x) eqn:Hp.
  - rewrite filter_cons_True by done. by rewrite IH.
  - rewrite filter_cons_False by (by rewrite Hp). apply IH.
Qed.

Lemma filter_map_pred {A B : Type} (f : A → B) (p : B → bool) (l : list A) :
  filter (λ y, p y = true) (map f l)
  = map f (filter (λ x, p (f x) = true) l).
Proof.
  induction l as [|x l IH]; simpl; [done|].
  destruct (p (f x)) eqn:Hp.
  - rewrite !filter_cons_True by done. simpl. by rewrite IH.
  - rewrite !filter_cons_False by (by rewrite Hp). done.
Qed.

(** With unique keys, the rows whose key is among those of a masked part
    of the table are the rows of the mask. *)
Lemma isin_select (cols : list string) (rs : list row) (mask : list bool) :
  length mask = length rs →
  NoDup (map file rs) →
  isin (map file (select mask rs)) (Frame cols rs) = mask.
Proof.
  unfold isin. simpl. revert mask.
  induction rs as [|r rs IH]; intros [|b mask] Hlen Hnd; simpl in *;
    try done.
  apply NoDup_cons in Hnd as [Hr Hnd].
  assert (∀ keys, map (λ x, bool_decide (file x ∈ file r :: keys)) rs
                  = map (λ x, bool_decide (file x ∈ keys)) rs) as Hskip.
  { intros keys. apply map_ext_in. intros x Hx%list_elem_of_In.
    apply bool_decide_ext. rewrite elem_of_cons. split; [|by right].
    intros [Heq|?]; [|done]. exfalso. apply Hr. rewrite <- Heq.
    apply elem_of_map. by exists x. }
  f_equal.
  - destruct b; simpl.
    + apply bool_decide_eq_true_2. left.
    + apply bool_decide_eq_false_2. intros Hin. apply Hr.
      apply elem_of_map in Hin as [x [-> Hx]].
      apply elem_of_map. exists x. split; [done|].
      by apply elem_of_select in Hx.
  - destruct b; simpl; rewrite ?Hskip; apply IH; lia || done.
Qed.

Lemma rows_selection (i : Index) :
  rows (selection i)
  = map (λ r, Row (file r)
                  (filter (λ kv, kv.1 ∈ selected_attrs i) (cells r)))
        (select (rowmask i) (rows (df i))).
Proof. done. Qed.

Lemma cell_restricted (cols : list string) (r : row) (a : string) :
  a ∈ cols →
  cell (Row (file r) (filter (λ kv, kv.1 ∈ cols) (cells r))) a = cell r a.
Proof.
  intros Ha. unfold cell. simpl.
  destruct (cells r !! a) as [v|] eqn:Hv.
  - by apply map_lookup_filter_Some.
  - apply map_lookup_filter_None. left. done.
Qed.

Lemma set_selected_attrs_same (i j : Index) :
  df j = df i →
  NoDup (selected_attrs i) →
  (∀ a, a ∈ selected_attrs i → a ∈ columns (df i)) →
  filter (λ a, a ∈ columns (df j)) (unique (selected_attrs i))
  = selected_attrs i.
Proof.
  intros -> Hnd Hin. rewrite unique_NoDup by done. by apply filter_all.
Qed.

(** The refinement step in closed form: the new mask keeps a row when it
    was selected and the mask of values holds for it. *)
Lemma refine_selection_rowmask (pd_na : string → bool) (attr : string)
    (vals : list value) (i : Index) :
  length (rowmask i) = length (rows (df i)) →
  NoDup (map file (rows (df i))) →
  attr ∈ selected_attrs i →
  (∀ r, r ∈ select (rowmask i) (rows (df i)) →
        cell r attr = None → pd_na (file r) = false) →
  ∃ ws,
    refine_selection pd_na attr vals i
    = inr (with_selected_attrs
             (filter (λ a, a ∈ columns (df i)) (unique (selected_attrs i)))
             (with_rowmask
                (zip_with (λ b r, b && value_mask attr vals (missing_label i) r)
                          (rowmask i) (rows (df i))) i), ws).
Proof.
  intros Hlen Hkeys Hattr Hna. unfold refine_selection.
  rewrite bool_decide_eq_false_2 by (intros Hn; by apply Hn).
  rewrite bool_decide_eq_false_2.
  2:{ intros [_ Hex]. apply Exists_exists in Hex as (r' & Hr' & Hc & Hp).
      rewrite rows_selection in Hr'.
      apply elem_of_map in Hr' as (r & -> & Hr).
      rewrite cell_restricted in Hc by done. simpl in Hp.
      by rewrite (Hna r Hr Hc) in Hp. }
  rewrite select_map_pred, rows_selection, filter_map_pred.
  unfold set_selection. simpl.
  rewrite map_map. simpl.
  rewrite (filter_ext_elem _
             (λ r, value_mask attr vals (missing_label i) r = true)).
  2:{ intros r _. unfold value_mask. by rewrite cell_restricted. }
  rewrite filter_select_mask.
  destruct (df i) as [cols rs] eqn:Hdf. simpl in *.
  rewrite isin_select; [|by rewrite length_zip_with; lia|done].
  unfold set_rowmask. rewrite Hdf. simpl.
  rewrite bool_decide_eq_true_2 by (rewrite length_zip_with; lia).
  unfold mbind, error_bind, mret, error_ret. simpl.
  eexists. unfold with_rowmask, with_selected_attrs. simpl.
  rewrite Hdf. reflexivity.
Qed.



(** X8.  One refinement step of the value selection only narrows: on an
    index with unique keys and a fitting mask, after the step for a
    selected attribute a row is selected exactly when it was selected
    before and its value is among the ticked ones, or its value is missing
    and the missing label is ticked; the table is not touched.  This is
    for a selection whose missing values of the attribute are NaN, as
    pivot leaves them; a selected row with pd.NA there makes the step
    raise TypeError as soon as a value is ticked. *)
Theorem refine_selection_narrows (pd_na : string → bool) (attr : string)
    (vals : list value) (i : Index)
    (Hlen : length (rowmask i) = length (rows (df i)))
    (Hkeys : NoDup (map file (rows (df i))))
    (Hattr : attr ∈ selected_attrs i) :
  (vals ≠ [] →
   (∃ r, r ∈ select (rowmask i) (rows (df i))
         ∧ cell r attr = None ∧ pd_na (file r) = true) →
   refine_selection pd_na attr vals i
   = inl (TypeError "boolean value of NA is ambiguous"))
  ∧ ((∀ r, r ∈ select (rowmask i) (rows (df i)) →
           cell r attr = None → pd_na (file r) = false) →
  ∃ i' ws,
    refine_selection pd_na attr vals i = inr (i', ws)
    ∧ df i' = df i
    ∧ length (rowmask i') = length (rows (df i))
    ∧ ∀ (k : nat) (r : row), rows (df i) !! k = Some r →
        (rowmask i' !! k = Some true
         ↔ rowmask i !! k = Some true
           ∧ match cell r attr with
             | Some v => v ∈ vals
             | None => VStr (missing_label i) ∈ vals
             end)).
Proof.
  split.
  { intros Hvals (r & Hr & Hc & Hp). unfold refine_selection.
    rewrite bool_decide_eq_false_2 by (intros Hn; by apply Hn).
    rewrite bool_decide_eq_true_2; [done|]. split; [done|].
    apply Exists_exists.
    exists (Row (file r)
              (filter (λ kv, kv.1 ∈ selected_attrs i) (cells r))).
    split; [|split; [by rewrite cell_restricted | done]].
    rewrite rows_selection. apply elem_of_map. by exists r. }
  intros Hna.
  destruct (refine_selection_rowmask pd_na attr vals i Hlen Hkeys Hattr Hna)
    as [ws Href].
  eexists _, ws. split; [exact Href|]. simpl. split; [done|].
  split; [rewrite length_zip_with; lia|].
  intros k r Hr. rewrite lookup_zip_with, Hr.
  destruct (lookup_lt_is_Some_2 (rowmask i) k) as [b Hb].
  { rewrite Hlen. by eapply lookup_lt_Some. }
  rewrite Hb. simpl. unfold value_mask.
  destruct (cell r attr) as [v|]; simpl.
  - assert ((if bool_decide (VStr (missing_label i) ∈ vals)
             then bool_decide (v ∈ vals) || false
             else bool_decide (v ∈ vals)) = bool_decide (v ∈ vals)) as ->
      by (destruct (bool_decide (VStr _ ∈ vals)); by rewrite ?orb_false_r).
    destruct b; simpl.
    + split.
      * intros [= Hv]. by apply bool_decide_eq_true in Hv.
      * intros [_ Hv]. by rewrite bool_decide_eq_true_2.
    + split; [done | by intros [? _]].
  - destruct b; simpl.
    + case_bool_decide; simpl; split; try done. by intros [_ ?].
    + split; [done | by intros [? _]].
Qed.

Lemma refine_selection_narrows_witness :
  ∃ i' ws,
    refine_selection (λ _, false) "FILTER" [VStr "OIII"]
      (with_selected_attrs ["FILTER"] night_of_m31) = inr (i', ws)
    ∧ df i' = df night_of_m31
    ∧ length (rowmask i') = 6%nat.
Proof.
  destruct (refine_selection_narrows (λ _, false) "FILTER" [VStr "OIII"]
              (with_selected_attrs ["FILTER"] night_of_m31))
    as [_ Hok].
  - reflexivity.
  - by_eval.
  - by_eval.
  - destruct Hok as (i' & ws & Href & Hdf & Hlen & _); [done|].
    exists i', ws. split; [exact Href|]. split; [exact Hdf | exact Hlen].
Defined.

Lemma zip_with_mask_all {A : Type} (p : A → bool) (mask : list bool)
    (l : list A) :
  length mask = length l →
  (∀ x, x ∈ select mask l → p x = true) →
  zip_with (λ b x, b && p x) mask l = mask.
Proof.
  revert mask. induction l as [|x l IH]; intros [|b mask] Hl Hall;
    simpl in *; try done.
  f_equal.
  - destruct b; [|done]. simpl. apply Hall. left.
  - apply IH; [lia|]. intros y Hy. apply Hall.
    destruct b; [by right | done].
Qed.

(** X9.  Ticking every value that the facet listing reports for an
    attribute, the missing label included when it is listed, keeps the
    selection as it is: no selected row is lost, also not one whose value
    is missing (NaN) or equals the missing label. *)
Theorem refine_selection_all_values (pd_na : string → bool) (attr : string)
    (i : Index) (fs : list facet)
    (Hlen : length (rowmask i) = length (rows (df i)))
    (Hkeys : NoDup (map file (rows (df i))))
    (Hattr : attr ∈ selected_attrs i)
    (Hna : ∀ r, r ∈ select (rowmask i) (rows (df i)) →
                cell r attr = None → pd_na (file r) = false)
    (Hfs : values_for_attr attr i = inr fs) :
  ∃ i' ws,
    refine_selection pd_na attr (map fvalue fs) i = inr (i', ws)
    ∧ rowmask i' = rowmask i ∧ df i' = df i.
Proof.
  destruct (refine_selection_rowmask pd_na attr (map fvalue fs) i
              Hlen Hkeys Hattr Hna)
    as [ws Href].
  eexists _, ws. split; [exact Href|]. simpl. split; [|done].
  unfold values_for_attr in Hfs. case_bool_decide; [done|].
  injection Hfs as <-. rewrite map_map. simpl. rewrite map_id.
  set (vals := unique _).
  assert (∀ r, r ∈ select (rowmask i) (rows (df i)) →
               value_mask attr vals (missing_label i) r = true) as Hall.
  { intros r Hr.
    assert (filled (missing_label i) attr r ∈ vals) as Hin.
    { apply elem_of_unique, elem_of_map. by exists r. }
    unfold filled in Hin. unfold value_mask.
    destruct (cell r attr) as [v|]; simpl.
    - rewrite (bool_decide_eq_true_2 (v ∈ vals)) by done.
      by destruct (bool_decide (VStr (missing_label i) ∈ vals)).
    - by rewrite bool_decide_eq_true_2. }
  by apply zip_with_mask_all.
Qed.

Lemma refine_selection_all_values_witness :
  ∃ i' ws,
    refine_selection (λ _, false) "OBJECT" [VStr "(Unknown)"]
      (with_selected_attrs ["OBJECT"] object_named_unknown) = inr (i', ws)
    ∧ rowmask i' = [true]
    ∧ df i' = df object_named_unknown.
Proof.
  apply (refine_selection_all_values (λ _, false) "OBJECT"
           (with_selected_attrs ["OBJECT"] object_named_unknown)
           [Facet (VStr "(Unknown)") 0 0]).
  - reflexivity.
  - by_eval.
  - by_eval.
  - done.
  - vm_compute. reflexivity.
Defined.

(** ** Attribute edits and dirty flags *)

Lemma row_eq (r r' : row) :
  file r = file r' → (∀ c, cell r c = cell r' c) → r = r'.
Proof.
  destruct r as [f m], r' as [f' m']. unfold cell. simpl.
  intros -> Hc. f_equal. by apply map_eq.
Qed.

Lemma change_rows_incol (attr : string) (v : option value) (rs : list row)
    (mask : list bool) :
  zip_with (λ b r, set_cell "_CHANGED" (Some (VBool (b || dirty r))) r)
           (zip_with (λ r b, differs (cell r attr) v && b) rs mask)
           (map_mask (set_cells [attr] (λ _, v)) mask rs)
  = zip_with (change_row attr v true) mask rs.
Proof.
  revert mask. induction rs as [|r rs IH]; intros [|b mask]; simpl; try done.
  rewrite IH. by destruct b.
Qed.

Lemma change_rows_new (attr : string) (v : option value) (rs : list row)
    (mask : list bool) :
  zip_with (λ b r, set_cell "_CHANGED" (Some (VBool (b || dirty r))) r)
           mask
           (map_mask (set_cells [attr] (λ _, v)) mask
                     (map (λ r, set_cell attr None r) rs))
  = zip_with (change_row attr v false) mask rs.
Proof.
  revert mask. induction rs as [|r rs IH]; intros [|b mask]; simpl; try done.
  rewrite IH. by destruct b.
Qed.

Lemma update_changed_vec_mask (m : list bool) (files : option (list string))
    (d d' : frame) :
  update_changed_vec (Some m) files d = inr d' →
  length m = length (rows d)
  ∧ "_CHANGED" ∈ columns d
  ∧ columns d' = columns d
  ∧ rows d' = zip_with (λ b r, set_cell "_CHANGED"
                                 (Some (VBool (b || dirty r))) r)
                m (rows d).
Proof.
  unfold update_changed_vec. intros H.
  destruct (bool_decide (length m = length (rows d))) eqn:Hlen;
    err_simpl H; [|done].
  apply bool_decide_eq_true in Hlen.
  destruct (bool_decide ("_CHANGED" ∉ columns d)) eqn:Hc; [done|].
  apply bool_decide_eq_false in Hc.
  assert ("_CHANGED" ∈ columns d) as Hc'
    by (destruct (decide ("_CHANGED" ∈ columns d)); tauto).
  injection H as <-. split; [done|]. split; [done|]. split.
  - simpl. apply add_columns_present. intros c Hx.
    apply list_elem_of_singleton in Hx. by subst.
  - simpl. clear Hc Hc'. revert m Hlen.
    induction (rows d) as [|r rs IH]; intros [|b m] Hlen; simpl in *;
      try done.
    f_equal. apply IH. lia.
Qed.

(** [_change_attr] in closed form. *)
Lemma change_attr_rows (attr : string) (v : option value) (i i' : Index) :
  change_attr attr v i = inr i' →
  length (rowmask i) = length (rows (df i))
  ∧ "_CHANGED" ∈ add_columns [attr] (columns (df i))
  ∧ rows (df i')
    = zip_with (change_row attr v (bool_decide (attr ∈ columns (df i))))
               (rowmask i) (rows (df i))
  ∧ columns (df i') = add_columns [attr] (columns (df i))
  ∧ selected_attrs i'
    = (if bool_decide (attr ∉ selected_attrs i)
       then filter (λ a, a ∈ add_columns [attr] (columns (df i)))
                   (unique (selected_attrs i ++ [attr]))
       else selected_attrs i)
  ∧ config i' = config i ∧ missing_label i' = missing_label i
  ∧ rowmask i' = rowmask i ∧ prev_rowmasks i' = prev_rowmasks i
  ∧ cache_valid i' = cache_valid i.
Proof.
  unfold change_attr. intros H.
  case_bool_decide as Hlen; [done|].
  assert (length (rowmask i) = length (rows (df i))) as Hl
    by (destruct (decide (length (rowmask i) = length (rows (df i)))); tauto).
  clear Hlen. split; [done|].
  assert (add_columns [attr] (add_columns [attr] (columns (df i)))
          = add_columns [attr] (columns (df i))) as Haa.
  { apply add_columns_present. intros c Hx. apply elem_of_add_columns.
    by right. }
  destruct (bool_decide (attr ∈ columns (df i))) eqn:Hin.
  - apply bool_decide_eq_true in Hin.
    assert (add_columns [attr] (columns (df i)) = columns (df i)) as Hpres
      by (apply add_columns_present; intros c Hc;
          apply list_elem_of_singleton in Hc; by subst).
    destruct (update_changed_vec _ _ _) as [e|d2] eqn:Hu; err_simpl H;
      [done|].
    apply update_changed_vec_mask in Hu as (_ & Hc & Hcols & Hrows).
    simpl in Hc, Hcols, Hrows. rewrite change_rows_incol in Hrows.
    injection H as <-.
    destruct (bool_decide (attr ∉ selected_attrs i)); simpl;
      rewrite ?Hcols, ?Hrows; done.
  - destruct (update_changed_vec _ _ _) as [e|d2] eqn:Hu; err_simpl H;
      [done|].
    apply update_changed_vec_mask in Hu as (_ & Hc & Hcols & Hrows).
    simpl in Hc, Hcols, Hrows. rewrite change_rows_new in Hrows.
    rewrite Haa in Hc, Hcols.
    injection H as <-.
    destruct (bool_decide (attr ∉ selected_attrs i)); simpl;
      rewrite ?Hcols, ?Hrows; done.
Qed.

Lemma cell_set_cell_eq (col : string) (v : option value) (r : row) :
  cell (set_cell col v r) col = v.
Proof. unfold cell, set_cell, put. simpl. apply lookup_partial_alter_eq. Qed.

Lemma cell_set_cell_ne (col c : string) (v : option value) (r : row) :
  col ≠ c → cell (set_cell col v r) c = cell r c.
Proof.
  intros Hne. unfold cell, set_cell, put. simpl.
  by apply lookup_partial_alter_ne.
Qed.

Lemma dirty_set_cell (col : string) (v : option value) (r : row) :
  col ≠ "_CHANGED" → dirty (set_cell col v r) = dirty r.
Proof. intros Hne. unfold dirty. by rewrite cell_set_cell_ne. Qed.

Lemma dirty_flagged (x : bool) (r : row) :
  dirty (set_cell "_CHANGED" (Some (VBool x)) r) = x.
Proof.
  unfold dirty. rewrite cell_set_cell_eq.
  destruct x; [by apply bool_decide_eq_true_2
              | by apply bool_decide_eq_false_2].
Qed.

Lemma change_row_spec (attr : string) (v : option value) (incol b : bool)
    (r : row) :
  attr ≠ "_CHANGED" →
  let r' := change_row attr v incol b r in
  file r' = file r
  ∧ cell r' attr = (if b then v else if incol then cell r attr else None)
  ∧ cell r' "_CHANGED"
    = Some (VBool (dirty r
                   || (b && (if incol then differs (cell r attr) v else true))))
  ∧ dirty r'
    = dirty r || (b && (if incol then differs (cell r attr) v else true))
  ∧ ∀ c, c ≠ attr → c ≠ "_CHANGED" → cell r' c = cell r c.
Proof.
  intros Hne r'. subst r'. unfold change_row.
  set (r0 := if incol then r else set_cell attr None r).
  set (r1 := if b then set_cell attr v r0 else r0).
  assert (dirty r1 = dirty r) as Hd.
  { unfold r1, r0. destruct b, incol; rewrite ?dirty_set_cell; done. }
  assert (file r1 = file r) as Hfile.
  { unfold r1, r0. destruct b, incol; rewrite ?file_set_cell; done. }
  assert (cell r1 attr = (if b then v else if incol then cell r attr else None))
    as Ha.
  { unfold r1, r0. destruct b, incol; rewrite ?cell_set_cell_eq; done. }
  assert (∀ c, c ≠ attr → cell r1 c = cell r c) as Ho.
  { intros c Hc. assert (attr ≠ c) as Hc' by (intros Heq; by apply Hc).
    unfold r1, r0.
    destruct b, incol; rewrite ?(cell_set_cell_ne attr c) by exact Hc';
      reflexivity. }
  assert ((if incol then differs (cell r attr) v && b else b) || dirty r1
          = dirty r || (b && (if incol then differs (cell r attr) v else true)))
    as Hf.
  { rewrite Hd. destruct incol, b, (dirty r), (differs (cell r attr) v);
      reflexivity. }
  rewrite Hf. split; [|split; [|split; [|split]]].
  - by rewrite file_set_cell.
  - rewrite cell_set_cell_ne; [exact Ha|]. intros Heq. by apply Hne.
  - apply cell_set_cell_eq.
  - apply dirty_flagged.
  - intros c Hc1 Hc2. rewrite cell_set_cell_ne; [by apply Ho|].
    intros Heq. by apply Hc2.
Qed.

Lemma change_attr_succeeds (attr : string) (v : option value) (i : Index) :
  length (rowmask i) = length (rows (df i)) →
  "_CHANGED" ∈ columns (df i) →
  ∃ i', change_attr attr v i = inr i'.
Proof.
  intros Hl Hc. unfold change_attr.
  rewrite bool_decide_eq_false_2 by (intros Hn; by apply Hn).
  assert (∀ cv d0, length cv = length (rows (df i)) →
            length (rows d0) = length (rows (df i)) →
            "_CHANGED" ∈ columns d0 →
            ∃ d2, update_changed_vec (Some cv) None
                    (loc_set_scalar (rowmask i) [attr] v d0) = inr d2) as Hu.
  { intros cv d0 Hcv Hd0 Hc0. unfold update_changed_vec. simpl.
    rewrite (bool_decide_eq_true_2 (length cv = _))
      by (rewrite length_map_mask; lia).
    unfold mbind, error_bind.
    rewrite bool_decide_eq_false_2; [by eexists|].
    intros Hn. apply Hn. apply elem_of_add_columns. by left. }
  destruct (bool_decide (attr ∈ columns (df i))).
  - destruct (Hu (zip_with (λ r b, differs (cell r attr) v && b)
                   (rows (df i)) (rowmask i)) (df i)) as [d2 ->];
      [rewrite length_zip_with; lia | done | done |].
    unfold mbind, error_bind, mret, error_ret. by eexists.
  - destruct (Hu (rowmask i) (assign attr (λ _, None) (df i))) as [d2 ->];
      [done | simpl; apply length_map
      | simpl; apply elem_of_add_columns; by left |].
    unfold mbind, error_bind, mret, error_ret. by eexists.
Qed.

Lemma change_attr_selected (attr : string) (v : option value) (i i' : Index) :
  change_attr attr v i = inr i' →
  attr ∈ columns (df i') ∧ attr ∈ selected_attrs i'.
Proof.
  intros (_ & _ & _ & Hcols & Hsel & _)%change_attr_rows.
  assert (attr ∈ add_columns [attr] (columns (df i))) as Hin
    by (apply elem_of_add_columns; right; left).
  rewrite Hcols, Hsel. split; [done|].
  case_bool_decide as Hs.
  - apply list_elem_of_filter. split; [done|].
    apply elem_of_unique, elem_of_app. right. left.
  - destruct (decide (attr ∈ selected_attrs i)); tauto.
Qed.

(** X10.  Changing an attribute puts the new value (or pd.NA) into that
    attribute of every selected row and of no other row, creating the
    column when the table did not have it; apart from the dirty flag no
    other cell of any row changes, no row is added, dropped or re-keyed,
    the mask stays, and the attribute ends up among the selected
    attributes. *)
Theorem change_attr_sets_selected (attr : string) (v : option value)
    (i : Index)
    (Hlen : length (rowmask i) = length (rows (df i)))
    (Hc : "_CHANGED" ∈ columns (df i))
    (Hne : attr ≠ "_CHANGED") :
  ∃ i', change_attr attr v i = inr i'
    ∧ attr ∈ columns (df i') ∧ attr ∈ selected_attrs i'
    ∧ rowmask i' = rowmask i
    ∧ length (rows (df i')) = length (rows (df i))
    ∧ ∀ (k : nat) (b : bool) (r : row),
        rowmask i !! k = Some b → rows (df i) !! k = Some r →
        ∃ r', rows (df i') !! k = Some r'
          ∧ file r' = file r
          ∧ cell r' attr
            = (if b then v
               else if bool_decide (attr ∈ columns (df i)) then cell r attr
               else None)
          ∧ ∀ c, c ≠ attr → c ≠ "_CHANGED" → cell r' c = cell r c.
Proof.
  destruct (change_attr_succeeds attr v i Hlen Hc) as [i' Hi'].
  exists i'. split; [done|].
  destruct (change_attr_selected _ _ _ _ Hi') as [H1 H2].
  apply change_attr_rows in Hi'
    as (_ & _ & Hrows & _ & _ & _ & _ & Hmask & _).
  split; [done|]. split; [done|]. split; [done|]. split.
  { rewrite Hrows, length_zip_with. lia. }
  intros k b r Hb Hr. rewrite Hrows, lookup_zip_with, Hb, Hr. simpl.
  eexists. split; [done|].
  destruct (change_row_spec attr v (bool_decide (attr ∈ columns (df i))) b r
              Hne) as (Hf & Ha & _ & _ & Ho).
  done.
Qed.

Lemma change_attr_sets_selected_witness :
  ∃ i', change_attr "OBJECT" (Some (VStr "Andromeda"))
          (with_rowmask [true; true; false; false; false; false] night_of_m31)
        = inr i'
    ∧ "OBJECT" ∈ columns (df i') ∧ "OBJECT" ∈ selected_attrs i'
    ∧ rowmask i' = [true; true; false; false; false; false].
Proof.
  destruct (change_attr_sets_selected "OBJECT" (Some (VStr "Andromeda"))
              (with_rowmask [true; true; false; false; false; false]
                            night_of_m31))
    as (i' & Hi' & Hc & Hs & Hm & _).
  - reflexivity.
  - by_eval.
  - discriminate.
  - exists i'. split; [exact Hi'|]. split; [exact Hc|].
    split; [exact Hs | exact Hm].
Defined.

(** X11.  Changing an attribute clears no dirty flag, and it sets the flag
    of exactly the selected rows whose cell differed from the new value.  A
    missing cell differs from every value; when the new value is pd.NA, or
    when the column did not exist, every selected row is flagged, also a
    row whose cell was missing already. *)
Theorem change_attr_flags (attr : string) (v : option value) (i : Index)
    (Hlen : length (rowmask i) = length (rows (df i)))
    (Hc : "_CHANGED" ∈ columns (df i))
    (Hne : attr ≠ "_CHANGED") :
  ∃ i', change_attr attr v i = inr i'
    ∧ ∀ (k : nat) (b : bool) (r : row),
        rowmask i !! k = Some b → rows (df i) !! k = Some r →
        ∃ r', rows (df i') !! k = Some r'
          ∧ cell r' "_CHANGED" = Some (VBool (dirty r'))
          ∧ dirty r'
            = dirty r
              || (b && (if bool_decide (attr ∈ columns (df i))
                        then match v with
                             | Some _ => bool_decide (cell r attr ≠ v)
                             | None => true
                             end
                        else true)).
Proof.
  destruct (change_attr_succeeds attr v i Hlen Hc) as [i' Hi'].
  exists i'. split; [done|].
  apply change_attr_rows in Hi' as (_ & _ & Hrows & _).
  intros k b r Hb Hr. rewrite Hrows, lookup_zip_with, Hb, Hr. simpl.
  eexists. split; [done|].
  destruct (change_row_spec attr v (bool_decide (attr ∈ columns (df i))) b r
              Hne) as (_ & _ & Hflag & Hd & _).
  rewrite Hflag, Hd. unfold differs. by destruct v.
Qed.

Lemma change_attr_flags_witness :
  ∃ i', change_attr "OBJECT" (Some (VStr "M31"))
          (with_rowmask [true; false; false; false; false; true] night_of_m31)
        = inr i'
    ∧ ∃ r', rows (df i') !! 5%nat = Some r' ∧ dirty r' = true.
Proof.
  destruct (change_attr_flags "OBJECT" (Some (VStr "M31"))
              (with_rowmask [true; false; false; false; false; true]
                            night_of_m31))
    as (i' & Hi' & Hrows).
  - reflexivity.
  - by_eval.
  - discriminate.
  - exists i'. split; [exact Hi'|].
    destruct (Hrows 5%nat true
                (shot "/raw/k.fits" "dark" "" "" "2022-03-01T22:00:00" "-10C")
                eq_refl eq_refl) as (r' & Hr' & _ & Hd).
    exists r'. split; [exact Hr'|]. rewrite Hd. vm_compute. reflexivity.
Defined.

Lemma change_row_twice (attr : string) (v : option value) (incol b : bool)
    (r : row) :
  attr ≠ "_CHANGED" →
  change_row attr v true b (change_row attr v incol b r)
  = change_row attr v incol b r.
Proof.
  intros Hne.
  destruct (change_row_spec attr v incol b r Hne) as (Hf & Ha & Hc & Hd & Ho).
  destruct (change_row_spec attr v true b (change_row attr v incol b r) Hne)
    as (Hf' & Ha' & Hc' & Hd' & Ho').
  apply row_eq; [done|]. intros c.
  destruct (decide (c = attr)) as [->|Hca].
  { rewrite Ha', Ha. by destruct b. }
  destruct (decide (c = "_CHANGED")) as [->|Hcc]; [|by apply Ho'].
  rewrite Hc', Hc, Hd, Ha. do 2 f_equal.
  destruct b; [|by rewrite !orb_false_r].
  simpl. unfold differs. destruct v as [x|].
  - rewrite (bool_decide_eq_false_2 (Some x ≠ Some x))
      by (intros Hn; by apply Hn).
    by rewrite orb_false_r.
  - simpl. by destruct incol, (dirty r).
Qed.

(** X12.  Changing an attribute to a value is idempotent: the same change
    applied again to the result, with the same selection, leaves the index
    exactly as the first change left it, so no further row becomes
    dirty. *)
Theorem change_attr_idempotent (attr : string) (v : option value)
    (i i' : Index)
    (Hne : attr ≠ "_CHANGED")
    (Hi' : change_attr attr v i = inr i') :
  change_attr attr v i' = inr i'.
Proof.
  destruct (change_attr_selected _ _ _ _ Hi') as [Hac Has].
  apply change_attr_rows in Hi'
    as (Hlen & Hc & Hrows & Hcols & Hsel & Hcfg & Hlab & Hmask & Hprev & Hcv).
  assert (length (rowmask i') = length (rows (df i'))) as Hlen'
    by (rewrite Hmask, Hrows, length_zip_with; lia).
  assert ("_CHANGED" ∈ columns (df i')) as Hc' by by rewrite Hcols.
  destruct (change_attr_succeeds attr v i' Hlen' Hc') as [i'' Hi''].
  rewrite Hi''. f_equal.
  apply change_attr_rows in Hi''
    as (_ & _ & Hrows2 & Hcols2 & Hsel2 & Hcfg2 & Hlab2 & Hmask2 & Hprev2
        & Hcv2).
  rewrite (bool_decide_eq_true_2 (attr ∈ columns (df i'))) in Hrows2 by done.
  rewrite add_columns_present in Hcols2
    by (intros c Hx; apply list_elem_of_singleton in Hx; by subst).
  rewrite (bool_decide_eq_false_2 (attr ∉ selected_attrs i')) in Hsel2
    by (intros Hn; by apply Hn).
  assert (rows (df i'') = rows (df i')) as Hreq.
  { rewrite Hrows2, Hmask, Hrows. clear -Hne.
    generalize (rowmask i).
    induction (rows (df i)) as [|r rs IH]; intros [|b m]; simpl; try done.
    rewrite change_row_twice by done. f_equal. apply IH. }
  clear - Hreq Hcols2 Hsel2 Hcfg2 Hlab2 Hmask2 Hprev2 Hcv2.
  destruct i' as [c' [cols' rs'] l' m' s' p' v'],
           i'' as [c2 [cols2 rs2] l2 m2 s2 p2 v2].
  simpl in *. congruence.
Qed.

Lemma change_attr_idempotent_witness :
  ∃ i', change_attr "OBJECT" None night_of_m31 = inr i'
        ∧ change_attr "OBJECT" None i' = inr i'.
Proof.
  eexists. split; [vm_compute; reflexivity|].
  apply (change_attr_idempotent "OBJECT" None night_of_m31).
  - discriminate.
  - vm_compute. reflexivity.
Defined.

(** ** Filling sessions from the menu *)

Lemma rows_fill_missing_sessions (d : frame) :
  rows (fill_missing_sessions d)
  = map (λ r, set_cell "_CHANGED"
                (Some (VBool (isna (cell r "SESSION") || dirty r)))
                (set_cell "SESSION" (cell r "_NIGHT") r))
        (rows d).
Proof.
  unfold fill_missing_sessions. simpl.
  induction (rows d) as [|r rs IH]; simpl; [done|].
  rewrite IH. f_equal. unfold dirty.
  by rewrite (cell_set_cell_ne "SESSION" "_CHANGED").
Qed.

(** X13.  The menu action that fills missing sessions rewrites the session
    of EVERY row with the night of the row, also where a session was
    present, and also where the night itself is missing (the session is
    then erased); it flags the rows that had no session, clears no flag,
    and does not flag a row whose existing session it replaced; no other
    cell changes and the rows keep their keys and their order. *)
Theorem fill_missing_sessions_overwrites (d : frame) :
  Forall2 (λ r r',
      file r' = file r
      ∧ cell r' "SESSION" = cell r "_NIGHT"
      ∧ cell r' "_CHANGED" = Some (VBool (dirty r'))
      ∧ dirty r' = isna (cell r "SESSION") || dirty r
      ∧ ∀ c, c ≠ "SESSION" → c ≠ "_CHANGED" → cell r' c = cell r c)
    (rows d) (rows (fill_missing_sessions d)).
Proof.
  rewrite rows_fill_missing_sessions. apply Forall2_map_r. intros r _.
  split; [by rewrite !file_set_cell|].
  split.
  { rewrite (cell_set_cell_ne "_CHANGED" "SESSION") by discriminate.
    apply cell_set_cell_eq. }
  rewrite dirty_flagged. split; [apply cell_set_cell_eq|].
  split; [reflexivity|].
  intros c H1 H2.
  rewrite (cell_set_cell_ne "_CHANGED" c) by (intros Heq; by apply H2).
  apply cell_set_cell_ne. intros Heq. by apply H1.
Qed.

(** ** Sync, row by row *)

(** The course of [_sync_row] on a row that raises no exception. *)
Lemma sync_row_inv today op ov sv r w w' :
  sync_row today op ov sv r w = inr w' →
  ∃ t, target_of r = Some t
    ∧ ((do_rename t && file_exists w (newfile t) && negb ov = true
        ∧ w' = World (idx w) (disk w) (links w) (cache w)
                 (printed w ++ [destination_exists (newfile t)]))
       ∨ (do_rename t && file_exists w (newfile t) && negb ov = false
          ∧ ∃ w1,
              (if do_rename t
               then ∃ w0, move_copy_or_symlink op (file r) (newfile t) w
                          = inr w0
                          ∧ w1 = with_idx (clear_staging r (idx w0)) w0
               else w1 = w)
              ∧ (if bool_decide (op = Symlink) then w' = w1
                 else ∃ w2,
                   (if (bool_decide (newname t ≠ oldname t) && sv) || dirty r
                    then ∃ f, disk w1 !! newfile t = Some f
                              ∧ w2 = with_disk
                                       (<[newfile t :=
                                            edit_fits today
                                              (mutable (config (idx w1))) r t f]>
                                          (disk w1)) w1
                    else w2 = w1)
                   ∧ w' = with_idx (commit_index op r t (idx w2)) w2))).
Proof.
  unfold sync_row, target_of. intros H.
  destruct (text r "_PATH") as [e|[old_path|]];
    destruct (text r "_NAME") as [e'|[old_name|]];
    destruct (text r "_newpath") as [e''|sp];
    destruct (text r "_newname") as [e'''|sn];
    err_simpl H; try done.
  eexists. split; [done|].
  unfold commit_index, edit_fits, clear_staging, dirty, do_rename, newfile.
  cbn [newpath newname oldpath oldname].
  set (np := default old_path sp) in *. set (nn := default old_name sn) in *.
  set (nf := path_join np nn) in *.
  set (dr := bool_decide (np ≠ old_path) || bool_decide (nn ≠ old_name)) in *.
  destruct (dr && file_exists w nf && negb ov) eqn:Hskip.
  { left. split; [done|]. by injection H as <-. }
  right. split; [done|].
  destruct dr eqn:Hdr.
  - destruct (move_copy_or_symlink op (file r) nf w) as [e|w0] eqn:Hmv;
      err_simpl H; [done|].
    eexists. split; [eexists; split; [done|reflexivity]|].
    destruct (bool_decide (op = Symlink)); [by injection H as <-|].
    destruct ((bool_decide (nn ≠ old_name) && sv) || _) eqn:Hed in H.
    + destruct (disk _ !! nf) as [f|] eqn:Hf in H; err_simpl H; [|done].
      injection H as <-. eexists. split.
      * rewrite Hed. eexists. split; [exact Hf|reflexivity].
      * reflexivity.
    + err_simpl H. injection H as <-. eexists. split.
      * rewrite Hed. reflexivity.
      * reflexivity.
  - err_simpl H. eexists. split; [reflexivity|].
    destruct (bool_decide (op = Symlink)); [by injection H as <-|].
    destruct ((bool_decide (nn ≠ old_name) && sv) || _) eqn:Hed in H.
    + destruct (disk _ !! nf) as [f|] eqn:Hf in H; err_simpl H; [|done].
      injection H as <-. eexists. split.
      * rewrite Hed. eexists. split; [exact Hf|reflexivity].
      * reflexivity.
    + err_simpl H. injection H as <-. eexists. split.
      * rewrite Hed. reflexivity.
      * reflexivity.
Qed.

Lemma sync_rows_ind (P : list row → world → Prop) today op ov sv
    (snapshot : list row) (w w' : world) :
  P snapshot w →
  (∀ r rest w1 w2, P (r :: rest) w1 →
     sync_row today op ov sv r w1 = inr w2 → P rest w2) →
  sync_rows today op ov sv snapshot w = inr w' →
  P [] w'.
Proof.
  intros HP Hstep. unfold sync_rows. revert w HP.
  induction snapshot as [|r rest IH]; intros w HP H; simpl in H.
  - by injection H as <-.
  - destruct (sync_row today op ov sv r w) as [e|w2] eqn:Hr.
    + by rewrite foldl_sync_error in H.
    + apply (IH w2); [|done]. by eapply Hstep.
Qed.

Lemma cell_set_cells_other (cols : list string) (v : string → option value)
    (r : row) (c : string) :
  c ∉ cols → cell (set_cells cols v r) c = cell r c.
Proof.
  induction cols as [|a cols IH]; simpl; [done|].
  intros Hc. apply not_elem_of_cons in Hc as [Hne Hc].
  rewrite cell_set_cell_ne; [by apply IH|]. intros Heq. by apply Hne.
Qed.

Lemma dirty_set_cells (cols : list string) (v : string → option value)
    (r : row) :
  "_CHANGED" ∉ cols → dirty (set_cells cols v r) = dirty r.
Proof. intros Hc. unfold dirty. by rewrite cell_set_cells_other. Qed.

Lemma Forall2_map_after {A B : Type} (R : A → B → Prop) (g : B → B)
    (l : list A) (k : list B) :
  Forall2 R l k → (∀ x y, R x y → R x (g y)) → Forall2 R l (map g k).
Proof. intros HF Hg. induction HF; simpl; constructor; auto. Qed.

Lemma move_copy_or_symlink_idx op src dst w w0 :
  move_copy_or_symlink op src dst w = inr w0 → idx w0 = idx w.
Proof.
  unfold move_copy_or_symlink. intros H.
  destruct op; [destruct (disk w !! src) | destruct (disk w !! src)
               | destruct (file_exists w dst) |];
    try done; by injection H as <-.
Qed.

Lemma rows_clear_staging (r : row) (i : Index) :
  rows (df (clear_staging r i))
  = map (λ x, if bool_decide (file x = file r)
              then set_cells ["_newpath"; "_newname"] (λ _, None) x else x)
        (rows (df i)).
Proof. unfold clear_staging. simpl. apply rows_loc_set_index. Qed.

Lemma not_elem_of_staging (c : string) :
  c ≠ "_newpath" → c ≠ "_newname" → c ∉ ["_newpath"; "_newname"].
Proof.
  intros H1 H2 Hin. apply elem_of_cons in Hin as [?|Hin]; [done|].
  apply elem_of_cons in Hin as [?|Hin]; [done|].
  by apply not_elem_of_nil in Hin.
Qed.

(** X14.  A sync with operation 'symlink' writes to no FITS file and
    moves none: the files on disk are what they were, and in the index
    only the staged path and name of a row change; in particular every
    dirty row is still dirty afterwards, and no row is re-keyed. *)
Theorem sync_symlink_leaves_files_and_flags
    (today : string) (ov sv : bool) (w w' : world)
    (Hsync : sync today Symlink ov sv w = inr w') :
  disk w' = disk w
  ∧ Forall2 (λ x x',
        file x' = file x ∧ dirty x' = dirty x
        ∧ ∀ c, c ≠ "_newpath" → c ≠ "_newname" → cell x' c = cell x c)
      (rows (df (idx w))) (rows (df (idx w'))).
Proof.
  unfold sync in Hsync.
  destruct (sync_rows _ _ _ _ _ _) as [e|w1] eqn:Hrows; err_simpl Hsync;
    [done|].
  assert (disk w1 = disk w
    ∧ Forall2 (λ x x',
          file x' = file x
          ∧ ∀ c, c ≠ "_newpath" → c ≠ "_newname" → cell x' c = cell x c)
        (rows (df (idx w))) (rows (df (idx w1)))) as [Hd HF].
  { apply (sync_rows_ind (λ _ w1, disk w1 = disk w
      ∧ Forall2 (λ x x',
            file x' = file x
            ∧ ∀ c, c ≠ "_newpath" → c ≠ "_newname" → cell x' c = cell x c)
          (rows (df (idx w))) (rows (df (idx w1))))
      today Symlink ov sv (changed (df (idx w))) w w1); [| |exact Hrows].
    - split; [done|]. by apply Forall_Forall2_diag, Forall_forall.
    - intros r rest w2 w3 [Hd HF] Hr.
      apply sync_row_inv in Hr as (t & Ht & [[_ ->]|[_ (w4 & Hw4 & Hw3)]]);
        [done|].
      simpl in Hw3. subst w3.
      destruct (do_rename t); [|by subst].
      destruct Hw4 as (w0 & Hmv & ->).
      unfold move_copy_or_symlink in Hmv.
      destruct (file_exists w2 (newfile t)); [done|]. injection Hmv as <-.
      cbn [idx disk with_idx]. split; [done|]. rewrite rows_clear_staging.
      apply Forall2_map_after; [exact HF|].
      intros x y [Hf Hc].
      destruct (bool_decide (file y = file r)); [|done].
      rewrite file_set_cells. split; [done|]. intros c H1 H2.
      rewrite cell_set_cells_other by by apply not_elem_of_staging.
      by apply Hc. }
  assert (disk w' = disk w1 ∧ idx w' = idx w1) as [-> ->]
    by (destruct (cache_valid (idx w1)); by injection Hsync as <-).
  split; [done|]. eapply Forall2_impl; [exact HF|].
  simpl. intros x x' [Hf Hc]. split; [done|]. split; [|done].
  unfold dirty. by rewrite Hc.
Qed.

Lemma sync_symlink_leaves_files_and_flags_witness :
  ∃ w', sync "2022-03-02" Symlink false false two_staged = inr w'
        ∧ disk w' = disk two_staged
        ∧ map dirty (rows (df (idx w'))) = [true; true].
Proof.
  eexists. split; [vm_compute; reflexivity|].
  split; [|vm_compute; reflexivity].
  refine (proj1 (sync_symlink_leaves_files_and_flags
                   "2022-03-02" false false two_staged _ _)).
  vm_compute. reflexivity.
Defined.

Lemma rows_commit_index (op : operation) (r : row) (t : target) (i : Index) :
  rows (df (commit_index op r t i))
  = map (λ x, if bool_decide (file x = file r) then commit_row op t x else x)
        (rows (df i)).
Proof.
  unfold commit_index, commit_row.
  assert (∀ d, rows (if bool_decide (op = Move)
                     then rename_index (file r) (newfile t)
                            (loc_set_scalar (index_is (file r) d) ["_path"]
                               (Some (VStr (newpath t))) d)
                     else d)
               = map (λ x, if bool_decide (file x = file r)
                           then (if bool_decide (op = Move)
                                 then Row (newfile t)
                                        (cells (set_cells ["_path"]
                                           (λ _, Some (VStr (newpath t))) x))
                                 else x)
                           else x) (rows d)) as Hmv.
  { intros d. destruct (bool_decide (op = Move)).
    - cbn [rows rename_index]. rewrite rows_loc_set_index, map_map.
      apply map_ext. intros x.
      destruct (bool_decide (file x = file r)) eqn:Hx.
      + by rewrite file_set_cells, Hx.
      + by rewrite Hx.
    - symmetry. etrans; [|apply map_id]. apply map_ext. intros x.
      by destruct (bool_decide (file x = file r)). }
  destruct (dirty r && negb (do_rename t)); cbn [df with_df with_cache_valid];
    rewrite Hmv, rows_loc_set_index, map_map; apply map_ext; intros x;
    (destruct (bool_decide (file x = file r)) eqn:Hx;
     [by rewrite file_set_cells, Hx | by rewrite Hx]).
Qed.

Lemma dirty_commit_row (op : operation) (t : target) (x : row) :
  dirty (commit_row op t x) = false.
Proof.
  unfold commit_row.
  assert (dirty (set_cells ["_CHANGED"] (λ _, Some (VBool false)) x) = false)
    as Hx by apply dirty_flagged.
  destruct (bool_decide (op = Move)); [|done].
  etrans; [|exact Hx].
  apply (dirty_set_cells ["_path"]). intros Hin.
  apply list_elem_of_singleton in Hin. discriminate.
Qed.

(** The index of the world a row leaves behind, in closed form, when the
    row was not refused and the operation is not 'symlink'. *)
Lemma sync_row_rows today op sv r w w' :
  op ≠ Symlink →
  sync_row today op true sv r w = inr w' →
  ∃ t, target_of r = Some t
    ∧ rows (df (idx w'))
      = map (λ x, if bool_decide (file x = file r) then commit_row op t x else x)
          (if do_rename t
           then map (λ x, if bool_decide (file x = file r)
                          then set_cells ["_newpath"; "_newname"] (λ _, None) x
                          else x) (rows (df (idx w)))
           else rows (df (idx w))).
Proof.
  intros Hop Hr.
  apply sync_row_inv in Hr as (t & Ht & [[Hskip _]|[_ (w1 & Hw1 & Hw')]]).
  { by rewrite andb_false_r in Hskip. }
  exists t. split; [done|].
  rewrite bool_decide_eq_false_2 in Hw' by done.
  destruct Hw' as (w2 & Hw2 & ->). cbn [idx with_idx].
  rewrite rows_commit_index. f_equal.
  assert (idx w2 = idx w1) as ->.
  { destruct (_ || _) in Hw2; [|by subst].
    destruct Hw2 as (f & _ & ->). done. }
  destruct (do_rename t); [|by subst].
  destruct Hw1 as (w0 & Hmv & ->). cbn [idx with_idx].
  rewrite rows_clear_staging.
  by rewrite (move_copy_or_symlink_idx _ _ _ _ _ Hmv).
Qed.

(** X15.  A sync that may overwrite, with any operation other than
    'symlink', leaves no row dirty when it ends without an exception: every
    row that had unsaved changes has been committed. *)
Theorem sync_overwrite_leaves_nothing_dirty
    (today : string) (op : operation) (sv : bool) (w w' : world)
    (Hop : op ≠ Symlink)
    (Hsync : sync today op true sv w = inr w') :
  changed (df (idx w')) = [].
Proof.
  unfold sync in Hsync.
  destruct (sync_rows _ _ _ _ _ _) as [e|w1] eqn:Hrows; err_simpl Hsync;
    [done|].
  assert (idx w' = idx w1) as ->
    by (destruct (cache_valid (idx w1)); by injection Hsync as <-).
  apply filter_none. intros x Hx Hd.
  assert (file x ∈ map file ([] : list row)) as Hin;
    [|by apply not_elem_of_nil in Hin].
  revert x Hx Hd.
  apply (sync_rows_ind
           (λ rest w1, ∀ x, x ∈ rows (df (idx w1)) →
                            cell x "_CHANGED" = Some (VBool true) →
                            file x ∈ map file rest)
           today op true sv (changed (df (idx w))) w w1); [| |exact Hrows].
  - intros x Hx Hd. apply elem_of_map. exists x. split; [done|].
    by apply list_elem_of_filter.
  - intros r rest w2 w3 HP Hr x Hx Hd.
    apply sync_row_rows in Hr as (t & Ht & Hrows3); [|done].
    rewrite Hrows3 in Hx. apply elem_of_map in Hx as (y & -> & Hy).
    destruct (bool_decide (file y = file r)) eqn:Hkey.
    { pose proof (dirty_commit_row op t y) as Hc. unfold dirty in Hc.
      by rewrite bool_decide_eq_true_2 in Hc. }
    apply bool_decide_eq_false in Hkey.
    assert (y ∈ rows (df (idx w2))) as Hy'.
    { destruct (do_rename t); [|done].
      apply elem_of_map in Hy as (z & -> & Hz).
      destruct (bool_decide (file z = file r)) eqn:Hkz; [|done].
      apply bool_decide_eq_true in Hkz. by rewrite file_set_cells in Hkey. }
    specialize (HP y Hy' Hd). simpl in HP.
    apply elem_of_cons in HP as [?|?]; done.
Qed.

Lemma sync_overwrite_leaves_nothing_dirty_witness :
  ∃ w', sync "2022-03-02" Move true false two_staged = inr w'
        ∧ changed (df (idx w')) = [].
Proof.
  eexists. split; [vm_compute; reflexivity|].
  apply (sync_overwrite_leaves_nothing_dirty "2022-03-02" Move false two_staged).
  - discriminate.
  - vm_compute. reflexivity.
Defined.

(** X16.  A sync with operation 'copy' and without permission to overwrite
    keeps every file that was on disk as it was, except the files of dirty
    rows that have nothing staged, whose headers are edited in place: in
    particular the original of every file copied to a new location is
    untouched. *)
Theorem sync_copy_keeps_existing_files
    (today : string) (sv : bool) (w w' : world) (p : string) (f : fits_file)
    (Hp : disk w !! p = Some f)
    (Hplace : ∀ r, r ∈ changed (df (idx w)) → edits_in_place r ≠ Some p)
    (Hsync : sync today Copy false sv w = inr w') :
  disk w' !! p = Some f.
Proof.
  unfold sync in Hsync.
  destruct (sync_rows _ _ _ _ _ _) as [e|w1] eqn:Hrows; err_simpl Hsync;
    [done|].
  assert (disk w' = disk w1) as ->
    by (destruct (cache_valid (idx w1)); by injection Hsync as <-).
  apply (sync_rows_ind
           (λ rest w1, disk w1 !! p = Some f
                       ∧ ∀ r, r ∈ rest → edits_in_place r ≠ Some p)
           today Copy false sv (changed (df (idx w))) w w1); [| |exact Hrows].
  - done.
  - intros r rest w2 w3 [Hp2 Hrest] Hr.
    split; [|intros x Hx; apply Hrest; by right].
    assert (edits_in_place r ≠ Some p) as Hr' by (apply Hrest; left).
    apply sync_row_inv in Hr as (t & Ht & [[_ ->]|[Hgo (w4 & Hw4 & Hw3)]]);
      [done|].
    unfold edits_in_place in Hr'. rewrite Ht in Hr'. simpl in Hr'.
    rewrite andb_true_r in Hgo.
    assert (newfile t ≠ p) as Hne.
    { intros Heq. destruct (do_rename t); simpl in Hgo.
      - unfold file_exists in Hgo. apply bool_decide_eq_false in Hgo.
        apply Hgo. left. rewrite Heq, Hp2. by eexists.
      - apply Hr'. by rewrite Heq. }
    assert (disk w4 !! p = Some f) as Hp4.
    { destruct (do_rename t); [|by subst].
      destruct Hw4 as (w0 & Hmv & ->). cbn [disk with_idx].
      unfold move_copy_or_symlink in Hmv.
      destruct (disk w2 !! file r); [|done]. injection Hmv as <-.
      cbn [disk with_disk]. by rewrite lookup_insert_ne. }
    rewrite bool_decide_eq_false_2 in Hw3 by done.
    destruct Hw3 as (w5 & Hw5 & ->). cbn [disk with_idx].
    destruct (_ || _) in Hw5; [|by subst].
    destruct Hw5 as (f5 & _ & ->). cbn [disk with_disk].
    by rewrite lookup_insert_ne.
Qed.

Lemma sync_copy_keeps_existing_files_witness :
  ∃ w', sync "2022-03-02" Copy false false two_staged = inr w'
        ∧ disk w' !! "/raw/b.fits" = Some m31_cards.
Proof.
  eexists. split; [vm_compute; reflexivity|].
  apply (sync_copy_keeps_existing_files "2022-03-02" false two_staged).
  - vm_compute. reflexivity.
  - intros r Hr. vm_compute in Hr.
    apply elem_of_cons in Hr as [->|Hr]; [vm_compute; discriminate|].
    apply elem_of_cons in Hr as [->|Hr]; [vm_compute; discriminate|].
    by apply not_elem_of_nil in Hr.
  - vm_compute. reflexivity.
Defined.

Lemma sync_row_save_oldname today op ov r w :
  dirty r = true →
  sync_row today op ov true r w = sync_row today op ov false r w.
Proof.
  unfold dirty. intros Hd. unfold sync_row.
  destruct (text r "_PATH") as [e|[old_path|]];
    destruct (text r "_NAME") as [e'|[old_name|]];
    destruct (text r "_newpath") as [e''|sp];
    destruct (text r "_newname") as [e'''|sn];
    unfold mbind, error_bind, mret, error_ret; try reflexivity.
  rewrite Hd. by rewrite !orb_true_r.
Qed.

(** X17.  The option to record the old file name has no effect on a sync:
    every row a sync works on is dirty, and for a dirty row whose name
    changes the history line with the old name is written whether the
    option is set or not. *)
Theorem sync_ignores_save_oldname
    (today : string) (op : operation) (ov : bool) (w : world) :
  sync today op ov true w = sync today op ov false w.
Proof.
  unfold sync. f_equal. unfold sync_rows.
  assert (Forall (λ r, dirty r = true) (changed (df (idx w)))) as Hall.
  { apply Forall_forall. intros r Hr.
    apply list_elem_of_filter in Hr as [Hd _]. unfold dirty.
    by apply bool_decide_eq_true_2. }
  generalize (inr w : error + world).
  induction Hall as [|r rs Hr _ IH]; intros acc; simpl; [done|].
  rewrite IH. f_equal. destruct acc as [e|w0]; [done|].
  unfold mbind, error_bind. by apply sync_row_save_oldname.
Qed.

(** ** Header updates *)

Lemma foldl_insert_lookup (changes : list (string * string))
    (h : gmap string string) (k : string) :
  foldl (λ h kv, <[kv.1 := kv.2]> h) h changes !! k
  = match last (filter (λ kv, kv.1 = k) changes) with
    | Some kv => Some kv.2
    | None => h !! k
    end.
Proof.
  revert h. induction changes as [|[k' s] changes IH]; intros h; simpl;
    [done|].
  rewrite IH. destruct (decide (k' = k)) as [->|Hne].
  - rewrite filter_cons_True by done.
    destruct (filter _ changes) as [|kv l] eqn:Hf; simpl.
    + by rewrite lookup_insert_eq.
    + destruct (last (kv :: l)) eqn:Hl; [done|].
      by apply last_None in Hl.
  - rewrite filter_cons_False by done.
    destruct (last _); [done|]. by rewrite lookup_insert_ne.
Qed.

Lemma new_values_elem (to_update : list string) (r : row) (k s : string) :
  (k, s) ∈ new_values to_update r
  ↔ k ∈ to_update ∧ ∃ v, cell r k = Some v ∧ s = str_of_cell (Some v).
Proof.
  unfold new_values. rewrite list_elem_of_omap. split.
  - intros (k' & Hk & Heq). destruct (cell r k') as [v|] eqn:Hv; [|done].
    simpl in Heq. injection Heq as <- <-. eauto.
  - intros (Hk & v & Hv & ->). exists k. split; [done|]. by rewrite Hv.
Qed.

Lemma update_header_lookup (today : string) (to_update : list string)
    (r : row) (f : fits_file) (k : string) :
  header (update_header today to_update r f) !! k
  = if bool_decide (k ∈ to_update)
    then match cell r k with
         | Some v => Some (str_of_cell (Some v))
         | None => header f !! k
         end
    else header f !! k.
Proof.
  unfold update_header. cbn [header]. rewrite foldl_insert_lookup.
  destruct (last _) as [[k' s]|] eqn:Hl.
  - apply last_Some_elem_of, list_elem_of_filter in Hl as [Hk Hin].
    simpl in Hk. subst k'.
    apply new_values_elem in Hin as (Hin & v & Hv & ->).
    rewrite bool_decide_eq_true_2 by done. by rewrite Hv.
  - apply last_None in Hl.
    case_bool_decide as Hin; [|done].
    destruct (cell r k) as [v|] eqn:Hv; [|done].
    assert ((k, str_of_cell (Some v))
            ∈ filter (λ kv, kv.1 = k) (new_values to_update r)) as Hx.
    { apply list_elem_of_filter. split; [done|].
      apply new_values_elem. eauto. }
    rewrite Hl in Hx. by apply not_elem_of_nil in Hx.
Qed.

Lemma update_header_same (today : string) (to_update : list string)
    (r : row) (g : fits_file) :
  (∀ k v, k ∈ to_update → cell r k = Some v →
          header g !! k = Some (str_of_cell (Some v))) →
  update_header today to_update r g = g.
Proof.
  intros Hg.
  assert (header (update_header today to_update r g) = header g) as Hh.
  { apply map_eq. intros k. rewrite update_header_lookup.
    case_bool_decide as Hin; [|done].
    destruct (cell r k) as [v|] eqn:Hv; [|done].
    symmetry. by apply Hg. }
  destruct g as [h hist]. unfold update_header in *. cbn [header] in *.
  rewrite Hh. f_equal. cbn [history].
  rewrite <- (app_nil_r hist) at 2. f_equal.
  assert (∀ kv, kv ∈ new_values to_update r → h !! kv.1 = Some kv.2) as Hall.
  { intros [k s] (Hk & v & Hv & ->)%new_values_elem. simpl. by apply Hg. }
  clear Hh.
  induction (new_values to_update r) as [|kv l IH]; simpl; [done|].
  rewrite (Hall kv) by left. simpl.
  rewrite bool_decide_eq_true_2 by done.
  apply IH. intros kv' Hkv'. apply Hall. by right.
Qed.

(** X18.  Writing a dirty row back to its header sets one card for every
    mutable attribute the row has a value for, to the text of that value,
    and touches no other card: an attribute whose value is missing in the
    row does NOT remove or change its card.  The history only grows.  When
    every such card already carries the row's value the file is left as it
    is, so writing the same row twice is the same as writing it once. *)
Theorem update_header_cards (today : string) (to_update : list string)
    (r : row) (f : fits_file) :
  let f' := update_header today to_update r f in
  (∀ k v, k ∈ to_update → cell r k = Some v →
          header f' !! k = Some (str_of_cell (Some v)))
  ∧ (∀ k, k ∉ to_update ∨ cell r k = None → header f' !! k = header f !! k)
  ∧ history f `prefix_of` history f'
  ∧ ((∀ k v, k ∈ to_update → cell r k = Some v →
             header f !! k = Some (str_of_cell (Some v))) → f' = f)
  ∧ update_header today to_update r f' = f'.
Proof.
  intros f'. subst f'.
  split; [|split; [|split; [|split]]].
  - intros k v Hk Hv. rewrite update_header_lookup.
    rewrite bool_decide_eq_true_2 by done. by rewrite Hv.
  - intros k Hk. rewrite update_header_lookup.
    case_bool_decide as Hin; [|done].
    destruct Hk as [Hk|Hk]; [done|]. by rewrite Hk.
  - unfold update_header. cbn [history]. by eexists.
  - apply update_header_same.
  - apply update_header_same. intros k v Hk Hv. rewrite update_header_lookup.
    rewrite bool_decide_eq_true_2 by done. by rewrite Hv.
Qed.

Lemma update_header_cards_witness :
  update_header "2022-03-02" ["OBJECT"]
    (Row "/raw/a.fits" {[ "OBJECT" := VStr "M31" ]})
    (Fits {[ "OBJECT" := "M31" ]} [])
  = Fits {[ "OBJECT" := "M31" ]} [].
Proof.
  apply (update_header_cards "2022-03-02" ["OBJECT"]
           (Row "/raw/a.fits" {[ "OBJECT" := VStr "M31" ]})
           (Fits {[ "OBJECT" := "M31" ]} [])).
  intros k v Hk Hv. apply list_elem_of_singleton in Hk. subst k.
  vm_compute in Hv. injection Hv as <-. vm_compute. reflexivity.
Defined.

(** X19.  A committed move relocates the file on disk: the source path no
    longer holds a file, the destination holds the content of the source,
    with the header edit applied when the row is dirty (or the name changed
    and the old name is to be recorded); every other path of the disk and
    every symbolic link is as before. *)
Theorem sync_row_move_relocates_file
    (today : string) (ov sv : bool) (r : row) (w : world) (t : target)
    (f : fits_file)
    (Ht : target_of r = Some t)
    (Hdo : do_rename t = true)
    (Hfree : file_exists w (newfile t) = false ∨ ov = true)
    (Hsrc : disk w !! file r = Some f)
    (Hne : file r ≠ newfile t) :
  ∃ w', sync_row today Move ov sv r w = inr w'
    ∧ disk w' !! file r = None
    ∧ disk w' !! newfile t
      = Some (if (bool_decide (newname t ≠ oldname t) && sv) || dirty r
              then edit_fits today (mutable (config (idx w))) r t f
              else f)
    ∧ (∀ p, p ≠ file r → p ≠ newfile t → disk w' !! p = disk w !! p)
    ∧ links w' = links w.
Proof.
  assert (do_rename t && file_exists w (newfile t) && negb ov = false) as Hgo.
  { destruct Hfree as [->| ->]; [by rewrite andb_false_r | apply andb_false_r]. }
  unfold target_of in Ht.
  destruct (text r "_PATH") as [e|[old_path|]] eqn:H1; try done.
  destruct (text r "_NAME") as [e'|[old_name|]] eqn:H2; try done.
  destruct (text r "_newpath") as [e''|sp] eqn:H3; try done.
  destruct (text r "_newname") as [e'''|sn] eqn:H4; try done.
  injection Ht as <-.
  unfold do_rename, newfile, edit_fits, dirty in *.
  cbn [newpath newname oldpath oldname] in *.
  unfold sync_row. rewrite H1, H2, H3, H4.
  unfold mbind, error_bind, mret, error_ret.
  set (np := default old_path sp) in *. set (nn := default old_name sn) in *.
  set (nf := path_join np nn) in *.
  rewrite Hgo, Hdo. unfold move_copy_or_symlink. rewrite Hsrc.
  rewrite (bool_decide_eq_false_2 (Move = Symlink)) by done.
  cbn [disk with_idx with_disk idx].
  rewrite lookup_insert_eq.
  destruct ((bool_decide (nn ≠ old_name) && sv) || _) eqn:Hed.
  - eexists. split; [reflexivity|]. cbn [disk with_idx with_disk links].
    split; [|split; [|split; [|done]]].
    + rewrite !lookup_insert_ne by done. apply lookup_delete_eq.
    + rewrite lookup_insert_eq. reflexivity.
    + intros p Hp1 Hp2. rewrite !lookup_insert_ne by done.
      by rewrite lookup_delete_ne.
  - eexists. split; [reflexivity|]. cbn [disk with_idx with_disk links].
    split; [|split; [|split; [|done]]].
    + rewrite !lookup_insert_ne by done. apply lookup_delete_eq.
    + by rewrite lookup_insert_eq.
    + intros p Hp1 Hp2. rewrite !lookup_insert_ne by done.
      by rewrite lookup_delete_ne.
Qed.

Lemma sync_row_move_relocates_file_witness :
  ∃ w', sync_row "2022-03-02" Move false false
          (staged_row "/raw/b.fits" "/raw" "b.fits" "/sorted/M31" "m31_002.fits")
          two_staged = inr w'
    ∧ disk w' !! "/raw/b.fits" = None.
Proof.
  destruct (sync_row_move_relocates_file "2022-03-02" false false
              (staged_row "/raw/b.fits" "/raw" "b.fits" "/sorted/M31"
                          "m31_002.fits")
              two_staged
              (Target "/raw" "b.fits" "/sorted/M31" "m31_002.fits")
              m31_cards) as (w' & Hw' & Hgone & _).
  - reflexivity.
  - reflexivity.
  - left. vm_compute. reflexivity.
  - vm_compute. reflexivity.
  - discriminate.
  - exists w'. split; [exact Hw' | exact Hgone].
Defined.

(** ** Planning: what it leaves alone and when it fails *)

Lemma foldl_organize_step_inv root_dir s label mask
    (P : frame → Prop) (groups : list string) (d d' : frame) :
  P d →
  (∀ g d1 d2, g ∈ groups → P d1 →
     organize_group root_dir s label mask d1 g = inr d2 → P d2) →
  foldl (organize_step root_dir s label mask) (inr d) groups = inr d' →
  P d'.
Proof.
  revert d. induction groups as [|g groups IH]; intros d HP Hstep H;
    simpl in H.
  - by injection H as <-.
  - destruct (organize_group root_dir s label mask d g) as [e|d2] eqn:Hg.
    + by rewrite foldl_organize_step_error in H.
    + apply (IH d2); [|intros g' d1 d3 Hg'; apply Hstep; by right|done].
      eapply Hstep; [left|done..].
Qed.

Lemma unselected_not_in_select (rs : list row) (mask : list bool) (k : nat)
    (r : row) :
  NoDup (map file rs) →
  rs !! k = Some r → mask !! k = Some false →
  file r ∉ map file (select mask rs).
Proof.
  revert mask k. induction rs as [|x rs IH]; intros [|b mask] [|k] Hnd Hr Hb;
    simpl in *; try done.
  - injection Hr as ->. injection Hb as ->.
    apply NoDup_cons in Hnd as [Hx _]. intros Hin. apply Hx.
    apply elem_of_map in Hin as (y & -> & Hy). apply elem_of_map.
    exists y. split; [done|]. by apply elem_of_select in Hy.
  - apply NoDup_cons in Hnd as [Hx Hnd].
    assert (file r ∉ map file (select mask rs)) as Hn by by eapply IH.
    destruct b; [|done]. simpl. apply not_elem_of_cons. split; [|done].
    intros Heq. apply Hx. rewrite <- Heq. apply elem_of_map.
    exists r. split; [done|]. by eapply list_elem_of_lookup_2.
Qed.

(** X20.  Planning leaves alone what is not selected: on an index with
    unique keys, a row that the mask does not select, or that has no image
    type, is after a successful planning exactly the row it was, at the
    same place; no row is added, dropped or re-keyed, and the mask, the
    selected attributes and the stash are untouched. *)
Theorem organize_leaves_unselected_rows
    (i i' : Index) (root_dir structure_key : string)
    (Hkeys : NoDup (map file (rows (df i))))
    (Horg : organize root_dir structure_key i = inr i') :
  map file (rows (df i')) = map file (rows (df i))
  ∧ rowmask i' = rowmask i
  ∧ selected_attrs i' = selected_attrs i
  ∧ prev_rowmasks i' = prev_rowmasks i
  ∧ ∀ (k : nat) (r : row),
      rows (df i) !! k = Some r →
      rowmask i !! k = Some false ∨ imagetyp r = None →
      rows (df i') !! k = Some r.
Proof.
  unfold organize in Horg.
  destruct (structures (config i) !! structure_key) as [s|]; [|done].
  destruct (bool_decide _) in Horg; [done|]. err_simpl Horg.
  destruct (foldl _ _ _) as [e|d] eqn:Hfold; err_simpl Horg; [done|].
  injection Horg as <-. cbn [df rowmask selected_attrs prev_rowmasks with_df].
  assert (map file (rows d) = map file (rows (df i))
          ∧ ∀ (k : nat) (r : row),
              rows (df i) !! k = Some r →
              rowmask i !! k = Some false ∨ imagetyp r = None →
              rows d !! k = Some r) as [Hf Hrows]; [|done].
  apply (foldl_organize_step_inv root_dir s (missing_label i) (rowmask i)
           (λ d, map file (rows d) = map file (rows (df i))
                 ∧ ∀ (k : nat) (r : row),
                     rows (df i) !! k = Some r →
                     rowmask i !! k = Some false ∨ imagetyp r = None →
                     rows d !! k = Some r)
           (merge_sort String.le
              (unique (omap imagetyp (select (rowmask i) (rows (df i))))))
           (df i) d); [done| |exact Hfold].
  intros g d1 d2 _ [Hf1 Hr1] Hg.
  apply organize_group_rows in Hg as (l & plan & _ & Hrows2 & Hplan & _).
  rewrite Hrows2. split.
  - rewrite <- Hf1, map_map. apply map_ext. intros x.
    by destruct (stage_same_keys plan x).
  - intros k r Hr Hun. specialize (Hr1 k r Hr Hun).
    rewrite list_lookup_fmap, Hr1. simpl. f_equal.
    apply stage_not_planned. rewrite Hplan by by eapply list_elem_of_lookup_2.
    assert (NoDup (map file (rows d1))) as Hnd1 by by rewrite Hf1.
    destruct Hun as [Hmask|Htyp].
    + unfold group_keys. intros Hin.
      eapply (unselected_not_in_select (rows d1)); [done..|].
      apply elem_of_map in Hin as (y & -> & Hy). apply elem_of_map.
      exists y. split; [done|]. by apply list_elem_of_filter in Hy as [_ ?].
    + unfold group_keys. intros Hin.
      apply elem_of_map in Hin as (y & Heq & Hy).
      apply list_elem_of_filter in Hy as [Hty Hy].
      apply elem_of_select in Hy.
      assert (y = r) as ->.
      { eapply (NoDup_map_inj file); [exact Hnd1|done| |done].
        by eapply list_elem_of_lookup_2. }
      by rewrite Htyp in Hty.
Qed.

Lemma organize_leaves_unselected_rows_witness :
  ∃ i', organize "/sorted" "catalog"
          (with_rowmask [true; true; true; true; true; false] night_of_m31)
        = inr i'
    ∧ rows (df i') !! 5%nat
      = Some (shot "/raw/k.fits" "dark" "" "" "2022-03-01T22:00:00" "-10C").
Proof.
  eexists. split; [vm_compute; reflexivity|].
  refine (proj2 (proj2 (proj2 (proj2
    (organize_leaves_unselected_rows
       (with_rowmask [true; true; true; true; true; false] night_of_m31)
       _ "/sorted" "catalog" _ _)))) 5%nat _ eq_refl (or_introl eq_refl)).
  - by_eval.
  - vm_compute. reflexivity.
Defined.

(** X21.  Planning succeeds only when every selected row with an image
    type has a layout for that type in the chosen template: a selected file
    of a type the template does not list makes the whole planning fail. *)
Theorem organize_needs_every_layout
    (i i' : Index) (root_dir structure_key : string) (r : row) (t : string)
    (Hr : r ∈ select (rowmask i) (rows (df i)))
    (Ht : imagetyp r = Some t)
    (Horg : organize root_dir structure_key i = inr i') :
  ∃ s, structures (config i) !! structure_key = Some s
       ∧ is_Some (layouts s !! t).
Proof.
  unfold organize in Horg.
  destruct (structures (config i) !! structure_key) as [s|]; [|done].
  exists s. split; [done|].
  destruct (bool_decide _) in Horg; [done|]. err_simpl Horg.
  destruct (foldl _ _ _) as [e|d] eqn:Hfold; err_simpl Horg; [done|].
  clear Horg.
  assert (t ∈ merge_sort String.le
            (unique (omap imagetyp (select (rowmask i) (rows (df i))))))
    as Hin.
  { apply elem_of_merge_sort, elem_of_unique, list_elem_of_omap. eauto. }
  revert Hin Hfold. generalize (df i) at 2.
  induction (merge_sort _ _) as [|g groups IH]; intros d0 Hin Hfold.
  { by apply not_elem_of_nil in Hin. }
  simpl in Hfold.
  destruct (organize_group root_dir s (missing_label i) (rowmask i) d0 g)
    as [e|d2] eqn:Hg.
  { by rewrite foldl_organize_step_error in Hfold. }
  apply elem_of_cons in Hin as [->|Hin]; [|by eapply IH].
  unfold organize_group in Hg. unfold attr_structure in Hg.
  destruct (layouts s !! g); [by eexists|done].
Qed.

Lemma organize_needs_every_layout_witness :
  ∃ s, structures (config night_of_m31) !! "catalog" = Some s
       ∧ is_Some (layouts s !! "dark").
Proof.
  refine (organize_needs_every_layout night_of_m31 _ "/sorted" "catalog"
            (shot "/raw/k.fits" "dark" "" "" "2022-03-01T22:00:00" "-10C")
            "dark" _ eq_refl _).
  - by_eval.
  - vm_compute. reflexivity.
Defined.

(** ** Calibration frames into the selection *)









(** ** The setpoint rule, once more *)

Lemma round_half_even_mono (t t' : Q) :
  (t <= t')%Q → round_half_even t ≤ round_half_even t'.
Proof.
  destruct t as [n d], t' as [n' d']. unfold Qle, round_half_even. simpl.
  intros Hle.
  pose proof (Z.div_mod n (Z.pos d) ltac:(lia)) as Hdm.
  pose proof (Z.mod_pos_bound n (Z.pos d) ltac:(lia)) as Hb.
  pose proof (Z.div_mod n' (Z.pos d') ltac:(lia)) as Hdm'.
  pose proof (Z.mod_pos_bound n' (Z.pos d') ltac:(lia)) as Hb'.
  set (f := n `div` Z.pos d) in *. set (m := n `mod` Z.pos d) in *.
  set (f' := n' `div` Z.pos d') in *. set (m' := n' `mod` Z.pos d') in *.
  clearbody f m f' m'.
  set (D := Z.pos d * Z.pos d').
  assert (0 < D) as HD by (unfold D; lia).
  assert (n * Z.pos d' = D * f + m * Z.pos d') as E1 by (unfold D; lia).
  assert (n' * Z.pos d = D * f' + m' * Z.pos d) as E2 by (unfold D; lia).
  assert (0 ≤ m * Z.pos d') as B1 by nia.
  assert (m' * Z.pos d < D) as B2 by (unfold D; nia).
  assert (f ≤ f') as Hf.
  { destruct (Z_le_gt_dec f f') as [?|Hgt]; [done|].
    assert (D * (f' + 1) ≤ D * f) by (apply Z.mul_le_mono_nonneg_l; lia).
    lia. }
  assert (f = f' → m * Z.pos d' ≤ m' * Z.pos d) as Hm by (intros ->; lia).
  clear E1 E2 B1 B2 HD Hdm Hdm' Hle. clearbody D.
  destruct (decide (f = f')) as [->|Hne].
  - specialize (Hm eq_refl).
    repeat case_match;
      repeat match goal with
             | H : (_ <? _) = true |- _ => apply Z.ltb_lt in H
             | H : (_ <? _) = false |- _ => apply Z.ltb_ge in H
             end; try lia; try nia; congruence.
  - repeat case_match; lia.
Qed.

Lemma normalize_temps_Z (r : Z) :
  normalize_temps (inject_Z r)
  = if bool_decide (r + 1 ∈ normal_temps) then r + 1
    else if bool_decide (r - 1 ∈ normal_temps) then r - 1 else r.
Proof. unfold normalize_temps. by rewrite round_half_even_inject. Qed.

Lemma elem_of_normal_temps (x : Z) :
  x ∈ normal_temps ↔ x = 0 ∨ x = -10 ∨ x = -15 ∨ x = -20.
Proof.
  unfold normal_temps. rewrite !elem_of_cons, elem_of_nil. tauto.
Qed.

(** X24.  The setpoint rule is stable and keeps the order of
    temperatures: normalising a normalised temperature changes nothing;
    the result is never more than one degree away from the rounded reading;
    and of two readings the warmer one never gets the colder label. *)
Theorem normalize_temps_stable (t t' : Q) :
  normalize_temps (inject_Z (normalize_temps t)) = normalize_temps t
  ∧ Z.abs (normalize_temps t - round_half_even t) ≤ 1
  ∧ ((t <= t')%Q → normalize_temps t ≤ normalize_temps t').
Proof.
  assert (∀ r, normalize_temps (inject_Z r) = r - 1
               ∨ normalize_temps (inject_Z r) = r
               ∨ normalize_temps (inject_Z r) = r + 1) as Hnear.
  { intros r. rewrite normalize_temps_Z.
    repeat case_bool_decide; auto. }
  assert (∀ q, normalize_temps q
               = normalize_temps (inject_Z (round_half_even q))) as Hq.
  { intros q. unfold normalize_temps. by rewrite round_half_even_inject. }
  assert (∀ r r', r ≤ r' →
            normalize_temps (inject_Z r) ≤ normalize_temps (inject_Z r'))
    as Hmono.
  { intros r r' Hle. rewrite !normalize_temps_Z.
    repeat case_bool_decide;
      repeat match goal with
             | H : _ ∈ normal_temps |- _ => apply elem_of_normal_temps in H
             | H : _ ∉ normal_temps |- _ => rewrite elem_of_normal_temps in H
             end; lia. }
  split; [|split].
  - rewrite (Hq t). set (r := round_half_even t). clearbody r.
    rewrite !normalize_temps_Z.
    repeat case_bool_decide;
      repeat match goal with
             | H : _ ∈ normal_temps |- _ => apply elem_of_normal_temps in H
             | H : _ ∉ normal_temps |- _ => rewrite elem_of_normal_temps in H
             end; lia.
  - rewrite (Hq t). destruct (Hnear (round_half_even t)) as [->|[->| ->]]; lia.
  - intros Hle. rewrite (Hq t), (Hq t').
    by apply Hmono, round_half_even_mono.
Qed.

Lemma normalize_temps_stable_witness :
  normalize_temps (-11 # 1) ≤ normalize_temps (-9 # 1).
Proof.
  apply (normalize_temps_stable (-11 # 1) (-9 # 1)). discriminate.
Defined.

(** ** The header cache at the start of the program *)

Lemma parse_fits_headers_files getheader files h :
  h ∈ (parse_fits_headers getheader files).1 → card_file h ∈ files.
Proof.
  unfold parse_fits_headers. simpl.
  intros (f & Hf & Hh)%list_elem_of_In%in_flat_map.
  apply list_elem_of_In in Hf, Hh.
  destruct (getheader f); [|by apply not_elem_of_nil in Hh].
  by apply elem_of_map in Hh as (kv & -> & _).
Qed.

Lemma parse_fits_headers_covers getheader files f :
  (∀ cards, getheader f = Some cards → cards ≠ []) →
  f ∈ files →
  f ∈ map card_file (parse_fits_headers getheader files).1
      ++ (parse_fits_headers getheader files).2.
Proof.
  intros Hcards Hf. unfold parse_fits_headers. simpl. apply elem_of_app.
  destruct (getheader f) as [cards|] eqn:Hg.
  - left. destruct cards as [|kv cards]; [by destruct (Hcards [])|].
    apply elem_of_map. exists (f, kv.1, kv.2). split; [done|].
    apply list_elem_of_In, in_flat_map. exists f.
    split; [by apply list_elem_of_In|]. rewrite Hg. left. done.
  - right. by apply list_elem_of_filter.
Qed.

(** X25.  The header list handed to the index only mentions files that the
    scan found.  And the cache makes a second start blind to the disk: when
    every readable file has at least one header card, a second loading of
    the same files, without a reset, returns the same headers and leaves
    the cache as it is WHATEVER the files contain by then; no file is read
    again. *)
Theorem load_headers_second_run
    (getheader getheader' : string → option (list (string * string)))
    (reset_cache : bool) (files : list string) (c : cache_db)
    (Hcards : ∀ f cards, f ∈ files → getheader f = Some cards → cards ≠ []) :
  let first := load_headers reset_cache getheader files c in
  (∀ h, h ∈ first.1 → card_file h ∈ files)
  ∧ load_headers false getheader' files first.2 = first.
Proof.
  intros first. subst first. unfold load_headers, cache_get.
  set (cache := cache_open reset_cache c).
  case_bool_decide as Hhit.
  - cbn [fst snd]. split.
    { intros h Hh. by apply list_elem_of_filter in Hh as [? _]. }
    unfold cache_open. rewrite bool_decide_eq_true_2 by done. f_equal.
  - destruct (parse_fits_headers getheader files) as [hs sk] eqn:Hparse.
    cbn [fst snd]. split.
    { intros h Hh. apply (parse_fits_headers_files getheader).
      by rewrite Hparse. }
    unfold cache_open, cache_set, cache_reset. cbn [headers_tbl skipped_tbl].
    rewrite !app_nil_l.
    rewrite bool_decide_eq_true_2.
    + f_equal. apply filter_all. intros h Hh.
      apply (parse_fits_headers_files getheader). by rewrite Hparse.
    + apply length_zero_iff_nil, filter_none. intros f Hf Hn. apply Hn.
      pose proof (parse_fits_headers_covers getheader files f
                    (λ cards, Hcards f cards Hf) Hf) as Hin.
      by rewrite Hparse in Hin.
Qed.

Lemma load_headers_second_run_witness :
  load_headers false (λ _, None) ["/raw/a.fits"]
    (load_headers false
       (λ f, if bool_decide (f = "/raw/a.fits")
             then Some [("OBJECT", "M31")] else None)
       ["/raw/a.fits"] (CacheDb [] [])).2
  = ([("/raw/a.fits", "OBJECT", "M31")],
     CacheDb [("/raw/a.fits", "OBJECT", "M31")] []).
Proof.
  etrans.
  - apply (load_headers_second_run
             (λ f, if bool_decide (f = "/raw/a.fits")
                   then Some [("OBJECT", "M31")] else None)
             (λ _, None) false ["/raw/a.fits"] (CacheDb [] [])).
    intros f cards Hf. apply list_elem_of_singleton in Hf. subst f.
    vm_compute. intros [= <-]. discriminate.
  - vm_compute. reflexivity.
Defined.

(** ** Configuration merge *)

Lemma update_YMap (target : yaml) (items : list (string * yaml)) :
  update target (YMap items) = update_loop target items.
Proof. reflexivity. Qed.

Lemma yaml_nested_ind (P : yaml → Prop) :
  (∀ s, P (YScalar s)) →
  (∀ l, P (YSeq l)) →
  (∀ m, Forall (λ kv, P kv.2) m → P (YMap m)) →
  ∀ v, P v.
Proof.
  intros Hs Hl Hm. fix IH 1. intros [s|l|m]; [apply Hs | apply Hl |].
  apply Hm. induction m as [|[k v] m IHm]; constructor; [apply IH | apply IHm].
Qed.

Lemma dict_get_set_eq (k : string) (v : yaml) (m : list (string * yaml)) :
  dict_get k (dict_set k v m) = Some v.
Proof.
  induction m as [|[k' v'] m IH]; simpl.
  - by destruct (decide (k = k)).
  - destruct (decide (k' = k)) as [->|Hne]; simpl.
    + by destruct (decide (k = k)).
    + by destruct (decide (k' = k)).
Qed.

Lemma dict_get_set_ne (k k' : string) (v : yaml) (m : list (string * yaml)) :
  k ≠ k' → dict_get k' (dict_set k v m) = dict_get k' m.
Proof.
  intros Hne. induction m as [|[k0 v0] m IH]; simpl.
  - by destruct (decide (k = k')).
  - destruct (decide (k0 = k)) as [->|Hne0]; simpl.
    + destruct (decide (k = k')); [done|]. done.
    + by rewrite IH.
Qed.

Lemma dict_get_None (k : string) (m : list (string * yaml)) :
  dict_get k m = None ↔ k ∉ map fst m.
Proof.
  induction m as [|[k' v'] m IH]; simpl.
  - split; [intros _; apply not_elem_of_nil | done].
  - destruct (decide (k' = k)) as [->|Hne].
    + split; [done|]. intros Hn. destruct Hn. left.
    + rewrite IH, not_elem_of_cons. split; [by split | by intros [_ ?]].
Qed.

Lemma dict_get_elem (k : string) (v : yaml) (m : list (string * yaml)) :
  dict_get k m = Some v → (k, v) ∈ m.
Proof.
  induction m as [|[k' v'] m IH]; simpl; [done|].
  destruct (decide (k' = k)) as [->|Hne].
  - intros [= ->]. left.
  - intros H. right. by apply IH.
Qed.

Lemma well_formed_YMap (m : list (string * yaml)) :
  well_formed (YMap m) = true →
  NoDup (map fst m) ∧ ∀ k v, (k, v) ∈ m → well_formed v = true.
Proof.
  simpl. intros [Hnd Hall]%andb_true_iff.
  apply bool_decide_eq_true in Hnd. split; [done|].
  intros k v Hin. rewrite forallb_forall in Hall.
  apply (Hall (k, v)). by apply list_elem_of_In.
Qed.

(** The loop in closed form: what the resulting dict holds under each
    key. *)
Lemma update_loop_spec (items : list (string * yaml)) :
  NoDup (map fst items) →
  ∀ tm m, update_loop (YMap tm) items = inr m →
  ∃ rm, m = YMap rm
    ∧ ∀ k,
        match dict_get k items with
        | None => dict_get k rm = dict_get k tm
        | Some v =>
            if is_mapping v
            then ∃ sub, update (default (YMap []) (dict_get k tm)) v = inr sub
                        ∧ dict_get k rm = Some sub
            else dict_get k rm = Some v
        end.
Proof.
  induction items as [|[k0 v0] rest IH]; intros Hnd tm m Hm; simpl in Hm.
  - injection Hm as <-. by exists tm.
  - apply NoDup_cons in Hnd as [Hk0 Hnd]. simpl in Hk0.
    assert (∀ x m, update_loop (YMap (dict_set k0 x tm)) rest = inr m →
              ∃ rm, m = YMap rm
                ∧ dict_get k0 rm = Some x
                ∧ ∀ k, k0 ≠ k →
                    match dict_get k rest with
                    | None => dict_get k rm = dict_get k tm
                    | Some v =>
                        if is_mapping v
                        then ∃ sub,
                               update (default (YMap []) (dict_get k tm)) v
                               = inr sub ∧ dict_get k rm = Some sub
                        else dict_get k rm = Some v
                    end) as Hstep.
    { intros x m' Hm'. destruct (IH Hnd _ _ Hm') as (rm & -> & Hrm).
      exists rm. split; [done|]. split.
      - specialize (Hrm k0).
        rewrite (proj2 (dict_get_None k0 rest) Hk0) in Hrm.
        by rewrite Hrm, dict_get_set_eq.
      - intros k Hne. specialize (Hrm k).
        by rewrite dict_get_set_ne in Hrm. }
    destruct (is_mapping v0) eqn:Hv0.
    + destruct (update _ v0) as [e|sub] eqn:Hsub; [done|].
      destruct (Hstep _ _ Hm) as (rm & -> & Hk & Hrest).
      exists rm. split; [done|]. intros k. simpl.
      destruct (decide (k0 = k)) as [<-|Hne]; [|by apply Hrest].
      rewrite Hv0. by exists sub.
    + destruct (Hstep _ _ Hm) as (rm & -> & Hk & Hrest).
      exists rm. split; [done|]. intros k. simpl.
      destruct (decide (k0 = k)) as [<-|Hne]; [|by apply Hrest].
      by rewrite Hv0.
Qed.

Lemma update_target_mapping (target source m : yaml) :
  update target source = inr m →
  is_mapping source = true
  ∧ (source ≠ YMap [] → is_mapping target = true).
Proof.
  destruct source as [s|l|items]; try done. rewrite update_YMap.
  intros H. split; [done|]. intros Hne.
  destruct items as [|[k v] rest]; [done|]. simpl in H.
  by destruct target.
Qed.

(** Both directions of the merge, path by path. *)
Lemma update_paths (source : yaml) :
  well_formed source = true →
  ∀ target m, update target source = inr m →
  (∀ path v, path ≠ [] → path_get path source = Some v →
             is_mapping v = false → path_get path m = Some v)
  ∧ (∀ path, leaves path source = true →
             path_get path m = path_get path target).
Proof.
  induction source as [s|l|items IH] using yaml_nested_ind;
    intros Hwf target m Hm; try done.
  apply well_formed_YMap in Hwf as [Hnd Hwf].
  rewrite update_YMap in Hm.
  destruct items as [|[k0 v0] rest0] eqn:Hitems.
  { simpl in Hm. injection Hm as <-. split.
    - intros [|k path] v Hp Hv; [done|]. done.
    - done. }
  rewrite <- Hitems in *.
  assert (∃ tm, target = YMap tm) as [tm ->].
  { rewrite Hitems in Hm. simpl in Hm. destruct target; try done. eauto. }
  destruct (update_loop_spec items Hnd tm m Hm) as (rm & -> & Hrm).
  clear Hitems k0 v0 rest0. split.
  - intros [|k path] v Hp Hget Hv; [done|]. simpl in *.
    destruct (dict_get k items) as [v'|] eqn:Hk; [|done]. simpl in Hget.
    specialize (Hrm k). rewrite Hk in Hrm.
    destruct path as [|k' path'].
    + simpl in Hget. injection Hget as ->. rewrite Hv in Hrm.
      by rewrite Hrm.
    + destruct v' as [s|l|vm]; try done.
      cbn [is_mapping] in Hrm. destruct Hrm as (sub & Hsub & ->).
      cbn [mbind option_bind].
      apply dict_get_elem in Hk.
      rewrite Forall_forall in IH.
      destruct (IH _ Hk (Hwf _ _ Hk) _ _ Hsub) as [IH1 _].
      by apply IH1.
  - intros [|k path] Hleave; [done|]. simpl in *.
    specialize (Hrm k).
    destruct (dict_get k items) as [v'|] eqn:Hk; [|by rewrite Hrm].
    apply andb_true_iff in Hleave as [Hmap Hleave].
    rewrite Hmap in Hrm. destruct Hrm as (sub & Hsub & ->). simpl.
    apply dict_get_elem in Hk.
    rewrite Forall_forall in IH.
    destruct (IH _ Hk (Hwf _ _ Hk) _ _ Hsub) as [_ IH2].
    rewrite (IH2 _ Hleave).
    destruct (dict_get k tm) as [t'|]; simpl; [done|].
    by destruct path.
Qed.

(** X26.  The merge of the user configuration with the defaults lets the
    DEFAULTS win: every setting of the default configuration that is not
    itself a mapping is in the merged configuration with the default value,
    whatever the user file says at that place; the user file only
    contributes what lies on paths the defaults do not have. *)
Theorem get_config_defaults_win (user_config default_config merged : yaml)
    (Hwf : well_formed default_config = true)
    (Hmerge : get_config user_config default_config = inr merged) :
  (∀ path v, path ≠ [] → path_get path default_config = Some v →
             is_mapping v = false → path_get path merged = Some v)
  ∧ (∀ path, leaves path default_config = true →
             path_get path merged = path_get path user_config).
Proof. by apply update_paths. Qed.

Lemma get_config_defaults_win_witness :
  ∃ merged,
    get_config (YMap [("timezone", YScalar "Europe/Paris");
                      ("observer", YScalar "E. C.")])
               (YMap [("timezone", YScalar "UTC")]) = inr merged
    ∧ path_get ["timezone"] merged = Some (YScalar "UTC")
    ∧ path_get ["observer"] merged = Some (YScalar "E. C.").
Proof.
  eexists. split; [vm_compute; reflexivity|].
  destruct (get_config_defaults_win
              (YMap [("timezone", YScalar "Europe/Paris");
                     ("observer", YScalar "E. C.")])
              (YMap [("timezone", YScalar "UTC")]) _
              eq_refl eq_refl) as [Hd Hu].
  split.
  - apply (Hd ["timezone"]); [discriminate | reflexivity | reflexivity].
  - apply (Hu ["observer"]). reflexivity.
Defined.

Lemma dict_set_fresh (k : string) (v : yaml) (m : list (string * yaml)) :
  k ∉ map fst m → dict_set k v m = m ++ [(k, v)].
Proof.
  induction m as [|[k' v'] m IH]; simpl; [done|].
  intros [Hne Hk]%not_elem_of_cons.
  destruct (decide (k' = k)) as [->|_]; [done|]. by rewrite IH.
Qed.

Lemma update_loop_fresh (items : list (string * yaml)) :
  NoDup (map fst items) →
  Forall (λ kv, is_mapping kv.2 = true → update (YMap []) kv.2 = inr kv.2)
         items →
  ∀ acc, (∀ k, k ∈ map fst items → k ∉ map fst acc) →
         update_loop (YMap acc) items = inr (YMap (acc ++ items)).
Proof.
  induction items as [|[k v] rest IH]; intros Hnd Hall acc Hacc; simpl.
  - by rewrite app_nil_r.
  - apply NoDup_cons in Hnd as [Hk Hnd].
    apply Forall_cons in Hall as [Hv Hall]. simpl in Hk, Hv.
    assert (k ∉ map fst acc) as Hka by (apply Hacc; left).
    rewrite (proj2 (dict_get_None k acc) Hka). simpl.
    assert (update_loop (YMap (dict_set k v acc)) rest
            = inr (YMap (acc ++ (k, v) :: rest))) as Hrest.
    { rewrite dict_set_fresh by done. rewrite IH; [|done|done|].
      - by rewrite <- app_assoc.
      - intros k' Hk'. rewrite map_app. simpl.
        rewrite not_elem_of_app. split; [apply Hacc; by right|].
        rewrite list_elem_of_singleton. by intros ->. }
    destruct (is_mapping v); [|done]. by rewrite Hv.
Qed.

Lemma update_empty_target (source : yaml) :
  well_formed source = true → is_mapping source = true →
  update (YMap []) source = inr source.
Proof.
  induction source as [s|l|items IH] using yaml_nested_ind; try done.
  intros [Hnd Hwf]%well_formed_YMap _. rewrite update_YMap.
  rewrite (update_loop_fresh items Hnd); [done| |].
  - apply Forall_forall. intros [k v] Hin Hmap.
    rewrite Forall_forall in IH.
    apply (IH (k, v) Hin); [by eapply Hwf | done].
  - intros k _. apply not_elem_of_nil.
Qed.

(** Where the source has a non-empty mapping, a successful merge found a
    mapping or nothing in the target. *)
Lemma update_needs_mappings (source : yaml) :
  well_formed source = true →
  ∀ target m, update target source = inr m →
  ∀ path kv items, path_get path source = Some (YMap (kv :: items)) →
    match path_get path target with
    | Some t => is_mapping t = true
    | None => True
    end.
Proof.
  induction source as [s|l|sm IH] using yaml_nested_ind;
    intros Hwf target m Hm path kv items Hget; try done.
  destruct path as [|k path].
  { cbn [path_get] in *. injection Hget as ->.
    rewrite update_YMap in Hm. destruct kv as [k v]. simpl in Hm.
    by destruct target. }
  simpl in Hget.
  destruct (dict_get k sm) as [v'|] eqn:Hk; [|done]. simpl in Hget.
  apply well_formed_YMap in Hwf as [Hnd Hwf].
  rewrite update_YMap in Hm.
  destruct target as [s|l|tm]; try done. simpl.
  destruct (update_loop_spec sm Hnd tm m Hm) as (rm & -> & Hrm).
  specialize (Hrm k). rewrite Hk in Hrm.
  assert (is_mapping v' = true) as Hmap.
  { destruct path; simpl in Hget; [by injection Hget as ->|].
    by destruct v'. }
  rewrite Hmap in Hrm. destruct Hrm as (sub & Hsub & _).
  apply dict_get_elem in Hk. rewrite Forall_forall in IH.
  specialize (IH _ Hk (Hwf _ _ Hk) _ _ Hsub path kv items Hget).
  destruct (dict_get k tm) as [t'|]; simpl in *; [done|].
  by destruct path.
Qed.

(** X27.  Without a user file the configuration is the default
    configuration as packaged.  With a user file, the merge can only
    succeed when the user file holds a mapping, or nothing, at every place
    where the defaults hold a non-empty mapping: a scalar or a list there
    makes the loading of the configuration fail. *)
Theorem get_config_edge_cases (default_config : yaml)
    (Hwf : well_formed default_config = true)
    (Hmap : is_mapping default_config = true) :
  get_config (YMap []) default_config = inr default_config
  ∧ ∀ user_config merged path kv items,
      get_config user_config default_config = inr merged →
      path_get path default_config = Some (YMap (kv :: items)) →
      match path_get path user_config with
      | Some t => is_mapping t = true
      | None => True
      end.
Proof.
  split; [by apply update_empty_target|].
  intros user_config merged path kv items Hm Hget.
  by eapply update_needs_mappings.
Qed.

Lemma get_config_edge_cases_witness :
  get_config (YMap [])
    (YMap [("calibration",
            YMap [("dark", YMap [("attrs", YSeq ["_CCDTEMP"; "_BINNING"]);
                                 ("targets", YSeq ["light"])])])])
  = inr (YMap [("calibration",
                YMap [("dark", YMap [("attrs", YSeq ["_CCDTEMP"; "_BINNING"]);
                                     ("targets", YSeq ["light"])])])]).
Proof.
  apply (get_config_edge_cases
           (YMap [("calibration",
                   YMap [("dark",
                          YMap [("attrs", YSeq ["_CCDTEMP"; "_BINNING"]);
                                ("targets", YSeq ["light"])])])])).
  - vm_compute. reflexivity.
  - reflexivity.
Defined.

(** ** The shape of a planned name *)

Lemma chars_app (s1 s2 : string) : chars (s1 +:+ s2) = chars s1 ++ chars s2.
Proof.
  unfold chars. induction s1 as [|c s1 IH]; simpl; [done|]. by rewrite IH.
Qed.

Lemma replace_single_chars (a : ascii) (new s : string) (c : ascii) :
  c ∈ chars (replace (String a "") new s) →
  c ∈ chars new ∨ (c ∈ chars s ∧ c ≠ a).
Proof.
  unfold replace. induction s as [|b s IH]; simpl.
  - by intros ?%not_elem_of_nil.
  - destruct (ascii_dec a b) as [<-|Hne].
    + assert (String.prefix "" s = true) as -> by by destruct s.
      rewrite chars_app, elem_of_app. intros [?|Hc]; [by left|].
      destruct (IH Hc) as [?|[? ?]]; [by left|]. right. split; [|done].
      by right.
    + unfold chars. simpl. rewrite elem_of_cons. intros [->|Hc].
      * right. split; [left|]. by intros ->.
      * destruct (IH Hc) as [?|[? ?]]; [by left|]. right. split; [|done].
        by right.
Qed.

Lemma namepart_plain (r : row) (attr : string) : plain_part (namepart r attr).
Proof.
  assert (plain_part
            (replace "_" "-"
               (replace ":" "-" (replace " " "" (str_of_cell (cell r attr))))))
    as (H1 & H2 & H3).
  { set (s := str_of_cell (cell r attr)). split; [|split].
    - intros [Hc|[Hc _]]%replace_single_chars.
      { unfold chars in Hc. simpl in Hc.
        apply list_elem_of_singleton in Hc. discriminate. }
      apply replace_single_chars in Hc as [Hc|[Hc _]].
      { unfold chars in Hc. simpl in Hc.
        apply list_elem_of_singleton in Hc. discriminate. }
      apply replace_single_chars in Hc as [Hc|[_ Hc]]; [|done].
      by apply not_elem_of_nil in Hc.
    - intros [Hc|[Hc _]]%replace_single_chars.
      { unfold chars in Hc. simpl in Hc.
        apply list_elem_of_singleton in Hc. discriminate. }
      apply replace_single_chars in Hc as [Hc|[_ Hc]]; [|done].
      unfold chars in Hc. simpl in Hc.
      apply list_elem_of_singleton in Hc. discriminate.
    - intros [Hc|[_ Hc]]%replace_single_chars; [|done].
      unfold chars in Hc. simpl in Hc.
      apply list_elem_of_singleton in Hc. discriminate. }
  unfold namepart. case_bool_decide as Hin; [|done].
  assert (plain_part (lower (strip_us attr))) as (G1 & G2 & G3).
  { apply elem_of_cons in Hin as [->|Hin].
    - unfold plain_part. vm_compute chars. repeat split;
        by_eval.
    - apply list_elem_of_singleton in Hin. subst attr.
      unfold plain_part. vm_compute chars. repeat split; by_eval. }
  unfold plain_part. rewrite chars_app, !not_elem_of_app. done.
Qed.

(** X28.  A planned file name is made of one part per name attribute and
    the sequence number, joined by underscores and followed by ".fits",
    and no part holds a blank, a colon or an underscore: the underscores of
    a planned name are exactly the separators, so the name can be split
    back into its parts.  A type without name attributes gets no name. *)
Theorem get_new_name_shape (name_attrs : list string) (r : row) :
  get_new_name [] r = None
  ∧ (name_attrs ≠ [] →
     ∃ parts,
       get_new_name name_attrs r = Some (VStr (join "_" parts +:+ ".fits"))
       ∧ length parts = S (length name_attrs)
       ∧ Forall plain_part parts).
Proof.
  split; [done|]. intros Hne. unfold get_new_name.
  rewrite bool_decide_eq_false_2 by done.
  eexists. split; [reflexivity|]. split.
  - rewrite length_map, length_app. simpl. lia.
  - apply Forall_forall. intros p (a & -> & _)%elem_of_map.
    apply namepart_plain.
Qed.

Lemma get_new_name_shape_witness :
  ∃ parts,
    get_new_name ["OBJECT"; "_GAIN"]
      (Row "/raw/a.fits" {[ "OBJECT" := VStr "M 31"; "_GAIN" := VStr "120";
                            "_SEQNO" := VStr "001" ]})
    = Some (VStr (join "_" parts +:+ ".fits"))
    ∧ length parts = 3%nat
    ∧ Forall plain_part parts.
Proof.
  apply (get_new_name_shape ["OBJECT"; "_GAIN"]
           (Row "/raw/a.fits" {[ "OBJECT" := VStr "M 31";
                                 "_GAIN" := VStr "120";
                                 "_SEQNO" := VStr "001" ]})).
  discriminate.
Defined.

(** ** Moving a subtree *)

Lemma change_subtree_inv (destination root_dir : string) (i i' : Index) :
  change_subtree destination root_dir i = inr i' →
  ∃ cols,
    cols = add_columns ["_CHANGED"] (add_columns ["_newpath"] (columns (df i)))
    ∧ (index_column cols ∉ cols)
    ∧ columns (df i') = index_column cols :: cols
    ∧ rows (df i')
      = imap (λ k r, set_cell (index_column cols)
                       (Some (VNum (inject_Z (Z.of_nat k)))) r)
          (map_mask (set_cells ["_CHANGED"] (λ _, Some (VBool true)))
             (rowmask i)
             (map_mask (λ r, set_cell "_newpath"
                               (new_subtree destination root_dir (file r)) r)
                (rowmask i) (rows (df i))))
    ∧ rowmask i' = rowmask i.
Proof.
  unfold change_subtree, set_df. cbn [columns rows loc_set_scalar].
  intros H. eexists. split; [reflexivity|].
  destruct (bool_decide (index_column _ ∈ _)) eqn:Hin in H; err_simpl H;
    [done|].
  apply bool_decide_eq_false in Hin. by injection H as <-.
Qed.

Lemma lookup_map_mask {A : Type} (f : A → A) (mask : list bool) (l : list A)
    (k : nat) (b : bool) (x : A) :
  mask !! k = Some b → l !! k = Some x →
  map_mask f mask l !! k = Some (if b then f x else x).
Proof.
  revert mask k. induction l as [|y l IH]; intros [|c mask] [|k] Hb Hx;
    simpl in *; try done.
  - by injection Hb as ->; injection Hx as ->.
  - by apply IH.
Qed.

(** X29.  Moving the subtree flags EVERY selected row dirty and stages a
    directory for it: the directory of the file below the root, re-rooted
    at the destination, or nothing at all when the file is not below the
    root, in which case an earlier staging of that row is erased while the
    row is flagged all the same.  Rows outside the selection keep their
    cells, and every row gets its position in a new column named after the
    old range index. *)
Theorem change_subtree_stages_selected
    (destination root_dir : string) (i : Index)
    (Hlen : length (rowmask i) = length (rows (df i)))
    (Hfresh : "index" ∉ columns (df i)) :
  ∃ i', change_subtree destination root_dir i = inr i'
    ∧ "index" ∈ columns (df i')
    ∧ rowmask i' = rowmask i
    ∧ ∀ (k : nat) (b : bool) (r : row),
        rowmask i !! k = Some b → rows (df i) !! k = Some r →
        ∃ r', rows (df i') !! k = Some r'
          ∧ file r' = file r
          ∧ cell r' "index" = Some (VNum (inject_Z (Z.of_nat k)))
          ∧ cell r' "_newpath"
            = (if b then new_subtree destination root_dir (file r)
               else cell r "_newpath")
          ∧ dirty r' = (b || dirty r)
          ∧ ∀ c, c ≠ "index" → c ≠ "_newpath" → c ≠ "_CHANGED" →
                 cell r' c = cell r c.
Proof.
  assert ("index" ∉ add_columns ["_CHANGED"]
                      (add_columns ["_newpath"] (columns (df i)))) as Hn.
  { rewrite !elem_of_add_columns, !list_elem_of_singleton.
    intros [[?|?]|?]; [done|discriminate|discriminate]. }
  assert (∃ i', change_subtree destination root_dir i = inr i') as [i' Hi'].
  { unfold change_subtree, set_df, index_column.
    cbn [columns rows loc_set_scalar].
    rewrite (bool_decide_eq_false_2 ("index" ∈ _)) by done.
    rewrite (bool_decide_eq_false_2 ("index" ∈ _)) by done.
    by eexists. }
  exists i'. split; [done|].
  apply change_subtree_inv in Hi' as (cols & -> & _ & Hcols & Hrows & Hmask).
  unfold index_column in Hcols, Hrows.
  rewrite (bool_decide_eq_false_2 ("index" ∈ _)) in Hcols, Hrows by done.
  split; [rewrite Hcols; left|]. split; [done|].
  intros k b r Hb Hr. rewrite Hrows, list_lookup_imap.
  pose proof (lookup_map_mask
                (λ r, set_cell "_newpath"
                        (new_subtree destination root_dir (file r)) r)
                _ _ k b r Hb Hr) as Hstep1.
  rewrite (lookup_map_mask _ _ _ k b _ Hb Hstep1).
  simpl. eexists. split; [reflexivity|].
  unfold dirty. destruct b; simpl.
  - rewrite cell_set_cell_eq.
    rewrite (cell_set_cell_ne "index" "_newpath") by discriminate.
    rewrite (cell_set_cell_ne "_CHANGED" "_newpath") by discriminate.
    rewrite (cell_set_cell_ne "index" "_CHANGED") by discriminate.
    rewrite !cell_set_cell_eq.
    split; [done|]. split; [done|]. split; [done|]. split; [done|].
    intros c H1 H2 H3.
    rewrite (cell_set_cell_ne "index" c) by (intros Heq; by apply H1).
    rewrite (cell_set_cell_ne "_CHANGED" c) by (intros Heq; by apply H3).
    apply cell_set_cell_ne. intros Heq. by apply H2.
  - rewrite cell_set_cell_eq.
    rewrite (cell_set_cell_ne "index" "_newpath") by discriminate.
    rewrite (cell_set_cell_ne "index" "_CHANGED") by discriminate.
    split; [done|]. split; [done|]. split; [done|]. split; [done|].
    intros c H1 H2 H3. apply cell_set_cell_ne. intros Heq. by apply H1.
Qed.

Lemma change_subtree_stages_selected_witness :
  ∃ i', change_subtree "/sorted" "/raw" night_of_m31 = inr i'
        ∧ "index" ∈ columns (df i')
        ∧ rowmask i' = rowmask night_of_m31.
Proof.
  destruct (change_subtree_stages_selected "/sorted" "/raw" night_of_m31)
    as (i' & Hi' & Hc & Hm & _).
  - reflexivity.
  - by_eval.
  - exists i'. split; [exact Hi'|]. split; [exact Hc | exact Hm].
Defined.

(** X30.  The subtree move works twice and then no more: every successful
    call leaves a further column behind (the old range index, as 'index',
    then as 'level_0'), and the third call after two successful ones fails
    with ValueError when the table is put back, whatever the destination
    and the selection. *)
Theorem change_subtree_third_call_fails
    (dest1 dest2 dest3 root_dir : string) (i i1 i2 : Index)
    (H1 : change_subtree dest1 root_dir i = inr i1)
    (H2 : change_subtree dest2 root_dir i1 = inr i2) :
  change_subtree dest3 root_dir i2
  = inl (ValueError "cannot insert level_0, already exists").
Proof.
  apply change_subtree_inv in H1 as (cols1 & _ & _ & Hc1 & _).
  apply change_subtree_inv in H2 as (cols2 & Hcols2 & _ & Hc2 & _).
  assert ("index" ∈ columns (df i1)) as Hi1.
  { rewrite Hc1. unfold index_column.
    case_bool_decide as Hin; [by right | left]. }
  assert ("index" ∈ cols2) as Hin2.
  { rewrite Hcols2. apply elem_of_add_columns. left.
    apply elem_of_add_columns. by left. }
  unfold index_column in Hc2. rewrite (bool_decide_eq_true_2 _ Hin2) in Hc2.
  unfold change_subtree, set_df, index_column.
  cbn [columns rows loc_set_scalar].
  assert ("index" ∈ add_columns ["_CHANGED"]
                      (add_columns ["_newpath"] (columns (df i2)))) as Hin3.
  { apply elem_of_add_columns. left. apply elem_of_add_columns. left.
    rewrite Hc2. by right. }
  assert ("level_0" ∈ add_columns ["_CHANGED"]
                        (add_columns ["_newpath"] (columns (df i2)))) as Hl3.
  { apply elem_of_add_columns. left. apply elem_of_add_columns. left.
    rewrite Hc2. left. }
  rewrite (bool_decide_eq_true_2 _ Hin3).
  by rewrite (bool_decide_eq_true_2 _ Hl3).
Qed.

Lemma change_subtree_third_call_fails_witness :
  ∃ i1 i2,
    change_subtree "/sorted" "." object_named_unknown = inr i1
    ∧ change_subtree "/archive" "." i1 = inr i2
    ∧ change_subtree "/elsewhere" "." i2
      = inl (ValueError "cannot insert level_0, already exists").
Proof.
  eexists _, _. split; [vm_compute; reflexivity|].
  split; [vm_compute; reflexivity|].
  eapply (change_subtree_third_call_fails "/sorted" "/archive" "/elsewhere"
            "." object_named_unknown).
  - vm_compute. reflexivity.
  - vm_compute. reflexivity.
Defined.
